(** * terminal-tutor: the conversational query pipeline, embedded and verified

    A shallow embedding of the parts of [src/GeminiClient.cpp],
    [src/Simulator.cpp] and [src/main.cpp] that carry the session store, the
    remote client, the intent classifier, the streaming decoder, the danger
    classifiers, the command executor and the token budget monitor.

    Conventions.
    - [std::string] is a [string] of bytes ([ascii]); positions are [nat] and
      [std::string::npos] is [None].
    - A C++ exception is a [Throw] in the [result] monad; [try ... catch] is a
      [match] on it.  A call that changes the client before it throws is an
      [outcome]: the state it leaves and the exception, if any.
    - The JSON library, the HTTP transport, the process pipe and the file
      system are outside the repository.  The JSON text codec is an interface
      ([JsonLib]) every development below is parametric in; [NlohmannModel]
      is one executable instance used to evaluate the code on concrete
      replies.  What the file system allows is an interface too
      ([FileSystem]), with one instance for the evaluations.  The
      transport, the pipe and the content of the files are explicit inputs
      and outputs of the embedded functions. *)

From Stdlib Require Import ZArith Lia Ascii.
From stdpp Require Import base strings list gmap pretty.

Local Open Scope Z_scope.

(** ** Byte strings *)

Module Str.

Definition nl : ascii := "010".
Definition cr : ascii := "013".
Definition tab : ascii := "009".
Definition dq : ascii := "034".

Definition of_char (c : ascii) : string := String c "".

Fixpoint map (f : ascii → ascii) (s : string) : string :=
  match s with
  | "" => ""
  | String c s' => String (f c) (map f s')
  end.

(** [::tolower] in the "C" locale: only [A]..[Z] move. *)
Definition tolower (c : ascii) : ascii :=
  let n := N_of_ascii c in
  if ((65 <=? n) && (n <=? 90))%N then ascii_of_N (n + 32) else c.

Fixpoint take (n : nat) (s : string) : string :=
  match n, s with
  | S n', String c s' => String c (take n' s')
  | _, _ => ""
  end.

Fixpoint drop (n : nat) (s : string) : string :=
  match n, s with
  | S n', String _ s' => drop n' s'
  | _, _ => s
  end.

(** [s.substr(pos, len)] for [pos <= s.size()]; the length is clamped. *)
Definition substr (pos len : nat) (s : string) : string :=
  take len (drop pos s).

(** [s.substr(pos)] for [pos <= s.size()]. *)
Definition substr_from (pos : nat) (s : string) : string := drop pos s.

(** [s.rfind(p, 0) == 0]: [p] is a prefix of [s]. *)
Fixpoint starts_with (p s : string) : bool :=
  match p, s with
  | "", _ => true
  | String a p', String b s' => if Ascii.eqb a b then starts_with p' s' else false
  | String _ _, "" => false
  end.

Fixpoint find_from (pat s : string) (i : nat) : option nat :=
  if starts_with pat s then Some i
  else match s with
       | "" => None
       | String _ s' => find_from pat s' (S i)
       end.

(** [s.find(pat)]: the position of the first occurrence. *)
Definition find (pat s : string) : option nat := find_from pat s 0.

(** [s.find(pat) != std::string::npos] *)
Definition contains (pat s : string) : bool :=
  match find pat s with Some _ => true | None => false end.

(** [s.find(c)] for a character. *)
Definition find_char (c : ascii) (s : string) : option nat := find (of_char c) s.

(** [s.rfind(c)]: the position of the last occurrence. *)
Fixpoint rfind_char (c : ascii) (s : string) : option nat :=
  match s with
  | "" => None
  | String b s' =>
      match rfind_char c s' with
      | Some i => Some (S i)
      | None => if Ascii.eqb b c then Some 0%nat else None
      end
  end.

Fixpoint mem (c : ascii) (set : string) : bool :=
  match set with
  | "" => false
  | String b set' => Ascii.eqb b c || mem c set'
  end.

(** [s.find_first_not_of(set)] *)
Fixpoint find_first_not_of (set s : string) : option nat :=
  match s with
  | "" => None
  | String c s' =>
      if mem c set then S <$> find_first_not_of set s' else Some 0%nat
  end.

(** [s.find_last_not_of(set)] *)
Fixpoint find_last_not_of (set s : string) : option nat :=
  match s with
  | "" => None
  | String c s' =>
      match find_last_not_of set s' with
      | Some i => Some (S i)
      | None => if mem c set then None else Some 0%nat
      end
  end.

(** The lines a [while (std::getline(stream, line, delim))] loop sees: the
    pieces between delimiters, a last piece without delimiter included when
    it is not empty. *)
Fixpoint getlines_aux (delim : ascii) (s cur : string) : list string :=
  match s with
  | "" => match cur with "" => [] | _ => [String.rev cur] end
  | String c s' =>
      if Ascii.eqb c delim then String.rev cur :: getlines_aux delim s' ""
      else getlines_aux delim s' (String c cur)
  end.

Definition getlines (delim : ascii) (s : string) : list string :=
  getlines_aux delim s "".

(** [s.erase(pos, len)] for [pos <= s.size()]. *)
Definition erase (pos len : nat) (s : string) : string :=
  take pos s +:+ drop (pos + len) s.

(** [s.back()], on a string that is not empty. *)
Fixpoint back (s : string) : option ascii :=
  match s with
  | "" => None
  | String c "" => Some c
  | String _ s' => back s'
  end.

(** [s.pop_back()] *)
Definition pop_back (s : string) : string := take (String.length s - 1) s.

Definition is_empty (s : string) : bool :=
  match s with "" => true | _ => false end.

(** The strings of a list, one after the other. *)
Fixpoint concat (l : list string) : string :=
  match l with
  | [] => ""
  | chunk :: l' => chunk +:+ concat l'
  end.

(** JSON texts are written with an apostrophe where the text has a double
    quote: [quoted "{'a':1}"] is the seven bytes of the object. *)
Definition quoted (s : string) : string :=
  map (λ c, if Ascii.eqb c "'" then dq else c) s.

End Str.

(** ** JSON values and the operations of the JSON library the code calls *)

Module Json.

Local Set Warnings "-register-all".

Inductive json : Type :=
| JNull
| JBool (b : bool)
| JInt (n : Z)
| JFloat (lexeme : string)
| JString (s : string)
| JArray (items : list json)
| JObject (members : list (string * json)).

(** What the code sees of a [std::exception]: its [what()], and the
    numeric id of a [json::exception] (0 for any other exception). *)
Record exception : Type := Exception { exc_id : nat; what : string }.

Inductive result (A : Type) : Type :=
| Ok (a : A)
| Throw (e : exception).
Global Arguments Ok {A} a.
Global Arguments Throw {A} e.

Global Instance result_ret : MRet result := λ A a, Ok a.
Global Instance result_bind : MBind result := λ A B f m,
  match m with
  | Ok a => f a
  | Throw e => Throw e
  end.

Definition type_error (id : nat) (msg : string) : exception :=
  Exception id msg.

Fixpoint assoc (key : string) (members : list (string * json)) : option json :=
  match members with
  | [] => None
  | (k, v) :: rest => if String.eqb k key then Some v else assoc key rest
  end.

(** Members are kept as [std::map] keeps them: ordered by key, one entry
    per key, a later value replacing an earlier one. *)
Fixpoint obj_insert (key : string) (v : json) (members : list (string * json))
  : list (string * json) :=
  match members with
  | [] => [(key, v)]
  | (k, w) :: rest =>
      match String.compare key k with
      | Lt => (key, v) :: members
      | Eq => (key, v) :: rest
      | Gt => (k, w) :: obj_insert key v rest
      end
  end.

(** An object written as an initializer list of pairs. *)
Definition object (l : list (string * json)) : json :=
  JObject (fold_left (λ acc kv, obj_insert kv.1 kv.2 acc) l []).

(** [j.contains(key)] *)
Definition contains (j : json) (key : string) : bool :=
  match j with
  | JObject members => bool_decide (is_Some (assoc key members))
  | _ => false
  end.

(** [j.empty()] *)
Definition empty (j : json) : bool :=
  match j with
  | JNull => true
  | JArray items => bool_decide (items = [])
  | JObject members => bool_decide (members = [])
  | _ => false
  end.

(** [j[key]] on a non-const value: [null] turns into an object, a missing
    member is created as [null], any other type raises type error 305. *)
Definition at_key (j : json) (key : string) : result json :=
  match j with
  | JNull => Ok JNull
  | JObject members => Ok (default JNull (assoc key members))
  | _ => Throw (type_error 305 "cannot use operator[] with a string argument")
  end.

(** [j[idx]] on a non-const value: [null] turns into an array, an array is
    filled with [null] up to [idx], any other type raises type error 305. *)
Definition at_idx (j : json) (idx : nat) : result json :=
  match j with
  | JNull => Ok JNull
  | JArray items => Ok (default JNull (items !! idx))
  | _ => Throw (type_error 305 "cannot use operator[] with a numeric argument")
  end.

(** [j.get<std::string>()] *)
Definition get_string (j : json) : result string :=
  match j with
  | JString s => Ok s
  | _ => Throw (type_error 302 "type must be string")
  end.

(** The value of [static_cast<int>] on a 64-bit integer. *)
Definition wrap_int (n : Z) : Z := (n + 2 ^ 31) mod 2 ^ 32 - 2 ^ 31.

(** The text codec of the library and its one floating-point conversion.
    [parse] is [json::parse(text)]: the whole text is one value.
    [parse_stream] is [stream >> j]: one value is read from the front of
    the stream.  [dump None] is [j.dump()], [dump (Some n)] is [j.dump(n)].
    [dump] raises on a value that holds a string which is not UTF-8:
    [dump_error j] is that exception, if any, and [dump] gives the text
    otherwise.  A request body is made of the caller's prompt, of turns
    read by [parse_stream] and of reply texts read by [parse], which are
    UTF-8 as the caller and the parser give them; the output of a command,
    cut at a byte count, need not be, and it reaches [dump] where the
    session is saved.  [float_to_int] is [static_cast<int>] of the number a
    floating-point lexeme denotes. *)
Class JsonLib : Type := {
  parse : string → result json;
  parse_stream : string → result json;
  dump : option nat → json → string;
  dump_error : json → option exception;
  float_to_int : string → Z
}.

(** [j.get<int>()] *)
Definition get_int `{JsonLib} (j : json) : result Z :=
  match j with
  | JInt n => Ok (wrap_int n)
  | JFloat lexeme => Ok (float_to_int lexeme)
  | JBool b => Ok (if b then 1 else 0)
  | _ => Throw (type_error 302 "type must be number")
  end.

(** One turn of a conversation as the code writes it:
    [{{"role", role}, {"parts", {{{"text", text}}}}}]. *)
Definition turn (role text : string) : json :=
  object [("role", JString role);
          ("parts", JArray [object [("text", JString text)]])].

(** The guard both the synchronous and the streaming path put before the
    reply text is read. *)
Definition has_candidate_text (j : json) : result bool :=
  if contains j "candidates" then
    c ← at_key j "candidates";
    if negb (empty c) then
      c0 ← at_idx c 0;
      if contains c0 "content" then
        ct ← at_key c0 "content";
        if contains ct "parts" then
          p ← at_key ct "parts";
          mret (negb (empty p))
        else mret false
      else mret false
    else mret false
  else mret false.

(** [j["candidates"][0]["content"]["parts"][0]["text"].get<std::string>()] *)
Definition candidate_text (j : json) : result string :=
  c ← at_key j "candidates";
  c0 ← at_idx c 0;
  ct ← at_key c0 "content";
  p ← at_key ct "parts";
  p0 ← at_idx p 0;
  t ← at_key p0 "text";
  get_string t.

End Json.

(** ** An executable instance of the JSON text codec

    A recursive-descent reader of the RFC 8259 grammar as the library reads
    it (white space, literals, numbers, strings with escapes and UTF-8
    checking, arrays, objects with the last duplicate key winning, an optional
    byte-order mark) and a writer in the library's two layouts.  Integers that
    fit 64 bits are [JInt]; every other number keeps its lexeme in [JFloat],
    and is written back as that lexeme. *)

Module NlohmannModel.
Import Json.

Definition is_ws (c : ascii) : bool :=
  match c with
  | " " | "009" | "010" | "013" => true
  | _ => false
  end%char.

Fixpoint skip_ws (s : string) : string :=
  match s with
  | String c s' => if is_ws c then skip_ws s' else s
  | "" => ""
  end.

Definition is_digit (c : ascii) : bool :=
  let n := N_of_ascii c in ((48 <=? n) && (n <=? 57))%N.

Definition hex_digit (c : ascii) : option N :=
  let n := N_of_ascii c in
  if ((48 <=? n) && (n <=? 57))%N then Some (n - 48)%N
  else if ((65 <=? n) && (n <=? 70))%N then Some (n - 55)%N
  else if ((97 <=? n) && (n <=? 102))%N then Some (n - 87)%N
  else None.

(** The longest prefix of digits and what follows it. *)
Fixpoint span_digits (s : string) : string * string :=
  match s with
  | String c s' =>
      if is_digit c then let '(d, r) := span_digits s' in (String c d, r)
      else ("", s)
  | "" => ("", "")
  end.

Fixpoint digits_value (s : string) (acc : Z) : Z :=
  match s with
  | String c s' => digits_value s' (10 * acc + (Z.of_N (N_of_ascii c) - 48))
  | "" => acc
  end.

(** A number: an optional minus, [0] or a digit sequence without leading
    zero, an optional fraction, an optional exponent. *)
Definition lex_number (s : string) : option (json * string) :=
  let '(sign, s1) :=
    match s with
    | String "-" r => ("-", r)
    | _ => ("", s)
    end in
  int_part ←
    match s1 with
    | String "0" r => Some ("0", r)
    | String c _ =>
        if is_digit c then Some (span_digits s1) else None
    | "" => None
    end;
  let '(int_digits, s2) := int_part in
  frac_part ←
    match s2 with
    | String "." r =>
        let '(d, r') := span_digits r in
        match d with
        | "" => None
        | _ => Some ("." +:+ d, r')
        end
    | _ => Some ("", s2)
    end;
  let '(frac, s3) := frac_part in
  exp_part ←
    match s3 with
    | String e r =>
        if Ascii.eqb e "e" || Ascii.eqb e "E" then
          let '(esign, r1) :=
            match r with
            | String "+" r' => ("+", r')
            | String "-" r' => ("-", r')
            | _ => ("", r)
            end in
          let '(d, r2) := span_digits r1 in
          match d with
          | "" => None
          | _ => Some (String e (esign +:+ d), r2)
          end
        else Some ("", s3)
    | "" => Some ("", s3)
    end;
  let '(exp, s4) := exp_part in
  let lexeme := sign +:+ int_digits +:+ frac +:+ exp in
  let magnitude := digits_value int_digits 0 in
  let value := if String.eqb sign "-" then - magnitude else magnitude in
  match frac, exp with
  | "", "" =>
      if (- 2 ^ 63 <=? value) && (value <? 2 ^ 64)
      then Some (JInt value, s4)
      else Some (JFloat lexeme, s4)
  | _, _ => Some (JFloat lexeme, s4)
  end.

Definition hex4 (s : string) : option (N * string) :=
  match s with
  | String a (String b (String c (String d r))) =>
      x ← hex_digit a; y ← hex_digit b; z ← hex_digit c; w ← hex_digit d;
      Some (((x * 16 + y) * 16 + z) * 16 + w, r)%N
  | _ => None
  end.

(** The UTF-8 encoding of a code point. *)
Definition utf8 (cp : N) : string :=
  let byte n := Str.of_char (ascii_of_N n) in
  (if cp <? 128 then byte cp
   else if cp <? 2048 then
     byte (192 + cp / 64) +:+ byte (128 + cp mod 64)
   else if cp <? 65536 then
     byte (224 + cp / 4096) +:+ byte (128 + (cp / 64) mod 64)
     +:+ byte (128 + cp mod 64)
   else
     byte (240 + cp / 262144) +:+ byte (128 + (cp / 4096) mod 64)
     +:+ byte (128 + (cp / 64) mod 64) +:+ byte (128 + cp mod 64))%N.

(** Bytes that must follow a UTF-8 lead byte, each within its range. *)
Fixpoint take_ranges (ranges : list (N * N)) (s : string) : option (string * string) :=
  match ranges with
  | [] => Some ("", s)
  | (lo, hi) :: ranges' =>
      match s with
      | String c s' =>
          let n := N_of_ascii c in
          if ((lo <=? n) && (n <=? hi))%N then
            '(bytes, r) ← take_ranges ranges' s'; Some (String c bytes, r)
          else None
      | "" => None
      end
  end.

Definition continuation (lead : N) : option (list (N * N)) :=
  if ((194 <=? lead) && (lead <=? 223))%N then Some [(128, 191)]%N
  else if (lead =? 224)%N then Some [(160, 191); (128, 191)]%N
  else if (lead =? 237)%N then Some [(128, 159); (128, 191)]%N
  else if ((225 <=? lead) && (lead <=? 239))%N then Some [(128, 191); (128, 191)]%N
  else if (lead =? 240)%N then Some [(144, 191); (128, 191); (128, 191)]%N
  else if ((241 <=? lead) && (lead <=? 243))%N then Some [(128, 191); (128, 191); (128, 191)]%N
  else if (lead =? 244)%N then Some [(128, 143); (128, 191); (128, 191)]%N
  else None.

(** The body of a string literal, after its opening quote. *)
Fixpoint lex_string (fuel : nat) (s : string) : option (string * string) :=
  match fuel with
  | O => None
  | S fuel' =>
      match s with
      | "" => None
      | String c r =>
          let n := N_of_ascii c in
          let push (bytes rest : string) :=
            '(body, r') ← lex_string fuel' rest; Some (bytes +:+ body, r') in
          if Ascii.eqb c Str.dq then Some ("", r)
          else if Ascii.eqb c "\" then
            match r with
            | String e r1 =>
                if Ascii.eqb e Str.dq then push (Str.of_char Str.dq) r1
                else if Ascii.eqb e "\" then push "\" r1
                else if Ascii.eqb e "/" then push "/" r1
                else if Ascii.eqb e "b" then push (Str.of_char "008") r1
                else if Ascii.eqb e "f" then push (Str.of_char "012") r1
                else if Ascii.eqb e "n" then push (Str.of_char "010") r1
                else if Ascii.eqb e "r" then push (Str.of_char "013") r1
                else if Ascii.eqb e "t" then push (Str.of_char "009") r1
                else if Ascii.eqb e "u" then
                  '(cp, r2) ← hex4 r1;
                  if ((55296 <=? cp) && (cp <=? 56319))%N then
                    match r2 with
                    | String "\" (String "u" r3) =>
                        '(low, r4) ← hex4 r3;
                        if ((56320 <=? low) && (low <=? 57343))%N then
                          push (utf8 (65536 + (cp - 55296) * 1024 + (low - 56320))%N) r4
                        else None
                    | _ => None
                    end
                  else if ((56320 <=? cp) && (cp <=? 57343))%N then None
                  else push (utf8 cp) r2
                else None
            | "" => None
            end
          else if (n <? 32)%N then None
          else if (n <? 128)%N then push (Str.of_char c) r
          else
            ranges ← continuation n;
            '(bytes, r1) ← take_ranges ranges r;
            push (String c bytes) r1
      end
  end.

Fixpoint parse_value (fuel : nat) (s : string) : option (json * string) :=
  match fuel with
  | O => None
  | S fuel' =>
      match skip_ws s with
      | "" => None
      | String c r as s0 =>
          if Ascii.eqb c "{" then
            match skip_ws r with
            | String "}" r' => Some (JObject [], r')
            | _ => parse_members fuel' r []
            end
          else if Ascii.eqb c "[" then
            match skip_ws r with
            | String "]" r' => Some (JArray [], r')
            | _ => parse_elements fuel' r []
            end
          else if Ascii.eqb c Str.dq then
            '(str, r') ← lex_string (String.length r) r; Some (JString str, r')
          else if Str.starts_with "true" s0 then Some (JBool true, Str.drop 4 s0)
          else if Str.starts_with "false" s0 then Some (JBool false, Str.drop 5 s0)
          else if Str.starts_with "null" s0 then Some (JNull, Str.drop 4 s0)
          else lex_number s0
      end
  end
with parse_elements (fuel : nat) (s : string) (acc : list json)
  : option (json * string) :=
  match fuel with
  | O => None
  | S fuel' =>
      '(v, r) ← parse_value fuel' s;
      match skip_ws r with
      | String "," r' => parse_elements fuel' r' (v :: acc)
      | String "]" r' => Some (JArray (rev (v :: acc)), r')
      | _ => None
      end
  end
with parse_members (fuel : nat) (s : string) (acc : list (string * json))
  : option (json * string) :=
  match fuel with
  | O => None
  | S fuel' =>
      match skip_ws s with
      | String c r =>
          if Ascii.eqb c Str.dq then
            '(key, r1) ← lex_string (String.length r) r;
            match skip_ws r1 with
            | String ":" r2 =>
                '(v, r3) ← parse_value fuel' r2;
                let acc' := obj_insert key v acc in
                match skip_ws r3 with
                | String "," r4 => parse_members fuel' r4 acc'
                | String "}" r4 => Some (JObject acc', r4)
                | _ => None
                end
            | _ => None
            end
          else None
      | "" => None
      end
  end.

Definition skip_bom (s : string) : string :=
  match s with
  | String "239" (String "187" (String "191" r)) => r
  | _ => s
  end.

Definition read_value (s : string) : option (json * string) :=
  parse_value (S (String.length s)) (skip_bom s).

Definition parse_error : exception :=
  Exception 101 "parse error".

Definition parse (s : string) : result json :=
  match read_value s with
  | Some (j, rest) =>
      match skip_ws rest with
      | "" => Ok j
      | _ => Throw parse_error
      end
  | None => Throw parse_error
  end.

Definition parse_stream (s : string) : result json :=
  match read_value s with
  | Some (j, _) => Ok j
  | None => Throw parse_error
  end.

Definition hex_char (n : N) : ascii :=
  if (n <? 10)%N then ascii_of_N (48 + n) else ascii_of_N (87 + n).

Definition escape (c : ascii) : string :=
  let n := N_of_ascii c in
  if Ascii.eqb c Str.dq then String "\" (Str.of_char Str.dq)
  else if Ascii.eqb c "\" then "\\"
  else if (n =? 8)%N then "\b"
  else if (n =? 12)%N then "\f"
  else if (n =? 10)%N then "\n"
  else if (n =? 13)%N then "\r"
  else if (n =? 9)%N then "\t"
  else if (n <? 32)%N then
    "\u00" +:+ String (hex_char (n / 16)) (Str.of_char (hex_char (n mod 16)))
  else Str.of_char c.

Fixpoint escape_string (s : string) : string :=
  match s with
  | "" => ""
  | String c s' => escape c +:+ escape_string s'
  end.

Definition quote (s : string) : string :=
  String Str.dq (escape_string s +:+ Str.of_char Str.dq).

Fixpoint spaces (n : nat) : string :=
  match n with
  | O => ""
  | S n' => String " " (spaces n')
  end.

Fixpoint join (sep : string) (l : list string) : string :=
  match l with
  | [] => ""
  | [x] => x
  | x :: l' => x +:+ sep +:+ join sep l'
  end.

(** [dump_value indent cur j]: [j] written with [indent] spaces per level
    ([None]: the compact layout) at the current indentation [cur]. *)
Fixpoint dump_value (indent : option nat) (cur : nat) (j : json) : string :=
  let open_ := match indent with Some _ => Str.of_char Str.nl | None => "" end in
  let inner := match indent with Some i => (cur + i)%nat | None => O end in
  let sep := match indent with Some _ => String "," (Str.of_char Str.nl) | None => "," end in
  let colon := match indent with Some _ => ": " | None => ":" end in
  match j with
  | JNull => "null"
  | JBool true => "true"
  | JBool false => "false"
  | JInt n => pretty n
  | JFloat lexeme => lexeme
  | JString s => quote s
  | JArray [] => "[]"
  | JArray items =>
      "[" +:+ open_
      +:+ join sep (List.map (λ v, spaces inner +:+ dump_value indent inner v) items)
      +:+ open_ +:+ spaces (match indent with Some _ => cur | None => O end) +:+ "]"
  | JObject [] => "{}"
  | JObject members =>
      "{" +:+ open_
      +:+ join sep (List.map (λ kv, spaces inner +:+ quote kv.1 +:+ colon
                                     +:+ dump_value indent inner kv.2) members)
      +:+ open_ +:+ spaces (match indent with Some _ => cur | None => O end) +:+ "}"
  end.

(** The two ways a byte string fails to be UTF-8 for [dump]; the texts of
    [what()] are abbreviated, the library adds the position and the byte. *)
Definition invalid_utf8 : exception :=
  Exception 316 "invalid UTF-8 byte".

Definition incomplete_utf8 : exception :=
  Exception 316 "incomplete UTF-8 string".

(** The bytes after a lead byte: what follows them, or the failure. *)
Fixpoint follow (ranges : list (N * N)) (s : string) : result string :=
  match ranges with
  | [] => Ok s
  | (lo, hi) :: ranges' =>
      match s with
      | String c s' =>
          let n := N_of_ascii c in
          if ((lo <=? n) && (n <=? hi))%N then follow ranges' s'
          else Throw invalid_utf8
      | "" => Throw incomplete_utf8
      end
  end.

Fixpoint utf8_error (fuel : nat) (s : string) : option exception :=
  match fuel, s with
  | S fuel', String c r =>
      let n := N_of_ascii c in
      if (n <? 128)%N then utf8_error fuel' r
      else
        match continuation n with
        | None => Some invalid_utf8
        | Some ranges =>
            match follow ranges r with
            | Ok rest => utf8_error fuel' rest
            | Throw e => Some e
            end
        end
  | _, _ => None
  end.

Definition string_error (s : string) : option exception :=
  utf8_error (String.length s) s.

(** The exception [dump] raises on [j]: that of the first string, key or
    value, that is not UTF-8, in the order [dump] writes them. *)
Fixpoint dump_error (j : json) : option exception :=
  match j with
  | JString s => string_error s
  | JArray items =>
      fold_right (λ v later, match dump_error v with Some e => Some e | None => later end)
                 None items
  | JObject members =>
      fold_right
        (λ kv later,
           match string_error kv.1 with
           | Some e => Some e
           | None => match dump_error kv.2 with Some e => Some e | None => later end
           end)
        None members
  | _ => None
  end.

(** Floating-point numbers are outside the model: their conversion is a
    fixed value that no evaluation below reaches. *)
Global Instance lib : JsonLib := {|
  Json.parse := parse;
  Json.parse_stream := parse_stream;
  Json.dump := λ indent j, dump_value indent 0 j;
  Json.dump_error := dump_error;
  Json.float_to_int := λ _, 0
|}.

End NlohmannModel.

(** ** The remote client and its session store ([src/GeminiClient.cpp]) *)

Module GeminiResponse.
Record t : Type := mk { content : string; success : bool; error : string }.
End GeminiResponse.

Module SmartResponse.
Inductive Type_ : Type := EXECUTE | EXPLAIN | ERROR.

(** [type] is [None] as long as the field was never assigned: the
    constructor leaves the enumeration indeterminate. *)
Record t : Type := mk {
  type : option Type_;
  command : string;
  explanation : string;
  error : string;
  success : bool
}.

(** [SmartResponse result;] *)
Definition fresh : t := mk None "" "" "" false.

Definition set_type (v : Type_) (r : t) : t :=
  mk (Some v) (command r) (explanation r) (error r) (success r).
Definition set_command (v : string) (r : t) : t :=
  mk (type r) v (explanation r) (error r) (success r).
Definition set_explanation (v : string) (r : t) : t :=
  mk (type r) (command r) v (error r) (success r).
Definition set_error (v : string) (r : t) : t :=
  mk (type r) (command r) (explanation r) v (success r).
Definition set_success (v : bool) (r : t) : t :=
  mk (type r) (command r) (explanation r) (error r) v.
End SmartResponse.

Module GeminiClient.
Import Json.

Definition GEMINI_API_BASE : string := "generativelanguage.googleapis.com".
Definition DEFAULT_MODEL : string := "gemini-3-flash-preview".
Definition DEFAULT_LANGUAGE : string := "en-us".
Definition MAX_HISTORY_TURNS : nat := 10.

Definition NL : string := Str.of_char Str.nl.

(** [home] is the value of the environment variable [HOME], if set. *)
Definition getSessionDir (home : option string) : string :=
  match home with
  | None => ""
  | Some h => h +:+ "/.tt"
  end.

(** The fields of [GeminiClient::Impl] that are data.  [history] is always
    a JSON array; it is kept as the list of its elements. *)
Record Impl : Type := mkImpl {
  api_key : string;
  model : string;
  language : string;
  session_path : string;
  history : list json
}.

Definition set_history (h : list json) (i : Impl) : Impl :=
  mkImpl (api_key i) (model i) (language i) (session_path i) h.

(** One POST and its outcome: no answer at all, or a status and a body. *)
Record request : Type := mkRequest { req_path : string; req_body : string }.

Inductive http_result : Type :=
| NetError (err : string)
| Response (status : Z) (body : string).

(** What the client owns and touches: its own fields, the files (path to
    content), and the requests sent so far. *)
Record State : Type := mkState {
  impl : Impl;
  files : gmap string string;
  sent : list request
}.

Definition set_impl (i : Impl) (st : State) : State :=
  mkState i (files st) (sent st).

(** What the file system lets the process do with the file at a path.
    [opens path]: [std::ofstream file(path)] opens, the file being created
    when it was not there and emptied when it was; a stream that does not
    open takes what is written to it without a sign.  [chmod path]: the
    exception [std::filesystem::permissions] throws on the file at [path],
    if any.  [missing path]: the exception it throws where no file is. *)
Class FileSystem : Type := {
  opens : string → bool;
  chmod : string → option exception;
  missing : string → exception
}.

(** A call that may end with an exception: the state it leaves, and the
    exception that leaves it, if any. *)
Record outcome : Type := mkOutcome {
  after :> State;
  raised : option exception
}.

(** [first; next], where an exception of [first] leaves at once. *)
Definition and_then (first : outcome) (next : State → outcome) : outcome :=
  match raised first with
  | Some _ => first
  | None => next first
  end.

Section WithLibrary.
Context `{JsonLib} `{FileSystem}.

(** [try { body } catch (...) { handler }] *)
Definition try_catch {A : Type} (body : result A) (handler : exception → result A)
  : result A :=
  match body with
  | Ok a => Ok a
  | Throw e => handler e
  end.

(** [Impl::loadSession]: the history read from [files]. *)
Definition loadSession (fs : gmap string string) (path : string)
  : result (list json) :=
  let history := [] in
  if Str.is_empty path then mret history
  else
    match fs !! path with
    | Some text =>
        try_catch
          (j ← parse_stream text;
           match j with
           | JArray items => mret items
           | _ => mret []
           end)
          (λ _, mret [])
    | None => mret history
    end.

(** The loop of [Impl::saveSession]: while more than [2 * MAX_HISTORY_TURNS]
    elements are stored, erase the first element twice. *)
Fixpoint trim (h : list json) : list json :=
  match h with
  | _ :: _ :: h' =>
      if (MAX_HISTORY_TURNS * 2 <? length h)%nat then trim h' else h
  | _ => h
  end.

(** [Impl::saveSession].  The stream is opened, which empties the file,
    before [dump] runs; [dump] runs whether the stream opened or not; the
    mode is changed last, on a file that may not be there. *)
Definition saveSession (st : State) : outcome :=
  let path := session_path (impl st) in
  if Str.is_empty path then mkOutcome st None
  else
    let h := trim (history (impl st)) in
    let i := set_history h (impl st) in
    let write (text : string) :=
      if opens path then <[path := text]> (files st) else files st in
    match dump_error (JArray h) with
    | Some e => mkOutcome (mkState i (write "") (sent st)) (Some e)
    | None =>
        let written := write (dump (Some 2%nat) (JArray h)) in
        mkOutcome (mkState i written (sent st))
          (match written !! path with
           | Some _ => chmod path
           | None => Some (missing path)
           end)
    end.

(** [Impl::addToHistory] *)
Definition addToHistory (role text : string) (st : State) : outcome :=
  if Str.is_empty (session_path (impl st)) then mkOutcome st None
  else
    saveSession
      (set_impl (set_history (history (impl st) ++ [turn role text]) (impl st)) st).

(** The constructor of [Impl]: [files] is the file system it finds. *)
Definition new_Impl (key model_name lang session_name : string)
    (home : option string) (fs : gmap string string) : result Impl :=
  let path :=
    if Str.is_empty session_name then ""
    else
      let dir := getSessionDir home in
      if Str.is_empty dir then "" else dir +:+ "/" +:+ session_name +:+ ".json" in
  h ← loadSession fs path;
  mret (mkImpl key
          (if Str.is_empty model_name then DEFAULT_MODEL else model_name)
          (if Str.is_empty lang then DEFAULT_LANGUAGE else lang)
          path h).

Definition getLanguageInstruction (i : Impl) : string :=
  let l := language i in
  if String.eqb l "en-us" || String.eqb l "en" then "Respond in English."
  else if String.eqb l "pt-br" || String.eqb l "pt" then
    "Respond in Portuguese (Brazilian)."
  else if String.eqb l "es" || String.eqb l "es-es" then "Respond in Spanish."
  else "Respond in " +:+ l +:+ ".".

Definition buildEndpoint (i : Impl) : string :=
  "/v1beta/models/" +:+ model i +:+ ":generateContent?key=" +:+ api_key i.

(** The error text of a reply whose status is not 200. *)
Definition api_error (status : Z) (body : string) : string :=
  let base := "API error: HTTP " +:+ pretty status in
  match
    (error_json ← parse body;
     if contains error_json "error" then
       e ← at_key error_json "error";
       m ← at_key e "message";
       msg ← get_string m;
       mret (base +:+ " - " +:+ msg)
     else mret base)
  with
  | Ok text => text
  | Throw _ => base
  end.

(** The reply text of a body with status 200: [Ok (Some text)] when the
    guard holds, [Ok None] when it does not, [Throw] when the library
    raises on the way. *)
Definition reply_text (body : string) : result (option string) :=
  res_json ← parse body;
  ok ← has_candidate_text res_json;
  if ok : bool then text ← candidate_text res_json; mret (Some text)
  else mret None.

(** Whether a request takes part in the session: [use_history] and a
    session path. *)
Definition active (use_history : bool) (i : Impl) : bool :=
  use_history && negb (Str.is_empty (session_path i)).

(** The POST that [sendRequest] issues. *)
Definition build_request (i : Impl) (prompt : string) (use_history : bool) : request :=
  let contents :=
    (if active use_history i && negb (bool_decide (history i = []))
     then history i else [])
    ++ [turn "user" prompt] in
  let request_body := object [("contents", JArray contents)] in
  mkRequest (buildEndpoint i) (dump None request_body).

(** [Impl::sendRequest].  [post] is the remote end.  The session is saved
    inside the [try]: an exception of [saveSession] reaches the [catch]
    after the reply text was assigned and both turns were pushed. *)
Definition sendRequest (post : request → http_result)
    (prompt : string) (use_history : bool) (st : State)
  : GeminiResponse.t * State :=
  let i := impl st in
  let req := build_request i prompt use_history in
  let st1 := mkState i (files st) (sent st ++ [req]) in
  match post req with
  | NetError err =>
      (GeminiResponse.mk "" false ("Network error: " +:+ err), st1)
  | Response status body =>
      if negb (status =? 200) then
        (GeminiResponse.mk "" false (api_error status body), st1)
      else
        match reply_text body with
        | Ok (Some text) =>
            if active use_history i then
              let saved :=
                saveSession
                  (set_impl
                     (set_history
                        (history i ++ [turn "user" prompt; turn "model" text]) i)
                     st1) in
              match raised saved with
              | None => (GeminiResponse.mk text true "", after saved)
              | Some e =>
                  (GeminiResponse.mk text false ("JSON parse error: " +:+ what e),
                   after saved)
              end
            else (GeminiResponse.mk text true "", st1)
        | Ok None =>
            (GeminiResponse.mk "" false "Invalid response structure", st1)
        | Throw e =>
            (GeminiResponse.mk "" false ("JSON parse error: " +:+ what e), st1)
        end
  end.

(** [GeminiClient::generateContent] *)
Definition generateContent (post : request → http_result) (prompt : string)
    (st : State) : GeminiResponse.t * State :=
  sendRequest post prompt true st.

(** [GeminiClient::validate].  [error_message] is the string the caller
    passes by reference; the result holds its value on return. *)
Definition validate (post : request → http_result) (error_message : string)
    (st : State) : (bool * string) * State :=
  let '(response, st') := sendRequest post "Respond with only the word OK" false st in
  if negb (GeminiResponse.success response)
  then ((false, GeminiResponse.error response), st')
  else ((true, error_message), st').

(** [GeminiClient::addCommandOutput] *)
Definition addCommandOutput (command output : string) (st : State) : outcome :=
  let context := "I executed: " +:+ command +:+ NL +:+ NL +:+ "Output:" +:+ NL +:+ output in
  and_then (addToHistory "user" context st)
    (addToHistory "model" "Got it. I'll remember this output for context.").

(** The token count of a body with status 200. *)
Definition token_count (body : string) : result (option Z) :=
  json_res ← parse body;
  if contains json_res "totalTokens" then
    v ← at_key json_res "totalTokens";
    n ← get_int v;
    mret (Some n)
  else mret None.

(** The POST that [countSessionTokens] issues. *)
Definition count_request (i : Impl) : request :=
  let request_body := object [("contents", JArray (history i))] in
  let path := "/v1beta/models/" +:+ model i +:+ ":countTokens?key=" +:+ api_key i in
  mkRequest path (dump None request_body).

(** [GeminiClient::countSessionTokens] *)
Definition countSessionTokens (post : request → http_result) (st : State)
  : Z * State :=
  let i := impl st in
  if Str.is_empty (session_path i) || bool_decide (history i = []) then (0, st)
  else
    let req := count_request i in
    let st1 := mkState i (files st) (sent st ++ [req]) in
    match post req with
    | NetError _ => (-1, st1)
    | Response status body =>
        if negb (status =? 200) then (-1, st1)
        else
          match token_count body with
          | Ok (Some n) => (n, st1)
          | Ok None => (-1, st1)
          | Throw _ => (-1, st1)
          end
    end.

(** *** Intent classification *)

(** Code that assigns fields of the [SmartResponse] under construction
    and may raise: an exception keeps the assignments made before it. *)
Definition Update (A : Type) : Type :=
  SmartResponse.t → SmartResponse.t * result A.

Global Instance update_ret : MRet Update := λ A a r, (r, Ok a).
Global Instance update_bind : MBind Update := λ A B f m r,
  match m r with
  | (r', Ok a) => f a r'
  | (r', Throw e) => (r', Throw e)
  end.

Definition lift {A : Type} (x : result A) : Update A := λ r, (r, x).
Definition assign (f : SmartResponse.t → SmartResponse.t) : Update unit :=
  λ r, (f r, Ok ()).

(** The prompt [smartQuery] and [smartQueryStreaming] both build. *)
Definition smart_prompt (i : Impl) (query : string) : string :=
  "User request: " +:+ query +:+ NL +:+ NL
  +:+ "Analyze the request:" +:+ NL
  +:+ "1. EXECUTE: If user wants to DO something with the system (find files, list processes, check disk, etc.)" +:+ NL
  +:+ "2. EXPLAIN: For greetings, questions about concepts, explanations (hi, hello, why, what is, how does X work)" +:+ NL +:+ NL
  +:+ "Greetings like 'hi', 'hello', 'ola' are ALWAYS type explain." +:+ NL
  +:+ "Only use execute if the user clearly wants to run a shell command." +:+ NL +:+ NL
  +:+ "Respond with ONLY valid JSON:" +:+ NL
  +:+ Str.quoted "Execute: {'type':'execute','command':'shell command','explanation':'1-line plain text explanation'}" +:+ NL
  +:+ Str.quoted "Explain: {'type':'explain','response':'plain text response'}" +:+ NL +:+ NL
  +:+ "CRITICAL: No markdown, no backticks, no asterisks, no formatting. Plain text only." +:+ NL
  +:+ getLanguageInstruction i.

(** The text from the first [{] to the last [}], when the last [}] comes
    after the first [{]. *)
Definition json_span (content : string) : option string :=
  match Str.find_char "{" content, Str.rfind_char "}" content with
  | Some start, Some end_ =>
      if (start <? end_)%nat
      then Some (Str.substr start (end_ - start + 1) content)
      else None
  | _, _ => None
  end.

(** The [try] block of [smartQuery], from the parse on. *)
Definition smartQuery_try (content : string) : Update unit :=
  json_response ← lift (parse content);
  type ← lift (t ← at_key json_response "type"; get_string t);
  if String.eqb type "execute" then
    assign (SmartResponse.set_type SmartResponse.EXECUTE);;
    cmd ← lift (c ← at_key json_response "command"; get_string c);
    assign (SmartResponse.set_command cmd);;
    (if contains json_response "explanation" then
       e ← lift (x ← at_key json_response "explanation"; get_string x);
       assign (SmartResponse.set_explanation e)
     else mret ());;
    assign (SmartResponse.set_success true)
  else if String.eqb type "explain" then
    assign (SmartResponse.set_type SmartResponse.EXPLAIN);;
    e ← lift (x ← at_key json_response "response"; get_string x);
    assign (SmartResponse.set_explanation e);;
    assign (SmartResponse.set_success true)
  else
    assign (SmartResponse.set_type SmartResponse.ERROR);;
    assign (SmartResponse.set_error ("Unknown response type: " +:+ type)).

(** The [catch] block of both classifiers. *)
Definition explain_fallback (raw : string) (r : SmartResponse.t) : SmartResponse.t :=
  SmartResponse.set_success true
    (SmartResponse.set_explanation raw
       (SmartResponse.set_type SmartResponse.EXPLAIN r)).

(** [smartQuery] after a successful request: from "Parse JSON response"
    to the [return]. *)
Definition smartQuery_classify (response_content : string) (result : SmartResponse.t)
  : SmartResponse.t :=
  let content := default response_content (json_span response_content) in
  match smartQuery_try content result with
  | (r, Ok _) => r
  | (r, Throw _) => explain_fallback response_content r
  end.

(** [GeminiClient::smartQuery] *)
Definition smartQuery (post : request → http_result) (query : string) (st : State)
  : SmartResponse.t * State :=
  let result := SmartResponse.set_success false SmartResponse.fresh in
  let '(response, st') := sendRequest post (smart_prompt (impl st) query) true st in
  if negb (GeminiResponse.success response) then
    (SmartResponse.set_error (GeminiResponse.error response)
       (SmartResponse.set_type SmartResponse.ERROR result), st')
  else (smartQuery_classify (GeminiResponse.content response) result, st').

(** *** The streaming decoder *)

(** [CurlStreamContext].  [callback] tells whether a chunk sink is
    installed; what the sink receives is the list [delivered] that the
    decoder threads beside the context. *)
Record CurlStreamContext : Type := mkCtx {
  buffer : string;
  accumulated : string;
  callback : bool;
  type_determined : bool;
  ctx_type : string
}.

Definition new_ctx (has_callback : bool) : CurlStreamContext :=
  mkCtx "" "" has_callback false "".

(** What one line of the event stream does to the accumulator and the
    sink. *)
Definition handle_line (line0 : string) (acc : string * list string) (cb : bool)
  : string * list string :=
  let line :=
    if negb (Str.is_empty line0) && bool_decide (Str.back line0 = Some Str.cr)
    then Str.pop_back line0 else line0 in
  if Str.starts_with "data: " line then
    let json_str := Str.substr_from 6 line in
    match reply_text json_str with
    | Ok (Some chunk) =>
        (acc.1 +:+ chunk, if cb then acc.2 ++ [chunk] else acc.2)
    | Ok None => acc
    | Throw _ => acc
    end
  else acc.

(** The [while] loop of [curlWriteCallback]; every round removes at least
    one byte from the buffer, so [fuel] above the buffer length is never
    used up. *)
Fixpoint sse_loop (fuel : nat) (ctx : CurlStreamContext) (delivered : list string)
  : CurlStreamContext * list string :=
  match fuel with
  | O => (ctx, delivered)
  | S fuel' =>
      match Str.find NL (buffer ctx) with
      | None => (ctx, delivered)
      | Some pos =>
          let line := Str.substr 0 pos (buffer ctx) in
          let buffer' := Str.erase 0 (pos + 1) (buffer ctx) in
          let '(acc', delivered') :=
            handle_line line (accumulated ctx, delivered) (callback ctx) in
          sse_loop fuel'
            (mkCtx buffer' acc' (callback ctx) (type_determined ctx) (ctx_type ctx))
            delivered'
      end
  end.

(** [curlWriteCallback(ptr, size, nmemb, userdata)]: [data] is the
    [size * nmemb] bytes at [ptr]; the first component is the value
    returned. *)
Definition curlWriteCallback (data : string) (ctx : CurlStreamContext)
    (delivered : list string) : nat * (CurlStreamContext * list string) :=
  let total := String.length data in
  let ctx0 := mkCtx (buffer ctx +:+ data) (accumulated ctx) (callback ctx)
                    (type_determined ctx) (ctx_type ctx) in
  (total, sse_loop (S (String.length (buffer ctx0))) ctx0 delivered).

(** A transfer as the HTTP library performs it: the successive writes it
    hands to the callback and the code it ends with. *)
Inductive CURLcode : Type :=
| CURLE_OK
| CURLE_failed (strerror : string).

Definition perform (writes : list string) (ctx : CurlStreamContext)
    (delivered : list string) : CurlStreamContext * list string :=
  fold_left (λ cd data, (curlWriteCallback data cd.1 cd.2).2) writes (ctx, delivered).

(** The [try] block of [smartQueryStreaming], inside its [if]. *)
Definition smartQueryStreaming_try (json_content : string) : Update unit :=
  json_response ← lift (parse json_content);
  type ← lift (t ← at_key json_response "type"; get_string t);
  if String.eqb type "execute" then
    assign (SmartResponse.set_type SmartResponse.EXECUTE);;
    cmd ← lift (c ← at_key json_response "command"; get_string c);
    assign (SmartResponse.set_command cmd);;
    (if contains json_response "explanation" then
       e ← lift (x ← at_key json_response "explanation"; get_string x);
       assign (SmartResponse.set_explanation e)
     else mret ());;
    assign (SmartResponse.set_success true)
  else if String.eqb type "explain" then
    assign (SmartResponse.set_type SmartResponse.EXPLAIN);;
    e ← lift (x ← at_key json_response "response"; get_string x);
    assign (SmartResponse.set_explanation e);;
    assign (SmartResponse.set_success true)
  else mret ().

(** [smartQueryStreaming] after the transfer: from "Parse the accumulated
    JSON response" to the [return]. *)
Definition smartQueryStreaming_classify (accumulated_text : string)
    (result : SmartResponse.t) : SmartResponse.t :=
  let body : Update unit :=
    match json_span accumulated_text with
    | Some json_content => smartQueryStreaming_try json_content
    | None => mret ()
    end in
  match body result with
  | (r, Ok _) => r
  | (r, Throw _) => explain_fallback accumulated_text r
  end.

Definition stream_url (i : Impl) : string :=
  "https://generativelanguage.googleapis.com/v1beta/models/" +:+ model i
  +:+ ":streamGenerateContent?alt=sse&key=" +:+ api_key i.

(** [GeminiClient::smartQueryStreaming].  [curl] is [None] when the
    transfer handle cannot be created; otherwise it answers a request
    with the writes and the final code.  [on_chunk] tells whether the
    caller passed a sink; the second component is what the sink got. *)
Definition smartQueryStreaming
    (curl : option (request → list string * CURLcode))
    (query : string) (on_chunk : bool) (st : State)
  : (SmartResponse.t * list string) * State :=
  let i := impl st in
  let result := SmartResponse.set_success false SmartResponse.fresh in
  let contents :=
    (if negb (Str.is_empty (session_path i)) && negb (bool_decide (history i = []))
     then history i else [])
    ++ [turn "user" (smart_prompt i query)] in
  let request_body := object [("contents", JArray contents)] in
  let req := mkRequest (stream_url i) (dump None request_body) in
  match curl with
  | None =>
      ((SmartResponse.set_error "Failed to initialize curl"
          (SmartResponse.set_type SmartResponse.ERROR result), []), st)
  | Some transfer =>
      let st1 := mkState i (files st) (sent st ++ [req]) in
      let '(writes, res) := transfer req in
      let '(ctx, delivered) := perform writes (new_ctx on_chunk) [] in
      match res with
      | CURLE_failed msg =>
          ((SmartResponse.set_error ("Curl error: " +:+ msg)
              (SmartResponse.set_type SmartResponse.ERROR result), delivered), st1)
      | CURLE_OK =>
          ((smartQueryStreaming_classify (accumulated ctx) result, delivered), st1)
      end
  end.


End WithLibrary.

End GeminiClient.

(** ** Danger classifier of the execution path ([src/main.cpp]) *)

Module Danger.

Definition DANGEROUS_COMMANDS : list string :=
  [ "rm"; "rmdir"; "unlink"; "shred";
    "shutdown"; "reboot"; "poweroff"; "halt"; "init";
    "mkfs"; "fdisk"; "parted"; "dd"; "format"; "mkswap";
    "apt-get remove"; "apt remove"; "apt-get purge"; "apt purge";
    "yum remove"; "dnf remove"; "pacman -R";
    "chmod 777"; "chmod -R"; "chown -R"; "chgrp -R";
    "iptables -F"; "ufw disable";
    "kill -9"; "killall"; "pkill";
    ":(){"; "fork bomb";
    "userdel"; "deluser"; "passwd";
    "sudo" ].

Definition DANGEROUS_PATTERNS : list string :=
  [ "> /dev/"; ">/dev/"; "> /etc/"; ">/etc/"; "> /boot/"; ">/boot/";
    "| rm"; "|rm"; "| dd"; "|dd";
    "rf /"; "rf ~/"; "rf ~"; "rf ."; "mv /* "; "mv / ";
    "> /"; "| tee /"; "|tee /"; "chmod 000"; ":(){ :";
    "/dev/null >"; "/dev/zero"; "/dev/random" ].

(** The body of the first loop for one entry of the list: the entry at the
    start of the command, after a pipe, or after [sudo ]. *)
Definition command_rule (lower_cmd dangerous : string) : bool :=
  bool_decide (Str.find dangerous lower_cmd = Some 0%nat)
  || Str.contains ("| " +:+ dangerous) lower_cmd
  || Str.contains ("|" +:+ dangerous) lower_cmd
  || Str.contains ("sudo " +:+ dangerous) lower_cmd.

Definition pattern_rule (lower_cmd pattern : string) : bool :=
  Str.contains pattern lower_cmd.

Definition isDangerousCommand (cmd : string) : bool :=
  let lower_cmd := Str.map Str.tolower cmd in
  existsb (command_rule lower_cmd) DANGEROUS_COMMANDS
  || existsb (pattern_rule lower_cmd) DANGEROUS_PATTERNS.

End Danger.

(** ** The what-if simulator ([src/Simulator.cpp]) *)

Module Simulator.

(** The patterns the constructor installs.  They are compared with the
    lower-cased command as plain substrings. *)
Definition dangerous_patterns_ : list string :=
  [ "rm -rf"; "rm -r /"; "rm -rf /"; "rm -rf ~"; "rm -rf *";
    "> /dev/sda"; "dd if="; "mkfs."; ":(){:|:&};:";
    "chmod -R 777 /"; "chown -R"; "sudo rm"; "mv /* ";
    "wget.*|.*sh"; "curl.*|.*bash" ].

Definition dangerous_with_sudo : list string :=
  [ "rm"; "dd"; "mkfs"; "chmod"; "chown"; "mv"; "cp" ].

(** The first loop: a pattern occurs in the lower-cased command. *)
Definition pattern_rule (lower : string) : bool :=
  existsb (λ pattern, Str.contains pattern lower) dangerous_patterns_.

(** The second check: [sudo] together with a modifying command. *)
Definition sudo_rule (lower : string) : bool :=
  Str.contains "sudo" lower
  && existsb (λ cmd, Str.contains cmd lower) dangerous_with_sudo.

Definition isDangerous (command : string) : bool :=
  let lower := Str.map Str.tolower command in
  pattern_rule lower || sudo_rule lower.

Record SimulationResult : Type := mkResult {
  predicted_output : string;
  files_affected : list string;
  warnings : list string;
  is_destructive : bool
}.

(** The two [erase] calls that trim blanks and tabs around a file name. *)
Definition trim_blanks (file : string) : string :=
  let file1 :=
    match Str.find_first_not_of (String " " (Str.of_char Str.tab)) file with
    | Some n => Str.drop n file
    | None => ""
    end in
  match Str.find_last_not_of (String " " (Str.of_char Str.tab)) file1 with
  | Some i => Str.take (i + 1) file1
  | None => Str.take 0 file1
  end.

(** The files one line of the reply names. *)
Definition files_of_line (line : string) : list string :=
  if Str.contains "ARQUIVOS_AFETADOS:" line then
    match Str.find ":" line with
    | Some pos =>
        let files := Str.substr_from (pos + 1) line in
        filter (λ file, Str.is_empty file = false)
               (List.map trim_blanks (Str.getlines "," files))
    | None => []
    end
  else [].

(** A line of the reply that rates the command as highly destructive. *)
Definition high_line (line : string) : bool :=
  Str.contains "NIVEL_DESTRUTIVIDADE: ALTO" line.

(** The body of the [while (std::getline(iss, line))] loop. *)
Definition scan_line (r : SimulationResult) (line : string) : SimulationResult :=
  mkResult (predicted_output r)
           (files_affected r ++ files_of_line line)
           (warnings r)
           (if high_line line then true else is_destructive r).

Definition immediate_warnings (command : string) (destructive : bool) : list string :=
  (if destructive then ["ATENCAO: Este comando e potencialmente destrutivo!"] else [])
  ++ (if Str.contains "rm" command then
        (if Str.contains "-rf" command || Str.contains "-r" command
         then ["Este comando remove arquivos/diretorios recursivamente."] else [])
        ++ (if Str.contains "*" command
            then ["O uso de wildcard (*) pode afetar mais arquivos do que o esperado."]
            else [])
      else [])
  ++ (if Str.contains "chmod" command && Str.contains "777" command
      then ["chmod 777 remove todas as restricoes de seguranca do arquivo."] else []).

Definition simulate_prompt (command : string) : string :=
  let NL := GeminiClient.NL in
  "Voce e um simulador de comandos Linux. Preveja o que aconteceria se o seguinte comando fosse executado." +:+ NL +:+ NL
  +:+ "Comando: " +:+ command +:+ NL +:+ NL
  +:+ "Responda em formato estruturado:" +:+ NL
  +:+ "ARQUIVOS_AFETADOS: (liste arquivos/diretorios que seriam modificados, criados ou deletados)" +:+ NL
  +:+ "SAIDA_ESPERADA: (o que apareceria no terminal)" +:+ NL
  +:+ "RISCOS: (possiveis problemas ou efeitos colaterais)" +:+ NL
  +:+ "NIVEL_DESTRUTIVIDADE: (BAIXO, MEDIO, ALTO)" +:+ NL +:+ NL
  +:+ "Responda em Portugues (Brasil). Seja preciso e tecnico.".

(** What [simulate] does with the response of the client. *)
Definition absorb (response : GeminiResponse.t) (r : SimulationResult)
  : SimulationResult :=
  if GeminiResponse.success response then
    fold_left scan_line
      (Str.getlines Str.nl (GeminiResponse.content response))
      (mkResult (GeminiResponse.content response) (files_affected r)
                (warnings r) (is_destructive r))
  else
    mkResult ("Erro ao simular comando: " +:+ GeminiResponse.error response)
             (files_affected r) (warnings r) (is_destructive r).

(** [Simulator::simulate] *)
Definition simulate `{Json.JsonLib} `{GeminiClient.FileSystem}
    (post : GeminiClient.request → GeminiClient.http_result)
    (command : string) (st : GeminiClient.State)
  : SimulationResult * GeminiClient.State :=
  let destructive := isDangerous command in
  let result := mkResult "" [] (immediate_warnings command destructive) destructive in
  let '(response, st') :=
    GeminiClient.generateContent post (simulate_prompt command) st in
  (absorb response result, st').

End Simulator.

(** ** The command executor ([src/main.cpp]) *)

Module Executor.

(** The wait-status macros of [<sys/wait.h>] on Linux. *)
Definition WIFEXITED (status : Z) : bool := Z.land status 127 =? 0.
Definition WEXITSTATUS (status : Z) : Z := Z.shiftr (Z.land status 65280) 8.

(** The status [pclose] reports for a child that exited with [code]. *)
Definition exited_with (code : Z) : Z := Z.shiftl code 8.

(** A child run through a pipe: the successive strings [fgets] returns and
    the value of [pclose]. *)
Record child : Type := mkChild { reads : list string; pclose_status : Z }.

Definition CEILING : nat := 2000.
Definition MARKER : string := String Str.nl "... [output truncated]".

(** [executeAndCapture].  [popen] answers the shell command line with the
    child it started, or [None] when no pipe could be opened.  The result
    is the pair the function returns and what it printed meanwhile. *)
Definition executeAndCapture (popen : string → option child) (command : string)
  : (Z * string) * list string :=
  let cmd := command +:+ " 2>&1" in
  match popen cmd with
  | None => ((-1, "Failed to execute command"), [])
  | Some pipe =>
      let output := Str.concat (reads pipe) in
      let status := pclose_status pipe in
      let exit_code := if WIFEXITED status then WEXITSTATUS status else -1 in
      let output' :=
        if (CEILING <? String.length output)%nat
        then Str.substr 0 CEILING output +:+ MARKER
        else output in
      ((exit_code, output'), reads pipe)
  end.

End Executor.

(** ** What the specification asks of the session store *)

Module Spec.
Import Json GeminiClient.

(** [stored] is what stays of [old ++ new] after an append: at most
    [2 * MAX_HISTORY_TURNS] elements, obtained by dropping whole pairs from
    the front, none when the bound already holds, and no more than needed. *)
Definition bounded_recent (old new stored : list json) : Prop :=
  (length stored ≤ 2 * MAX_HISTORY_TURNS)%nat
  ∧ (∃ k : nat, stored = drop (2 * k) (old ++ new))
  ∧ ((length (old ++ new) ≤ 2 * MAX_HISTORY_TURNS)%nat → stored = old ++ new)
  ∧ ((2 * MAX_HISTORY_TURNS < length (old ++ new))%nat →
       (2 * MAX_HISTORY_TURNS - 1 ≤ length stored)%nat).

(** The session file holds the history of the client. *)
Definition persisted `{JsonLib} (st : State) : Prop :=
  files st !! session_path (impl st)
  = Some (dump (Some 2%nat) (JArray (history (impl st)))).

(** What a save of the client [i] leaves in its session file, [before]
    being the files it found: the history where the stream opened and
    [dump] returned, an empty file where the stream opened and [dump]
    raised, and what was there where the stream did not open. *)
Definition session_file_after `{JsonLib} `{FileSystem}
    (before : gmap string string) (i : Impl) : option string :=
  if opens (session_path i) then
    Some (match dump_error (JArray (history i)) with
          | None => dump (Some 2%nat) (JArray (history i))
          | Some _ => ""
          end)
  else before !! session_path i.

(** The exception that save ends with, if any: that of [dump], or that of
    the change of mode. *)
Definition save_error `{JsonLib} `{FileSystem}
    (before : gmap string string) (i : Impl) : option exception :=
  match dump_error (JArray (history i)) with
  | Some e => Some e
  | None =>
      match session_file_after before i with
      | Some _ => chmod (session_path i)
      | None => Some (missing (session_path i))
      end
  end.

(** The outcomes of a POST after which [sendRequest] reports an error. *)
Definition failed `{JsonLib} (out : http_result) : bool :=
  match out with
  | NetError _ => true
  | Response status body =>
      negb (status =? 200)
      || match reply_text body with
         | Ok (Some _) => false
         | Ok None => true
         | Throw _ => true
         end
  end.

(** The result that carries the whole raw reply as an explanation. *)
Definition explained (raw : string) : SmartResponse.t :=
  SmartResponse.mk (Some SmartResponse.EXPLAIN) "" raw "" true.

(** The result [smartQuery] and [smartQueryStreaming] start from. *)
Definition unset : SmartResponse.t :=
  SmartResponse.set_success false SmartResponse.fresh.

(** The [type] member of a parsed reply, read as a string. *)
Definition type_of (j : json) : result string :=
  t ← at_key j "type"; get_string t.

(** The text of one line of the event stream, as the specification reads
    it: a carriage return at the end is dropped, the line has to start with
    the marker, and what follows it has to be a JSON fragment with the
    incremental text; any other line yields nothing. *)
Definition decode_line `{JsonLib} (line0 : string) : option string :=
  let line :=
    match Str.back line0 with
    | Some c => if Ascii.eqb c Str.cr then Str.pop_back line0 else line0
    | None => line0
    end in
  if Str.starts_with "data: " line then
    match reply_text (Str.drop 6 line) with
    | Ok (Some chunk) => Some chunk
    | Ok None => None
    | Throw _ => None
    end
  else None.

(** The texts of the complete lines of a byte sequence, in the order of the
    lines; [cur] is the part of the current line already seen. *)
Fixpoint chunks_of `{JsonLib} (s cur : string) : list string :=
  match s with
  | "" => []
  | String c s' =>
      if Ascii.eqb c Str.nl
      then option_list (decode_line cur) ++ chunks_of s' ""
      else chunks_of s' (cur +:+ Str.of_char c)
  end.

(** What is left of a byte sequence after its last complete line. *)
Fixpoint pending (s cur : string) : string :=
  match s with
  | "" => cur
  | String c s' =>
      if Ascii.eqb c Str.nl then pending s' "" else pending s' (cur +:+ Str.of_char c)
  end.

End Spec.

(** ** Concrete inputs *)

Module Samples.
Import Json GeminiClient.

Definition persistent_impl (h : list json) : Impl :=
  mkImpl "key" DEFAULT_MODEL DEFAULT_LANGUAGE "/home/u/.tt/proj.json" h.

Definition ephemeral_impl : Impl :=
  mkImpl "key" DEFAULT_MODEL DEFAULT_LANGUAGE "" [].

(** A session of twenty turns, not yet written to its file. *)
Definition full_session : State :=
  mkState
    (persistent_impl
       (List.map (λ n : nat, turn (if Nat.even n then "user" else "model") (pretty n))
                 (seq 0 20)))
    ∅ [].

Definition ephemeral : State := mkState ephemeral_impl ∅ [].

(** The body of a reply with status 200 whose text is [text], a text
    without characters that JSON escapes. *)
Definition reply_body (text : string) : string :=
  Str.quoted "{'candidates':[{'content':{'parts':[{'text':'"
  +:+ text +:+ Str.quoted "'}]}}]}".

(** A remote end that answers every request with the reply [text]. *)
Definition replies (text : string) : request → http_result :=
  λ _, Response 200 (reply_body text).


(** A shell that prints 300 lines of ten bytes and exits with 3, seen
    through the pipe. *)
Definition long_child : Executor.child :=
  Executor.mkChild (replicate 300 ("yyyyyyyyy" +:+ Str.of_char Str.nl))
                   (Executor.exited_with 3).

(** An event stream: two fragments, the first with carriage returns, then
    a line without the marker and a fragment that is cut short. *)
Definition sse_bytes : string :=
  "data: " +:+ reply_body "Hel" +:+ Str.of_char Str.cr +:+ NL
  +:+ Str.of_char Str.cr +:+ NL
  +:+ "data: " +:+ reply_body "lo" +:+ NL +:+ NL
  +:+ ": keep-alive" +:+ NL
  +:+ Str.quoted "data: {'candidates':[{'content'" +:+ NL
  +:+ "data: " +:+ reply_body "!".

(** A transfer that delivers [text] as one event and ends well. *)
Definition streams (text : string) : request → list string * CURLcode :=
  λ _, (["data: " +:+ reply_body text +:+ NL; NL], CURLE_OK).

(** The state of a session with one exchange. *)
Definition short_session : State :=
  mkState (persistent_impl [turn "user" "hi"; turn "model" "hello"]) ∅ [].

Definition session_file : string := "/home/u/.tt/proj.json".

(** A file system in which the files directly inside [/home/u/.tt] can be
    written and no other: the directory is there and belongs to the user,
    and it has no directory inside.  The text of [what()] is the one of
    libstdc++. *)
Definition home_u : FileSystem := {|
  opens path :=
    Str.starts_with "/home/u/.tt/" path && negb (Str.contains "/" (Str.drop 12 path));
  chmod _ := None;
  missing path :=
    Exception 0
      ("filesystem error: cannot set permissions: No such file or directory ["
       +:+ path +:+ "]")
|}.

(** The session [a/b]: its file would lie in a directory that is not
    there. *)
Definition nested_session : State :=
  mkState (mkImpl "key" DEFAULT_MODEL DEFAULT_LANGUAGE "/home/u/.tt/a/b.json" []) ∅ [].

(** An output cut in the middle of a character: the first byte of the two
    that encode a letter with an accent. *)
Definition cut_output : string := "caf" +:+ Str.of_char "195".

End Samples.

(** ** The command parser ([src/CommandParser.cpp]) *)

Module CommandParser.

Definition question_patterns : list string :=
  [ "como"; "what"; "how"; "why"; "quando"; "where"; "qual"; "quais";
    "o que"; "por que"; "porque"; "explain"; "explique" ].

Record ParsedCommand : Type := mkParsed {
  executable : string;
  args : list string;
  flags : list string;
  raw_input : string;
  is_question : bool
}.

Definition is_quote (c : ascii) : bool := Ascii.eqb c Str.dq || Ascii.eqb c "'".
Definition is_dash (c : ascii) : bool := Ascii.eqb c "-".

(** [p(token.front())] and [p(token.back())]; the words the stream hands
    out are never empty. *)
Definition front_is (p : ascii → bool) (token : string) : bool :=
  match token with
  | String c _ => p c
  | "" => false
  end.

Definition back_is (p : ascii → bool) (token : string) : bool :=
  match Str.back token with
  | Some c => p c
  | None => false
  end.

(** The local variables of [Impl::tokenize]. *)
Record tokenizer : Type := mkTokenizer {
  in_quotes : bool;
  quoted_token : string;
  tokens : list string
}.

(** The body of the [while (iss >> token)] loop. *)
Definition tokenize_word (t : tokenizer) (token : string) : tokenizer :=
  if front_is is_quote token then
    mkTokenizer true (Str.substr_from 1 token) (tokens t)
  else if in_quotes t then
    if back_is is_quote token then
      let quoted :=
        quoted_token t +:+ " " +:+ Str.substr 0 (String.length token - 1) token in
      mkTokenizer false quoted (tokens t ++ [quoted])
    else mkTokenizer true (quoted_token t +:+ " " +:+ token) (tokens t)
  else mkTokenizer (in_quotes t) (quoted_token t) (tokens t ++ [token]).

(** [Impl::tokenize] on the words of the input. *)
Definition tokenize_words (words : list string) : list string :=
  tokens (fold_left tokenize_word words (mkTokenizer false "" [])).

(** [Impl::tokenize]: [iss >> token] yields the words between white space. *)
Definition tokenize (input : string) : list string :=
  tokenize_words (String.words input).

(** [CommandParser::isQuestion] *)
Definition isQuestion (input : string) : bool :=
  let lower := Str.map Str.tolower input in
  Str.contains "?" lower
  || existsb
       (λ pattern,
          bool_decide (Str.find pattern lower = Some 0%nat)
          || Str.contains (" " +:+ pattern) lower)
       question_patterns.

(** [CommandParser::parse] *)
Definition parse (input : string) : ParsedCommand :=
  if isQuestion input then mkParsed "" [] [] input true
  else
    match tokenize input with
    | [] => mkParsed "" [] [] input false
    | exe :: rest =>
        mkParsed exe
          (filter (λ token, front_is is_dash token = false) rest)
          (filter (λ token, front_is is_dash token = true) rest)
          input false
    end.

Definition is_punct (c : ascii) : bool := Ascii.eqb c "?" || Ascii.eqb c ".".

(** The loop that removes trailing punctuation; every round removes one
    byte, so [fuel] equal to the length is never used up. *)
Fixpoint strip_loop (fuel : nat) (intent : string) : string :=
  match fuel with
  | O => intent
  | S fuel' =>
      if negb (Str.is_empty intent) && back_is is_punct intent
      then strip_loop fuel' (Str.pop_back intent)
      else intent
  end.

Definition prefixes : list string :=
  [ "como eu "; "como posso "; "how do i "; "how can i ";
    "o que faz "; "what does "; "me explica "; "explain " ].

(** [CommandParser::extractIntent] *)
Definition extractIntent (question : string) : string :=
  let intent := strip_loop (String.length question) question in
  let lower := Str.map Str.tolower intent in
  match List.find (λ prefix, bool_decide (Str.find prefix lower = Some 0%nat)) prefixes with
  | Some prefix => Str.substr_from (String.length prefix) intent
  | None => intent
  end.

End CommandParser.

(** ** Further member functions of the client ([src/GeminiClient.cpp]) *)

Module GeminiTasks.
Import Json GeminiClient.

(** A [GeminiResponse] whose [success] may never have been assigned:
    [getCommandForTask] declares its result without initialising it. *)
Record partial : Type := mkPartial {
  content : string;
  success : option bool;
  error : string
}.

Definition assigned (r : GeminiResponse.t) : partial :=
  mkPartial (GeminiResponse.content r) (Some (GeminiResponse.success r))
            (GeminiResponse.error r).

Section WithLibrary.
Context `{JsonLib} `{FileSystem}.

Definition task_prompt (task : string) : string :=
  "User wants to: " +:+ task +:+ NL +:+ NL
  +:+ "Respond with ONLY a JSON object:" +:+ NL
  +:+ Str.quoted "{'command':'the shell command','explanation':'1-line explanation'}"
  +:+ NL +:+ NL
  +:+ "CRITICAL: Return ONLY valid JSON. No markdown, no text before or after.".

(** [content.substr(start, end - start + 1)] where the first [{] and the
    last [}] exist, in unsigned arithmetic: a [}] right before the [{] gives
    the length zero, one further to the left a length past the end of the
    string. *)
Definition task_span (content : string) : option string :=
  match Str.find_char "{" content, Str.rfind_char "}" content with
  | Some start, Some end_ =>
      Some (if (start <=? end_ + 1)%nat
            then Str.substr start (end_ + 1 - start) content
            else Str.substr_from start content)
  | _, _ => None
  end.

(** The [try] block of [getCommandForTask] on the span: the fields assigned
    when it ends, or the exception. *)
Definition task_fields (span : string) : result (string * string) :=
  j ← parse span;
  command ← (c ← at_key j "command"; get_string c);
  explanation ←
    (if contains j "explanation"
     then x ← at_key j "explanation"; get_string x
     else mret "");
  mret (command, explanation).

(** [getCommandForTask] after a successful request. *)
Definition task_result (response_content : string) : partial :=
  match task_span response_content with
  | None => mkPartial "" None ""
  | Some span =>
      match task_fields span with
      | Ok (command, explanation) => mkPartial command (Some true) explanation
      | Throw _ => mkPartial response_content (Some true) ""
      end
  end.

(** [GeminiClient::getCommandForTask] *)
Definition getCommandForTask (post : request → http_result) (task : string)
    (st : State) : partial * State :=
  let '(response, st') := sendRequest post (task_prompt task) true st in
  if negb (GeminiResponse.success response) then (assigned response, st')
  else (task_result (GeminiResponse.content response), st').

(** [GeminiClient::explainCommand] *)
Definition explainCommand (post : request → http_result) (command : string)
    (st : State) : GeminiResponse.t * State :=
  sendRequest post
    ("Explain this command briefly and directly: " +:+ command +:+ NL +:+ NL
     +:+ "Format: One short paragraph with what it does, then each flag explained in one line. "
     +:+ "No emojis, no bullet points, no headers. Keep it under 100 words. "
     +:+ getLanguageInstruction (impl st))
    true st.

(** [GeminiClient::suggestCommand] *)
Definition suggestCommand (post : request → http_result) (task_description : string)
    (st : State) : GeminiResponse.t * State :=
  sendRequest post
    ("User wants to: " +:+ task_description +:+ NL +:+ NL
     +:+ "Give the exact command, then one sentence explaining it. "
     +:+ "No emojis, no bullet points. Keep it very short. "
     +:+ getLanguageInstruction (impl st))
    true st.

(** [GeminiClient::getCommandOnly] *)
Definition getCommandOnly (post : request → http_result) (task_description : string)
    (st : State) : GeminiResponse.t * State :=
  sendRequest post
    ("User wants to: " +:+ task_description +:+ NL +:+ NL
     +:+ "Respond with ONLY the exact shell command, nothing else. "
     +:+ "No explanation, no quotes, no backticks. Just the raw command.")
    true st.

(** [GeminiClient::simulateCommand] *)
Definition simulateCommand (post : request → http_result) (command context : string)
    (st : State) : GeminiResponse.t * State :=
  sendRequest post
    ("Predict what happens when running: " +:+ command +:+ NL
     +:+ (if Str.is_empty context then "" else "Context: " +:+ context +:+ NL)
     +:+ NL +:+ "Give a brief prediction: what files are affected, expected output, any risks. "
     +:+ "No emojis, no bullet points. Keep it very short and direct. "
     +:+ getLanguageInstruction (impl st))
    true st.

End WithLibrary.

End GeminiTasks.

(** ** The explanation engine ([src/ExplainerEngine.cpp]) *)

Module ExplainerEngine.
Import Json GeminiClient.

Inductive ExplainMode : Type := NORMAL | ELI5 | DETAILED.

Definition buildExplainPrompt (command : string) (mode : ExplainMode) : string :=
  match mode with
  | ELI5 =>
      "Voce e um professor muito paciente explicando comandos de terminal para uma crianca de 5 anos. "
      +:+ "Use analogias simples do dia-a-dia, evite jargao tecnico, e seja amigavel." +:+ NL +:+ NL
      +:+ "Comando: " +:+ command +:+ NL +:+ NL
      +:+ "Explique o que esse comando faz como se estivesse explicando para uma crianca. "
      +:+ "Use exemplos do mundo real (como organizar brinquedos, encontrar coisas em casa, etc)."
  | DETAILED =>
      "Voce e um instrutor Linux avancado. Forneca uma explicacao tecnica detalhada." +:+ NL +:+ NL
      +:+ "Comando: " +:+ command +:+ NL +:+ NL
      +:+ "Inclua:" +:+ NL
      +:+ "1. Sintaxe completa e todas as opcoes disponiveis" +:+ NL
      +:+ "2. Exemplos praticos de uso" +:+ NL
      +:+ "3. Comandos relacionados" +:+ NL
      +:+ "4. Armadilhas comuns e melhores praticas" +:+ NL
      +:+ "5. Como combinar com outros comandos (pipes, redirecionamento)" +:+ NL +:+ NL
      +:+ "Responda em Portugues (Brasil)."
  | NORMAL =>
      "Voce e um assistente de ensino de CLI. Explique o seguinte comando de forma clara e educativa." +:+ NL +:+ NL
      +:+ "Comando: " +:+ command +:+ NL +:+ NL
      +:+ "Forneca:" +:+ NL
      +:+ "1. Um resumo breve do que ele faz" +:+ NL
      +:+ "2. Explicacao de cada flag/opcao usada" +:+ NL
      +:+ "3. Um exemplo pratico de quando usar" +:+ NL +:+ NL
      +:+ "Mantenha a explicacao concisa mas informativa. Responda em Portugues (Brasil)."
  end.

(** The prompt [suggestFix] writes to its stream. *)
Definition buildFixPrompt (failed_command error_msg : string) : string :=
  "Voce e um assistente de CLI ajudando a corrigir um comando que falhou." +:+ NL +:+ NL
  +:+ "Comando que falhou: " +:+ failed_command +:+ NL
  +:+ "Mensagem de erro: " +:+ error_msg +:+ NL +:+ NL
  +:+ "Forneca:" +:+ NL
  +:+ "1. O que causou o erro" +:+ NL
  +:+ "2. O comando corrigido" +:+ NL
  +:+ "3. Uma breve explicacao da correcao" +:+ NL +:+ NL
  +:+ "Responda em Portugues (Brasil). Seja direto e pratico.".

(** The text the three functions return for a response of the client. *)
Definition answer (failure : string) (response : GeminiResponse.t) : string :=
  if negb (GeminiResponse.success response)
  then failure +:+ GeminiResponse.error response
  else GeminiResponse.content response.

Section WithLibrary.
Context `{JsonLib} `{FileSystem}.

(** [ExplainerEngine::explain] *)
Definition explain (post : request → http_result) (command : string)
    (mode : ExplainMode) (st : State) : string * State :=
  let '(response, st') := generateContent post (buildExplainPrompt command mode) st in
  (answer "Erro ao gerar explicacao: " response, st').

(** [ExplainerEngine::suggestFix] *)
Definition suggestFix (post : request → http_result) (failed_command error_msg : string)
    (st : State) : string * State :=
  let '(response, st') :=
    generateContent post (buildFixPrompt failed_command error_msg) st in
  (answer "Erro ao gerar sugestao: " response, st').

(** [ExplainerEngine::translateQuestion] *)
Definition translateQuestion (post : request → http_result) (question : string)
    (st : State) : string * State :=
  let '(response, st') := GeminiTasks.suggestCommand post question st in
  (answer "Erro ao processar pergunta: " response, st').

End WithLibrary.

End ExplainerEngine.

(** ** The execution paths of [main] ([src/main.cpp]) *)

Module Main.
Import Json GeminiClient.

(** [s.erase(0, s.find_first_not_of(set)); s.erase(s.find_last_not_of(set) + 1);] *)
Definition trim (set s : string) : string :=
  let s1 :=
    match Str.find_first_not_of set s with
    | Some n => Str.drop n s
    | None => ""
    end in
  match Str.find_last_not_of set s1 with
  | Some i => Str.take (i + 1) s1
  | None => Str.take 0 s1
  end.

(** The set [" \n\r\t"]. *)
Definition blanks : string :=
  String " " (String Str.nl (String Str.cr (Str.of_char Str.tab))).

(** [askDangerousConfirmation]: [answer] is the line read from the input. *)
Definition askDangerousConfirmation (answer : string) : bool :=
  String.eqb answer "yes".

(** The path [main] removes for [--session delete name], [HOME] being
    [home]. *)
Definition deleted_path (home name : string) : string :=
  home +:+ "/.tt/" +:+ name +:+ ".json".

(** [--session delete name]: the value returned by [main] and the files
    left. *)
Definition session_delete (home name : string) (fs : gmap string string)
  : Z * gmap string string :=
  match fs !! deleted_path home name with
  | Some _ => (0, delete (deleted_path home name) fs)
  | None => (1, fs)
  end.

(** How a run ends: [main] returns a value, or an exception that nothing
    catches ends the process. *)
Inductive ending : Type :=
| Returns (code : Z)
| Terminates (e : exception).

(** What a run leaves behind: the client and its files, and the commands
    handed to the shell, each with the answer to the danger prompt when the
    prompt was shown. *)
Record trace : Type := mkTrace {
  client : State;
  spawned : list (string * option string)
}.

Section WithLibrary.
Context `{JsonLib} `{FileSystem}.
Variable post : request → http_result.
Variable popen : string → option Executor.child.
Variable session_name : string.

(** Executing [cmd] and recording it in a named session: the exit code of
    the command, or the exception that left [addCommandOutput], which
    [main] does not catch. *)
Definition execute (cmd : string) (asked : option string) (t : trace)
  : ending * trace :=
  let '((exit_code, output), _) := Executor.executeAndCapture popen cmd in
  let recorded :=
    if negb (Str.is_empty session_name)
    then addCommandOutput cmd output (client t)
    else mkOutcome (client t) None in
  (match raised recorded with
   | None => Returns exit_code
   | Some e => Terminates e
   end,
   mkTrace recorded (spawned t ++ [(cmd, asked)])).

(** What follows a call of [execute] in the loop of the console. *)
Definition carry_on (r : ending * trace) (next : trace → trace) : trace :=
  match r.1 with
  | Returns _ => next r.2
  | Terminates _ => r.2
  end.

(** The [--run] branch of [main].  [unassigned] is the value read from a
    [success] that was never assigned; [stdin] are the lines waiting on the
    standard input.  The result is the value returned by [main] and the
    trace. *)
Definition run_task (unassigned : bool) (stdin : list string) (query : string)
    (st : State) : ending * trace :=
  let '(response, st1) := GeminiTasks.getCommandForTask post query st in
  let t := mkTrace st1 [] in
  if negb (default unassigned (GeminiTasks.success response)) then (Returns 1, t)
  else
    let cmd := trim blanks (GeminiTasks.content response) in
    if Danger.isDangerousCommand cmd then
      let answer := default "" (head stdin) in
      if negb (askDangerousConfirmation answer) then (Returns 0, t)
      else execute cmd (Some answer) t
    else execute cmd None t.

(** The loop of [--console]: one round per line of the standard input, the
    answer to a danger prompt being the line after.  The loop ends at
    [exit], at the end of the input, and where an exception ends the
    process; the result is the trace at that point. *)
Fixpoint console_loop (stdin : list string) (t : trace) : trace :=
  match stdin with
  | [] => t
  | raw :: rest =>
      let line := trim (String " " (String Str.tab (String Str.nl (Str.of_char Str.cr)))) raw in
      if Str.is_empty line then console_loop rest t
      else if String.eqb line "exit" || String.eqb line "quit" then t
      else if String.eqb line "clear" then console_loop rest t
      else
        let '(smart, st1) := smartQuery post line (client t) in
        let t1 := mkTrace st1 (spawned t) in
        if negb (SmartResponse.success smart) then console_loop rest t1
        else
          match SmartResponse.type smart with
          | Some SmartResponse.EXECUTE =>
              let cmd := trim blanks (SmartResponse.command smart) in
              if Danger.isDangerousCommand cmd then
                match rest with
                | answer :: rest' =>
                    if negb (askDangerousConfirmation answer) then console_loop rest' t1
                    else carry_on (execute cmd (Some answer) t1) (console_loop rest')
                | [] => t1
                end
              else carry_on (execute cmd None t1) (console_loop rest)
          | _ => console_loop rest t1
          end
  end.

End WithLibrary.

End Main.

(** ** Notions the further properties are stated with *)

Module Props.

(** A pattern without upper-case letter. *)
Definition lowercase (p : string) : bool := String.eqb (Str.map Str.tolower p) p.

(** A command handed to the shell passed the danger gate: a flagged
    command was confirmed with [yes], a command not flagged was not asked
    about. *)
Definition gated (entry : string * option string) : Prop :=
  if Danger.isDangerousCommand entry.1
  then entry.2 = Some "yes"
  else entry.2 = None.

(** No byte of [s] belongs to [set]. *)
Fixpoint avoids (set s : string) : bool :=
  match s with
  | "" => true
  | String c s' => negb (Str.mem c set) && avoids set s'
  end.

End Props.

(** ** Further concrete inputs *)

Module Inputs.
Import Json GeminiClient.

(** A file system with a file that is not a session file. *)
Definition other_files : gmap string string := {["/etc/hostname" := "box"]}.

(** A named session that has stored nothing yet, next to that file. *)
Definition new_session : State :=
  mkState (Samples.persistent_impl []) other_files [].

(** The reply text of the model that proposes to run [rm -rf /tmp/x]. *)
Definition removal_reply : string :=
  Str.quoted "{\'type\':\'execute\',\'command\':\'rm -rf /tmp/x\'}".

(** A shell whose every command prints one line and exits with 0. *)
Definition shell : string → option Executor.child :=
  λ _, Some (Executor.mkChild ["done" +:+ NL] (Executor.exited_with 0)).

(** Four lines typed at the console: a request, its confirmation, the same
    request and a refusal. *)
Definition typed : list string := ["clean up"; "yes"; "clean up"; "no"].

End Inputs.

(** * Properties *)

(** ** Facts about byte strings *)

Section StrFacts.

Lemma sapp_cons (c : ascii) (s t : string) : String c s +:+ t = String c (s +:+ t).
Proof. reflexivity. Qed.

Lemma sapp_nil_l (t : string) : "" +:+ t = t.
Proof. reflexivity. Qed.

Lemma slength_app (s t : string) :
  String.length (s +:+ t) = (String.length s + String.length t)%nat.
Proof.
  induction s as [|c s IH]; [reflexivity |].
  rewrite sapp_cons. simpl. now rewrite IH.
Qed.

Lemma sapp_assoc (s t u : string) : (s +:+ t) +:+ u = s +:+ t +:+ u.
Proof.
  induction s as [|c s IH]; [reflexivity |].
  rewrite !sapp_cons. now rewrite IH.
Qed.

Lemma sapp_empty_r (s : string) : s +:+ "" = s.
Proof.
  induction s as [|c s IH]; [reflexivity |].
  rewrite sapp_cons. now rewrite IH.
Qed.

Lemma slength_take (n : nat) (s : string) :
  (n ≤ String.length s)%nat → String.length (Str.take n s) = n.
Proof.
  revert s; induction n as [|n IH]; intros [|c s] Hn; simpl in *;
    try reflexivity; try lia.
  rewrite IH; [reflexivity | lia].
Qed.

Lemma stake_app_drop (n : nat) (s : string) : Str.take n s +:+ Str.drop n s = s.
Proof.
  revert s; induction n as [|n IH]; intros [|c s]; try reflexivity.
  simpl. rewrite sapp_cons. now rewrite IH.
Qed.

Lemma is_empty_true (s : string) : Str.is_empty s = true ↔ s = "".
Proof. destruct s; simpl; split; congruence. Qed.

Lemma is_empty_false (s : string) : Str.is_empty s = false ↔ s ≠ "".
Proof. destruct s; simpl; split; congruence. Qed.

End StrFacts.

(** ** The danger classifiers *)

Section DangerFacts.

Example isDangerousCommand_samples :
  List.map Danger.isDangerousCommand
    ["sudo rm -rf /tmp/x"; "chmod 777 /etc/passwd"; "dd if=/dev/zero of=/dev/sda";
     "sudo mv file1 file2"; "ls -la /home"; "echo hi | RM x"; "mv a b"]
  = [true; true; true; true; false; true; false].
Proof. vm_compute. reflexivity. Qed.

Example isDangerous_samples :
  List.map Simulator.isDangerous
    ["sudo rm -rf /tmp/x"; "chmod 777 /etc/passwd"; "dd if=/dev/zero of=/dev/sda";
     "sudo mv file1 file2"; "ls -la /home"; "mv file1 file2"; "chmod -R 777 /"]
  = [true; false; true; true; false; false; false].
Proof. vm_compute. reflexivity. Qed.

(** C4, as stated, fails on one of the two classifiers: the classifier of
    the simulator does not flag [chmod 777 /etc/passwd]; none of its
    patterns occurs in the command and the command has no [sudo]. *)
Lemma isDangerous_chmod_777_not_flagged :
  Simulator.isDangerous "chmod 777 /etc/passwd" = false
  ∧ Simulator.pattern_rule "chmod 777 /etc/passwd" = false
  ∧ Simulator.sudo_rule "chmod 777 /etc/passwd" = false.
Proof. vm_compute. repeat split. Qed.

(** C4, amended.  [isDangerousCommand], the classifier in front of every
    execution, answers true on the four commands and false on
    [ls -la /home]; it flags [sudo mv file1 file2] through the entry [sudo]
    of its command list, [mv] not being in that list and no pattern
    matching.  [Simulator::isDangerous] answers true on
    [sudo rm -rf /tmp/x], [dd if=/dev/zero of=/dev/sda] and
    [sudo mv file1 file2], the last by the rule on [sudo] with a modifying
    command alone, and false on [ls -la /home] and on
    [chmod 777 /etc/passwd]. *)
Theorem danger_classifier_verdicts :
  (Danger.isDangerousCommand "sudo rm -rf /tmp/x" = true
   ∧ Danger.isDangerousCommand "chmod 777 /etc/passwd" = true
   ∧ Danger.isDangerousCommand "dd if=/dev/zero of=/dev/sda" = true
   ∧ Danger.isDangerousCommand "sudo mv file1 file2" = true
   ∧ Danger.isDangerousCommand "ls -la /home" = false)
  ∧ (bool_decide ("mv" ∈ Danger.DANGEROUS_COMMANDS) = false
     ∧ Danger.isDangerousCommand "mv file1 file2" = false
     ∧ Danger.command_rule "sudo mv file1 file2" "sudo" = true
     ∧ existsb (Danger.pattern_rule "sudo mv file1 file2") Danger.DANGEROUS_PATTERNS = false)
  ∧ (Simulator.isDangerous "sudo rm -rf /tmp/x" = true
     ∧ Simulator.isDangerous "dd if=/dev/zero of=/dev/sda" = true
     ∧ Simulator.isDangerous "sudo mv file1 file2" = true
     ∧ Simulator.isDangerous "ls -la /home" = false
     ∧ Simulator.isDangerous "chmod 777 /etc/passwd" = false)
  ∧ (Simulator.pattern_rule "sudo mv file1 file2" = false
     ∧ Simulator.sudo_rule "sudo mv file1 file2" = true
     ∧ Simulator.isDangerous "mv file1 file2" = false).
Proof. vm_compute. repeat split. Qed.

End DangerFacts.

(** ** The command executor *)

Section ExecutorFacts.
Import Executor.

Lemma WIFEXITED_exited_with (code : Z) :
  0 ≤ code → WIFEXITED (exited_with code) = true.
Proof.
  intros Hc. unfold WIFEXITED, exited_with.
  change 127 with (Z.ones 7).
  rewrite Z.land_ones by lia.
  rewrite Z.shiftl_mul_pow2 by lia.
  apply Z.eqb_eq.
  change (2 ^ 8) with (2 * 2 ^ 7).
  rewrite Z.mul_assoc. apply Z.mod_mul. lia.
Qed.

Lemma WEXITSTATUS_exited_with (code : Z) :
  0 ≤ code < 256 → WEXITSTATUS (exited_with code) = code.
Proof.
  intros Hc. unfold WEXITSTATUS, exited_with.
  change 65280 with (Z.shiftl 255 8).
  rewrite <- Z.shiftl_land.
  rewrite Z.shiftr_shiftl_l by lia.
  rewrite Z.sub_diag, Z.shiftl_0_r.
  change 255 with (Z.ones 8).
  rewrite Z.land_ones by lia.
  apply Z.mod_small. lia.
Qed.

Lemma WIFEXITED_minus_one : WIFEXITED (-1) = false.
Proof. reflexivity. Qed.

(** C5.  When the pipe opens and the child writes more than [CEILING]
    (2000) bytes, the text returned is the first [CEILING] bytes of the
    output followed by the marker; the status returned is the exit code of
    a child that exited normally, and [-1] when the wait status is not that
    of a normal exit, which includes the [-1] of a failed [pclose].  When
    no pipe opens the status returned is [-1] as well. *)
Theorem executeAndCapture_contract (popen : string → option child) (command : string) :
  (popen (command +:+ " 2>&1") = None →
     (executeAndCapture popen command).1.1 = -1)
  ∧ (∀ pipe, popen (command +:+ " 2>&1") = Some pipe →
       let output := Str.concat (reads pipe) in
       let r := (executeAndCapture popen command).1 in
       ((CEILING < String.length output)%nat →
          r.2 = Str.take CEILING output +:+ MARKER
          ∧ String.length (Str.take CEILING output) = CEILING
          ∧ Str.take CEILING output +:+ Str.drop CEILING output = output)
       ∧ (∀ code, 0 ≤ code < 256 → pclose_status pipe = exited_with code →
            r.1 = code)
       ∧ (WIFEXITED (pclose_status pipe) = false → r.1 = -1)
       ∧ (pclose_status pipe = -1 → r.1 = -1)).
Proof.
  unfold executeAndCapture. split.
  - intros ->. reflexivity.
  - intros pipe ->. cbn zeta. repeat split.
    + cbn [fst snd]. apply Nat.ltb_lt in H. rewrite H. reflexivity.
    + apply slength_take. lia.
    + apply stake_app_drop.
    + intros code Hc ->. cbn [fst snd].
      rewrite WIFEXITED_exited_with by lia. now apply WEXITSTATUS_exited_with.
    + intros ->. reflexivity.
    + intros ->. reflexivity.
Qed.

Lemma executeAndCapture_contract_witness :
  let r := (executeAndCapture (λ _, Some Samples.long_child) "yes | head -300; exit 3").1 in
  String.length r.2 = (2000 + 23)%nat ∧ r.1 = 3
  ∧ (executeAndCapture (λ _, None) "ls").1 = (-1, "Failed to execute command").
Proof.
  pose proof (executeAndCapture_contract (λ _, Some Samples.long_child)
                "yes | head -300; exit 3") as [_ Hrun].
  specialize (Hrun Samples.long_child eq_refl) as (Hlong & Hcode & _ & _).
  destruct Hlong as (Hout & Hlen & _); [vm_compute; lia |].
  split; [| split].
  - cbn zeta. rewrite Hout, slength_app, Hlen. reflexivity.
  - apply Hcode; [lia | reflexivity].
  - reflexivity.
Defined.

End ExecutorFacts.

(** ** The simulator *)

Section SimulatorFacts.
Import Simulator.
Context `{Json.JsonLib} `{GeminiClient.FileSystem}.

Lemma scan_lines_is_destructive (lines : list string) (r : SimulationResult) :
  is_destructive (fold_left scan_line lines r)
  = is_destructive r || existsb high_line lines.
Proof.
  revert r; induction lines as [|line lines IH]; intros r; simpl.
  - now rewrite orb_false_r.
  - rewrite IH. unfold scan_line. simpl.
    destruct (high_line line), (is_destructive r); reflexivity.
Qed.

Lemma scan_lines_warnings (lines : list string) (r : SimulationResult) :
  warnings (fold_left scan_line lines r) = warnings r.
Proof.
  revert r; induction lines as [|line lines IH]; intros r; simpl;
    [reflexivity | now rewrite IH].
Qed.

(** The flag after the response was read: the flag before, or a line of a
    successful response that rates the command [ALTO]. *)
Lemma absorb_is_destructive (response : GeminiResponse.t) (r : SimulationResult) :
  is_destructive (absorb response r)
  = is_destructive r
    || (GeminiResponse.success response
        && existsb high_line (Str.getlines Str.nl (GeminiResponse.content response))).
Proof.
  unfold absorb. destruct (GeminiResponse.success response); simpl.
  - now rewrite scan_lines_is_destructive.
  - now rewrite orb_false_r.
Qed.

Lemma simulate_is_destructive post command st :
  let response := (GeminiClient.generateContent post (simulate_prompt command) st).1 in
  is_destructive (simulate post command st).1
  = isDangerous command
    || (GeminiResponse.success response
        && existsb high_line (Str.getlines Str.nl (GeminiResponse.content response))).
Proof.
  unfold simulate.
  destruct (GeminiClient.generateContent post (simulate_prompt command) st)
    as [response st'].
  cbn [fst]. now rewrite absorb_is_destructive.
Qed.

(** C9.  A command the heuristic [isDangerous] flags stays flagged in the
    result of [simulate], whatever the remote end answers; a command it
    does not flag is flagged in the result exactly when the request
    succeeds and a line of the reply contains
    [NIVEL_DESTRUTIVIDADE: ALTO]. *)
Theorem simulate_never_downgrades post command st :
  let response := (GeminiClient.generateContent post (simulate_prompt command) st).1 in
  (isDangerous command = true → is_destructive (simulate post command st).1 = true)
  ∧ (isDangerous command = false →
       is_destructive (simulate post command st).1
       = GeminiResponse.success response
         && existsb high_line (Str.getlines Str.nl (GeminiResponse.content response))).
Proof.
  cbn zeta. rewrite simulate_is_destructive. cbn zeta.
  split; intros ->; reflexivity.
Qed.

End SimulatorFacts.

(** ** The session store *)

Section SessionFacts.
Import Json GeminiClient Spec.
Context `{JsonLib} `{FileSystem}.

Lemma list_pair_ind {A : Type} (P : list A → Prop) :
  P [] → (∀ a, P [a]) → (∀ a b l, P l → P (a :: b :: l)) → ∀ l, P l.
Proof.
  intros Hnil Hone Hstep.
  assert (Hboth : ∀ l, P l ∧ ∀ a, P (a :: l)).
  { induction l as [|b l [IHl IHcons]]; split; auto. }
  intros l. apply Hboth.
Qed.

Lemma trim_short (h : list json) :
  (length h ≤ 2 * MAX_HISTORY_TURNS)%nat → trim h = h.
Proof.
  destruct h as [|a [|b h]]; try reflexivity.
  intros Hlen. cbn [trim].
  destruct (Nat.ltb_spec (MAX_HISTORY_TURNS * 2) (length (a :: b :: h)));
    [lia | reflexivity].
Qed.

Lemma trim_long (a b : json) (h : list json) :
  (2 * MAX_HISTORY_TURNS < length (a :: b :: h))%nat → trim (a :: b :: h) = trim h.
Proof.
  intros Hlen. cbn [trim].
  destruct (Nat.ltb_spec (MAX_HISTORY_TURNS * 2) (length (a :: b :: h)));
    [reflexivity | lia].
Qed.

Lemma trim_spec (h : list json) : bounded_recent h [] (trim h).
Proof.
  unfold bounded_recent. rewrite app_nil_r.
  induction h as [| a | a b h IH] using list_pair_ind.
  - cbn. repeat split; try lia. exists 0%nat. reflexivity.
  - cbn. repeat split; try lia. exists 0%nat. reflexivity.
  - destruct (Nat.le_gt_cases (length (a :: b :: h)) (2 * MAX_HISTORY_TURNS))
      as [Hshort | Hlong].
    + rewrite trim_short by exact Hshort.
      repeat split; try lia. exists 0%nat. reflexivity.
    + rewrite trim_long by exact Hlong.
      destruct IH as (Hle & [k Hk] & Hsame & Hmin).
      split; [exact Hle |]. split; [| split].
      * exists (S k). rewrite Hk.
        replace (2 * S k)%nat with (S (S (2 * k))) by lia. reflexivity.
      * lia.
      * intros _. cbn [length] in Hlong.
        destruct (Nat.le_gt_cases (length h) (2 * MAX_HISTORY_TURNS)) as [Hh | Hh].
        -- rewrite Hsame by exact Hh. lia.
        -- apply Hmin. exact Hh.
Qed.

(** What [saveSession] leaves, whether it returns or throws: the history
    trimmed in memory, the session file as [session_file_after] has it and
    every other file as it was; and the exception it ends with. *)
Lemma saveSession_cases (st : State) :
  session_path (impl st) ≠ "" →
  impl (saveSession st) = set_history (trim (history (impl st))) (impl st)
  ∧ sent (saveSession st) = sent st
  ∧ files (saveSession st) !! session_path (impl st)
    = session_file_after (files st) (impl (saveSession st))
  ∧ (∀ other, other ≠ session_path (impl st) →
       files (saveSession st) !! other = files st !! other)
  ∧ raised (saveSession st) = save_error (files st) (impl (saveSession st)).
Proof.
  intros Hpath. apply is_empty_false in Hpath.
  unfold saveSession, save_error, session_file_after. rewrite Hpath.
  destruct (dump_error (JArray (trim (history (impl st))))) as [e |] eqn:Hdump;
    cbn [after raised impl files sent set_history session_path history];
    rewrite Hdump; destruct (opens (session_path (impl st)));
    repeat split; rewrite ?lookup_insert_eq; try reflexivity;
    try (intros other Hother; now rewrite lookup_insert_ne by congruence).
Qed.

(** A save that returns, through a stream that opened, wrote the history. *)
Lemma saveSession_persisted (st : State) :
  session_path (impl st) ≠ "" →
  raised (saveSession st) = None →
  opens (session_path (impl st)) = true →
  persisted (saveSession st).
Proof.
  intros Hpath Hreturn Hopen.
  destruct (saveSession_cases st Hpath) as (Himpl & _ & Hfile & _ & Hraised).
  unfold persisted. rewrite Himpl at 1. cbn [session_path set_history].
  rewrite Hfile. rewrite Hraised in Hreturn.
  unfold save_error in Hreturn. unfold session_file_after.
  rewrite Himpl in *. cbn [session_path set_history history] in *.
  rewrite Hopen. now destruct (dump_error _).
Qed.

Lemma addToHistory_persistent (role text : string) (st : State) :
  session_path (impl st) ≠ "" →
  history (impl (addToHistory role text st))
  = trim (history (impl st) ++ [turn role text])
  ∧ session_path (impl (addToHistory role text st)) = session_path (impl st)
  ∧ files (addToHistory role text st) !! session_path (impl st)
    = session_file_after (files st) (impl (addToHistory role text st))
  ∧ raised (addToHistory role text st)
    = save_error (files st) (impl (addToHistory role text st))
  ∧ (raised (addToHistory role text st) = None →
     opens (session_path (impl st)) = true →
     persisted (addToHistory role text st)).
Proof.
  intros Hpath. unfold addToHistory.
  rewrite (proj2 (is_empty_false _) Hpath).
  set (pushed := set_impl _ st).
  assert (Hpushed : session_path (impl pushed) ≠ "") by exact Hpath.
  destruct (saveSession_cases pushed Hpushed) as (Himpl & _ & Hfile & _ & Hraised).
  rewrite Himpl. cbn [history session_path set_history].
  split; [reflexivity |]. split; [reflexivity |].
  rewrite <- Himpl. split; [exact Hfile |]. split; [exact Hraised |].
  intros Hreturn Hopen. now apply saveSession_persisted.
Qed.

(** An ephemeral client never stores a turn. *)
Lemma addToHistory_ephemeral (role text : string) (st : State) :
  session_path (impl st) = "" → addToHistory role text st = mkOutcome st None.
Proof. intros Hpath. unfold addToHistory. now rewrite Hpath. Qed.

Lemma bounded_recent_trim (old new : list json) :
  bounded_recent old new (trim (old ++ new)).
Proof.
  pose proof (trim_spec (old ++ new)) as Hspec.
  unfold bounded_recent in *. rewrite app_nil_r in Hspec. exact Hspec.
Qed.

(** Recording a command and its output appends two turns, one after the
    other, each followed by the trimming and the write; the second is not
    reached when the first save throws. *)
Lemma addCommandOutput_bounded (command output : string) (st : State) :
  session_path (impl st) ≠ "" →
  (length (history (impl (addCommandOutput command output st)))
   ≤ 2 * MAX_HISTORY_TURNS)%nat
  ∧ session_path (impl (addCommandOutput command output st)) = session_path (impl st)
  ∧ (raised (addCommandOutput command output st) = None →
     opens (session_path (impl st)) = true →
     persisted (addCommandOutput command output st)).
Proof.
  intros Hpath. unfold addCommandOutput, and_then.
  set (context := _ +:+ _).
  destruct (addToHistory_persistent "user" context st Hpath)
    as (Hh1 & Hpath1 & _ & _ & Hfile1).
  destruct (raised (addToHistory "user" context st)) as [e |] eqn:Hfirst.
  { split; [| split; [exact Hpath1 | congruence]].
    rewrite Hh1. apply (trim_spec (_ ++ [_])). }
  rewrite <- Hpath1 in Hpath.
  destruct (addToHistory_persistent "model"
              "Got it. I'll remember this output for context."
              (addToHistory "user" context st) Hpath) as (Hh & Hpath2 & _ & _ & Hfile).
  split; [| split].
  - rewrite Hh. apply (trim_spec (_ ++ [_])).
  - now rewrite Hpath2.
  - rewrite <- Hpath1. exact Hfile.
Qed.

(** After a reply that carries a text: the call of [saveSession] that
    decides what [sendRequest] returns. *)
Lemma sendRequest_replied post prompt use_history st :
  failed (post (build_request (impl st) prompt use_history)) = false →
  ∃ body text,
    post (build_request (impl st) prompt use_history) = Response 200 body
    ∧ reply_text body = Ok (Some text)
    ∧ sendRequest post prompt use_history st
      = let st1 := mkState (impl st) (files st)
                     (sent st ++ [build_request (impl st) prompt use_history]) in
        if active use_history (impl st) then
          let saved :=
            saveSession
              (set_impl
                 (set_history
                    (history (impl st) ++ [turn "user" prompt; turn "model" text])
                    (impl st)) st1) in
          (match raised saved with
           | None => GeminiResponse.mk text true ""
           | Some e => GeminiResponse.mk text false ("JSON parse error: " +:+ what e)
           end, after saved)
        else (GeminiResponse.mk text true "", st1).
Proof.
  unfold sendRequest, failed.
  destruct (post _) as [err | status body]; [discriminate |].
  destruct (Z.eqb_spec status 200) as [-> | _]; cbn [negb orb]; [| discriminate].
  destruct (reply_text body) as [[text |] | e] eqn:Hreply; try discriminate.
  intros _. exists body, text. split; [reflexivity |]. split; [exact Hreply |].
  cbn zeta. destruct (active use_history (impl st)); [| reflexivity].
  now destruct (raised _).
Qed.

(** A call that reports success had a reply with a text. *)
Lemma sendRequest_success_replied post prompt use_history st :
  GeminiResponse.success (sendRequest post prompt use_history st).1 = true →
  failed (post (build_request (impl st) prompt use_history)) = false.
Proof.
  unfold sendRequest, failed.
  destruct (post _) as [err | status body]; [discriminate |].
  destruct (negb (status =? 200)); [discriminate |]. cbn [orb].
  destruct (reply_text body) as [[text |] | e]; [reflexivity | discriminate..].
Qed.

Lemma sendRequest_success post prompt use_history st text :
  (sendRequest post prompt use_history st).1 = GeminiResponse.mk text true "" →
  (sendRequest post prompt use_history st).2
  = let st1 := mkState (impl st) (files st)
                 (sent st ++ [build_request (impl st) prompt use_history]) in
    if active use_history (impl st) then
      after
        (saveSession
           (set_impl
              (set_history (history (impl st) ++ [turn "user" prompt; turn "model" text])
                 (impl st)) st1))
    else st1.
Proof.
  unfold sendRequest.
  destruct (post _) as [err | status body]; cbn [fst snd]; [discriminate |].
  destruct (negb (status =? 200)); cbn [fst snd]; [discriminate |].
  destruct (reply_text body) as [[text' |] | e]; cbn [fst snd]; try discriminate.
  cbn zeta. destruct (active use_history (impl st)).
  - destruct (raised _); cbn [fst snd]; [discriminate |]. now intros [= ->].
  - cbn [fst snd]. now intros [= ->].
Qed.

Lemma sendRequest_response_shape post prompt use_history st :
  let response := (sendRequest post prompt use_history st).1 in
  GeminiResponse.success response = true →
  response = GeminiResponse.mk (GeminiResponse.content response) true "".
Proof.
  unfold sendRequest.
  destruct (post _) as [err | status body]; cbn; [discriminate |].
  destruct (negb (status =? 200)); cbn; [discriminate |].
  destruct (reply_text body) as [[text' |] | e]; cbn; try discriminate.
  destruct (active use_history (impl st)); [| reflexivity].
  destruct (raised _); cbn; [discriminate | reflexivity].
Qed.

(** Without a session path nothing is ever stored: this is the unnamed
    session, and the named one of a process without [HOME]. *)
Lemma sendRequest_ephemeral post prompt use_history st :
  session_path (impl st) = "" →
  impl (sendRequest post prompt use_history st).2 = impl st
  ∧ files (sendRequest post prompt use_history st).2 = files st.
Proof.
  intros Hpath. unfold sendRequest, active. rewrite Hpath. cbn [Str.is_empty negb].
  rewrite andb_false_r.
  destruct (post _) as [err | status body]; [split; reflexivity |].
  destruct (negb (status =? 200)); [split; reflexivity |].
  destruct (reply_text body) as [[text |] | e]; split; reflexivity.
Qed.

(** C1.  In a persistent session (its path is not empty) every operation
    that appends leaves at most [2 * MAX_HISTORY_TURNS = 20] turns in the
    history of the client, whether the save that follows returns or throws:
    [addToHistory] for one turn, and [sendRequest] for the user turn and
    the model turn whenever the reply carries a text.  What is left is the
    old history with the new turns at its end, less an even number of turns
    dropped from the front: none when the bound holds without dropping,
    otherwise as few pairs as reach the bound.  The session file holds that
    history where the stream opened and the save returned ([sendRequest]
    reports success only then); it is empty where [dump] raised, and as it
    was where the stream did not open. *)
Theorem session_bounded_after_append (st : State) :
  session_path (impl st) ≠ "" →
  (2 * MAX_HISTORY_TURNS = 20)%nat
  ∧ (∀ role text,
       let st' := addToHistory role text st in
       bounded_recent (history (impl st)) [turn role text] (history (impl st'))
       ∧ files st' !! session_path (impl st) = session_file_after (files st) (impl st')
       ∧ (raised st' = None → opens (session_path (impl st)) = true → persisted st'))
  ∧ (∀ post prompt,
       let out := post (build_request (impl st) prompt true) in
       let response := (sendRequest post prompt true st).1 in
       let st' := (sendRequest post prompt true st).2 in
       (failed out = false →
          bounded_recent (history (impl st))
            [turn "user" prompt; turn "model" (GeminiResponse.content response)]
            (history (impl st'))
          ∧ files st' !! session_path (impl st)
            = session_file_after (files st) (impl st'))
       ∧ (GeminiResponse.success response = true →
            failed out = false
            ∧ (opens (session_path (impl st)) = true → persisted st'))).
Proof.
  intros Hpath. split; [reflexivity |]. split.
  - intros role text st'. subst st'.
    destruct (addToHistory_persistent role text st Hpath) as (Hh & _ & Hfile & _ & Hok).
    rewrite Hh. split; [apply bounded_recent_trim |]. split; assumption.
  - intros post prompt out response st'. subst out response st'.
    assert (Hreplied :
      failed (post (build_request (impl st) prompt true)) = false →
      ∃ saved : outcome,
        bounded_recent (history (impl st))
          [turn "user" prompt;
           turn "model" (GeminiResponse.content (sendRequest post prompt true st).1)]
          (history (impl saved))
        ∧ files saved !! session_path (impl st)
          = session_file_after (files st) (impl saved)
        ∧ (raised saved = None → opens (session_path (impl st)) = true →
           persisted saved)
        ∧ (sendRequest post prompt true st).2 = after saved
        ∧ (GeminiResponse.success (sendRequest post prompt true st).1 = true →
           raised saved = None)).
    { intros Hout.
      destruct (sendRequest_replied post prompt true st Hout)
        as (body & text & _ & _ & ->).
      cbn zeta. unfold active. rewrite (proj2 (is_empty_false _) Hpath).
      cbn [andb negb].
      set (pushed := set_impl _ _).
      assert (Hpushed : session_path (impl pushed) ≠ "") by exact Hpath.
      destruct (saveSession_cases pushed Hpushed) as (Himpl & _ & Hfile & _ & _).
      exists (saveSession pushed).
      assert (Hcontent :
        GeminiResponse.content
          (match raised (saveSession pushed) with
           | None => GeminiResponse.mk text true ""
           | Some e => GeminiResponse.mk text false ("JSON parse error: " +:+ what e)
           end, after (saveSession pushed)).1 = text)
        by now destruct (raised (saveSession pushed)).
      rewrite Hcontent. split; [| split; [| split; [| split]]].
      - rewrite Himpl. apply bounded_recent_trim.
      - exact Hfile.
      - intros Hreturn Hopen. now apply saveSession_persisted.
      - reflexivity.
      - now destruct (raised (saveSession pushed)). }
    split.
    + intros Hout. destruct (Hreplied Hout) as (saved & Hb & Hfile & _ & -> & _).
      split; assumption.
    + intros Hok.
      pose proof (sendRequest_success_replied post prompt true st Hok) as Hout.
      split; [exact Hout |]. intros Hopen.
      destruct (Hreplied Hout) as (saved & _ & _ & Hsaved & -> & Hreturn).
      apply Hsaved; [now apply Hreturn | exact Hopen].
Qed.

End SessionFacts.

(** ** Loading a session *)

Section LoadFacts.
Import Json GeminiClient Spec.
Context `{JsonLib} `{FileSystem}.

Lemma loadSession_cases (fs : gmap string string) (path : string) :
  loadSession fs path
  = Ok (if Str.is_empty path then []
        else match fs !! path with
             | Some text =>
                 match parse_stream text with
                 | Ok (JArray items) => items
                 | _ => []
                 end
             | None => []
             end).
Proof.
  unfold loadSession. destruct (Str.is_empty path); [reflexivity |].
  destruct (fs !! path) as [text |]; [| reflexivity].
  destruct (parse_stream text) as [[] | e]; reflexivity.
Qed.

(** C6.  [loadSession] always returns, and never with an exception.  The
    history it returns is empty when the client has no session path, when
    the session file is missing, when reading a value from the file raises
    (an empty file included, for a library that rejects the empty text), and
    when the value read is not an array; otherwise it is the array read
    from the front of the file, whatever follows it there and whatever its
    elements are.  So a history that is not empty was read from a file that
    is there and starts with an array. *)
Theorem loadSession_total (fs : gmap string string) (path : string) :
  ∃ h, loadSession fs path = Ok h
    ∧ (path = "" → h = [])
    ∧ (fs !! path = None → h = [])
    ∧ (∀ text e, fs !! path = Some text → parse_stream text = Throw e → h = [])
    ∧ (∀ e, fs !! path = Some "" → parse_stream "" = Throw e → h = [])
    ∧ (∀ text j, fs !! path = Some text → parse_stream text = Ok j →
         (∀ items, j ≠ JArray items) → h = [])
    ∧ (∀ text items, path ≠ "" → fs !! path = Some text →
         parse_stream text = Ok (JArray items) → h = items)
    ∧ (h ≠ [] → path ≠ ""
         ∧ ∃ text, fs !! path = Some text ∧ parse_stream text = Ok (JArray h)).
Proof.
  rewrite loadSession_cases. eexists. split; [reflexivity |].
  destruct (Str.is_empty path) eqn:Hpath.
  - apply is_empty_true in Hpath. repeat split; try congruence.
  - apply is_empty_false in Hpath.
    destruct (fs !! path) as [text |] eqn:Hfile.
    + destruct (parse_stream text) as [j | e] eqn:Hparse.
      * repeat split; try congruence.
        -- intros text' j' [= <-] Hj' Hnot. rewrite Hparse in Hj'.
           injection Hj' as <-. destruct j; try reflexivity.
           exfalso. eapply Hnot. reflexivity.
        -- intros text' items _ [= <-] Hitems. rewrite Hparse in Hitems.
           injection Hitems as ->. reflexivity.
        -- exists text. split; [reflexivity |].
           destruct j; try congruence.
      * repeat split; try congruence.
    + repeat split; try congruence.
Qed.

(** The constructor returns a client whose history is the one loaded. *)
Lemma new_Impl_total key model_name lang session_name home fs :
  ∃ i, new_Impl key model_name lang session_name home fs = Ok i
    ∧ loadSession fs (session_path i) = Ok (history i)
    ∧ (session_name = "" → session_path i = "" ∧ history i = [])
    ∧ (home = None → session_path i = "" ∧ history i = [])
    ∧ (session_name ≠ "" → home ≠ None → session_path i ≠ "").
Proof.
  unfold new_Impl.
  set (path := if Str.is_empty session_name then "" else _).
  rewrite (loadSession_cases fs path). cbn.
  eexists. split; [reflexivity |]. cbn.
  split; [apply loadSession_cases |].
  split; [| split].
  - subst path. intros ->. split; reflexivity.
  - subst path. intros ->. cbn.
    destruct (Str.is_empty session_name); split; reflexivity.
  - subst path. intros Hname Hhome.
    rewrite (proj2 (is_empty_false _) Hname).
    destruct home as [h |]; [| congruence].
    destruct h; cbn; discriminate.
Qed.

End LoadFacts.

(** ** Synchronous requests *)

Section RequestFacts.
Import Json GeminiClient Spec.
Context `{JsonLib} `{FileSystem}.

(** A body the library cannot parse has no reply text. *)
Lemma reply_text_unparseable (body : string) (e : exception) :
  parse body = Throw e → reply_text body = Throw e.
Proof. intros Hparse. unfold reply_text. now rewrite Hparse. Qed.

(** A body without candidates is ill-structured. *)
Lemma reply_text_no_candidates (body : string) (j : json) :
  parse body = Ok j → contains j "candidates" = false → reply_text body = Ok None.
Proof.
  intros Hparse Hno. unfold reply_text. rewrite Hparse. cbn.
  unfold has_candidate_text. now rewrite Hno.
Qed.

Lemma saveSession_sent (st : State) : sent (saveSession st) = sent st.
Proof.
  unfold saveSession. destruct (Str.is_empty _); [reflexivity |].
  now destruct (dump_error _).
Qed.

Lemma sendRequest_sent post prompt use_history st :
  sent (sendRequest post prompt use_history st).2
  = sent st ++ [build_request (impl st) prompt use_history].
Proof.
  unfold sendRequest.
  destruct (post _) as [err | status body]; [reflexivity |].
  destruct (negb (status =? 200)); [reflexivity |].
  destruct (reply_text body) as [[text |] | e]; try reflexivity.
  destruct (active use_history (impl st)); [| reflexivity].
  destruct (raised _); cbn [snd]; now rewrite saveSession_sent.
Qed.

(** Outside a session the call succeeds exactly when the reply carries a
    text. *)
Lemma sendRequest_success_iff post prompt use_history st :
  active use_history (impl st) = false →
  GeminiResponse.success (sendRequest post prompt use_history st).1
  = negb (failed (post (build_request (impl st) prompt use_history))).
Proof.
  intros Hactive. unfold sendRequest, failed. rewrite Hactive.
  destruct (post _) as [err | status body]; [reflexivity |].
  destruct (negb (status =? 200)); [reflexivity |].
  destruct (reply_text body) as [[text |] | e]; reflexivity.
Qed.

Lemma api_error_nonempty (status : Z) (body : string) : api_error status body ≠ "".
Proof.
  unfold api_error.
  destruct (_ ≫= _) as [text |] eqn:Hmsg; [| discriminate].
  destruct (parse body) as [j |]; cbn in Hmsg; [| discriminate].
  destruct (contains j "error"); cbn in Hmsg.
  - destruct (at_key j "error") as [e1 |]; cbn in Hmsg; [| discriminate].
    destruct (at_key e1 "message") as [m |]; cbn in Hmsg; [| discriminate].
    destruct (get_string m) as [msg |]; cbn in Hmsg; [| discriminate].
    injection Hmsg as <-. discriminate.
  - injection Hmsg as <-. discriminate.
Qed.

(** Let [out] be what the remote end answers to the request.  When [out]
    is a failure (no answer, a status other than 200, a body the library
    cannot parse, a body without the reply text), [sendRequest] returns an
    error ([success] is false, the message is not empty) and the fields of
    the client and the files are as before.  When it is not, the reply text
    is the content of the result.  Outside a session the call succeeds and
    stores nothing.  In a session the user turn and the model turn are
    appended and trimmed, the session file is what the save leaves, and the
    call reports success when the save returns and [JSON parse error: ...]
    with the message of the exception when the save throws: the turns are
    in the history then all the same. *)
Lemma sendRequest_outcomes post prompt use_history st :
  let out := post (build_request (impl st) prompt use_history) in
  let response := (sendRequest post prompt use_history st).1 in
  let st' := (sendRequest post prompt use_history st).2 in
  ((∀ err, out = NetError err → failed out = true)
   ∧ (∀ status body, out = Response status body → status ≠ 200 → failed out = true)
   ∧ (∀ body e, out = Response 200 body → parse body = Throw e → failed out = true)
   ∧ (∀ body e, out = Response 200 body → reply_text body = Throw e → failed out = true)
   ∧ (∀ body, out = Response 200 body → reply_text body = Ok None → failed out = true))
  ∧ (failed out = true →
       GeminiResponse.success response = false
       ∧ GeminiResponse.error response ≠ ""
       ∧ impl st' = impl st
       ∧ files st' = files st)
  ∧ (failed out = false →
       ∃ body text,
         out = Response 200 body
         ∧ reply_text body = Ok (Some text)
         ∧ GeminiResponse.content response = text
         ∧ history (impl st')
           = (if active use_history (impl st)
              then trim (history (impl st) ++ [turn "user" prompt; turn "model" text])
              else history (impl st))
         ∧ (active use_history (impl st) = false →
              response = GeminiResponse.mk text true "" ∧ files st' = files st)
         ∧ (active use_history (impl st) = true →
              files st' !! session_path (impl st)
              = session_file_after (files st) (impl st')
              ∧ response
                = match save_error (files st) (impl st') with
                  | None => GeminiResponse.mk text true ""
                  | Some e =>
                      GeminiResponse.mk text false ("JSON parse error: " +:+ what e)
                  end)).
Proof.
  cbn zeta. split; [| split].
  - unfold failed. destruct (post _) as [err | status body].
    { split; [reflexivity |]. repeat split; congruence. }
    split; [discriminate |]. split.
    { intros status' body' [= <- <-] Hstatus.
      destruct (Z.eqb_spec status 200); [contradiction | reflexivity]. }
    split; [| split].
    + intros body' e [= -> <-] Hparse.
      now rewrite (reply_text_unparseable _ _ Hparse).
    + intros body' e [= -> <-] ->. reflexivity.
    + intros body' [= -> <-] ->. reflexivity.
  - unfold sendRequest, failed.
    destruct (post _) as [err | status body]; [intros _; now repeat split |].
    destruct (Z.eqb_spec status 200) as [-> | Hstatus]; cbn [negb orb].
    2:{ intros _. split; [reflexivity |]. split; [apply api_error_nonempty |].
        split; reflexivity. }
    destruct (reply_text body) as [[text |] | e]; [discriminate | |];
      intros _; now repeat split.
  - intros Hout.
    destruct (sendRequest_replied post prompt use_history st Hout)
      as (body & text & Hbody & Hreply & ->).
    exists body, text. split; [exact Hbody |]. split; [exact Hreply |].
    cbn zeta. destruct (active use_history (impl st)) eqn:Hactive.
    + unfold active in Hactive. apply andb_true_iff in Hactive as [_ Hpath].
      apply negb_true_iff, is_empty_false in Hpath.
      set (pushed := set_impl _ _).
      assert (Hpushed : session_path (impl pushed) ≠ "") by exact Hpath.
      destruct (saveSession_cases pushed Hpushed) as (Himpl & _ & Hfile & _ & Hraised).
      change (files pushed) with (files st) in Hfile, Hraised.
      change (session_path (impl pushed)) with (session_path (impl st)) in Hfile.
      cbn [fst snd]. rewrite <- Hraised.
      split; [now destruct (raised (saveSession pushed)) |].
      split; [now rewrite Himpl |]. split; [discriminate |].
      intros _. split; [exact Hfile | reflexivity].
    + cbn [fst snd]. split; [reflexivity |]. split; [reflexivity |].
      split; [intros _; split; reflexivity | discriminate].
Qed.

End RequestFacts.

(** ** The token budget monitor *)

Section TokenFacts.
Import Json GeminiClient Spec.
Context `{JsonLib} `{FileSystem}.

Lemma wrap_int_small (n : Z) : - 2 ^ 31 ≤ n < 2 ^ 31 → wrap_int n = n.
Proof. intros Hn. unfold wrap_int. rewrite Z.mod_small by lia. lia. Qed.

Lemma token_count_value (body : string) members (n : Z) :
  parse body = Ok (JObject members) →
  assoc "totalTokens" members = Some (JInt n) →
  token_count body = Ok (Some (wrap_int n)).
Proof.
  intros Hparse Hfield. unfold token_count. rewrite Hparse.
  unfold mbind, result_bind, contains, at_key. rewrite Hfield.
  rewrite bool_decide_eq_true_2 by eauto. reflexivity.
Qed.

(** C8.  Without a session path, or with an empty history, the answer is
    [0] and nothing changes: no request is sent.  Otherwise exactly one
    request is sent and the answer is [-1] when the remote end gives no
    answer, a status other than 200, a body the library cannot parse, a body
    without [totalTokens], or a [totalTokens] that is no number; for a
    reply that carries an integer count it is that count as an [int], so
    the count itself, and not negative, for a count in [0 .. 2^31 - 1]. *)
Theorem countSessionTokens_contract post st :
  let out := post (count_request (impl st)) in
  let r := countSessionTokens post st in
  (session_path (impl st) = "" → r = (0, st))
  ∧ (history (impl st) = [] → r = (0, st))
  ∧ (session_path (impl st) ≠ "" → history (impl st) ≠ [] →
       r.2 = mkState (impl st) (files st) (sent st ++ [count_request (impl st)])
       ∧ (∀ err, out = NetError err → r.1 = -1)
       ∧ (∀ status body, out = Response status body → status ≠ 200 → r.1 = -1)
       ∧ (∀ body e, out = Response 200 body → parse body = Throw e → r.1 = -1)
       ∧ (∀ body j, out = Response 200 body → parse body = Ok j →
            contains j "totalTokens" = false → r.1 = -1)
       ∧ (∀ body members v e, out = Response 200 body →
            parse body = Ok (JObject members) →
            assoc "totalTokens" members = Some v → get_int v = Throw e → r.1 = -1)
       ∧ (∀ body members n, out = Response 200 body →
            parse body = Ok (JObject members) →
            assoc "totalTokens" members = Some (JInt n) →
            r.1 = wrap_int n ∧ (0 ≤ n < 2 ^ 31 → r.1 = n ∧ 0 ≤ r.1))).
Proof.
  cbn zeta. unfold countSessionTokens. split; [| split].
  - intros ->. reflexivity.
  - intros ->. cbn. now rewrite orb_true_r.
  - intros Hpath Hhist.
    rewrite (proj2 (is_empty_false _) Hpath), bool_decide_eq_false_2 by exact Hhist.
    cbn [orb].
    destruct (post _) as [err | status body].
    { repeat split; congruence. }
    destruct (Z.eqb_spec status 200) as [-> | Hstatus]; cbn [negb].
    2:{ repeat split; congruence. }
    split.
    { now destruct (token_count body) as [[n |] |]. }
    split; [congruence |]. split; [congruence |].
    split; [| split; [| split]].
    + intros body' e [= <-] Hparse. unfold token_count. now rewrite Hparse.
    + intros body' j [= <-] Hparse Hno. unfold token_count.
      rewrite Hparse. cbn. now rewrite Hno.
    + intros body' members v e [= <-] Hparse Hfield Hget. unfold token_count.
      rewrite Hparse. unfold mbind, result_bind, contains, at_key.
      rewrite Hfield, bool_decide_eq_true_2 by eauto.
      unfold default. cbn [from_option id]. now rewrite Hget.
    + intros body' members n [= <-] Hparse Hfield.
      rewrite (token_count_value _ _ _ Hparse Hfield). cbn [fst].
      split; [reflexivity |]. intros Hn. rewrite wrap_int_small by lia. lia.
Qed.

End TokenFacts.

(** ** The intent classifier *)

Section ClassifierFacts.
Import Json GeminiClient Spec.
Import SmartResponse.
Context `{JsonLib} `{FileSystem}.

(** Runs a [try] block of a classifier on the text [span]: the monad of
    assignments is unfolded and every call into the library is split into
    its normal and its exceptional return. *)
Ltac run_try_block span :=
  cbv beta iota delta [mbind update_bind lift assign mret update_ret];
  destruct (parse span) as [j | e]; [| reflexivity];
  destruct (result_bind _ _ _ (at_key j "type")) as [t | e]; [| reflexivity];
  destruct (String.eqb t "execute");
  [ destruct (result_bind _ _ _ (at_key j "command")) as [cmd | e]; [| reflexivity];
    destruct (contains j "explanation"); [| reflexivity];
    destruct (result_bind _ _ _ (at_key j "explanation")) as [ex | e]; reflexivity
  | destruct (String.eqb t "explain"); [| reflexivity];
    destruct (result_bind _ _ _ (at_key j "response")) as [ex | e]; reflexivity ].

(** The [try] block of [smartQuery], case by case. *)
Lemma smartQuery_try_cases (span : string) (r : SmartResponse.t) :
  smartQuery_try span r
  = match parse span with
    | Throw e => (r, Throw e)
    | Ok j =>
        match type_of j with
        | Throw e => (r, Throw e)
        | Ok t =>
            if String.eqb t "execute" then
              match (c ← at_key j "command"; get_string c) with
              | Throw e => (set_type EXECUTE r, Throw e)
              | Ok cmd =>
                  let r1 := set_command cmd (set_type EXECUTE r) in
                  if contains j "explanation" then
                    match (x ← at_key j "explanation"; get_string x) with
                    | Throw e => (r1, Throw e)
                    | Ok ex => (set_success true (set_explanation ex r1), Ok ())
                    end
                  else (set_success true r1, Ok ())
              end
            else if String.eqb t "explain" then
              match (x ← at_key j "response"; get_string x) with
              | Throw e => (set_type EXPLAIN r, Throw e)
              | Ok ex => (set_success true (set_explanation ex (set_type EXPLAIN r)), Ok ())
              end
            else (set_error ("Unknown response type: " +:+ t) (set_type ERROR r), Ok ())
        end
    end.
Proof.
  unfold smartQuery_try, type_of.
  run_try_block span.
Qed.

(** The [try] block of [smartQueryStreaming], case by case. *)
Lemma smartQueryStreaming_try_cases (span : string) (r : SmartResponse.t) :
  smartQueryStreaming_try span r
  = match parse span with
    | Throw e => (r, Throw e)
    | Ok j =>
        match type_of j with
        | Throw e => (r, Throw e)
        | Ok t =>
            if String.eqb t "execute" then
              match (c ← at_key j "command"; get_string c) with
              | Throw e => (set_type EXECUTE r, Throw e)
              | Ok cmd =>
                  let r1 := set_command cmd (set_type EXECUTE r) in
                  if contains j "explanation" then
                    match (x ← at_key j "explanation"; get_string x) with
                    | Throw e => (r1, Throw e)
                    | Ok ex => (set_success true (set_explanation ex r1), Ok ())
                    end
                  else (set_success true r1, Ok ())
              end
            else if String.eqb t "explain" then
              match (x ← at_key j "response"; get_string x) with
              | Throw e => (set_type EXPLAIN r, Throw e)
              | Ok ex => (set_success true (set_explanation ex (set_type EXPLAIN r)), Ok ())
              end
            else (r, Ok ())
        end
    end.
Proof.
  unfold smartQueryStreaming_try, type_of.
  run_try_block span.
Qed.

(** The two [try] blocks differ on a [type] that is not recognised only. *)
Lemma try_blocks_agree (span : string) (r : SmartResponse.t) :
  (∀ j t, parse span = Ok j → type_of j = Ok t → t = "execute" ∨ t = "explain") →
  smartQueryStreaming_try span r = smartQuery_try span r.
Proof.
  intros Hknown. rewrite smartQueryStreaming_try_cases, smartQuery_try_cases.
  destruct (parse span) as [j | e]; [| reflexivity].
  destruct (type_of j) as [t | e] eqn:Htype; [| reflexivity].
  destruct (Hknown j t eq_refl Htype) as [-> | ->]; reflexivity.
Qed.

(** Where the streaming classifier does agree with the synchronous one:
    on a text with a [{]...[}] span whose [type], if it has one, is
    [execute] or [explain]. *)
Lemma classifiers_agree_on_span (text span : string) (r : SmartResponse.t) :
  json_span text = Some span →
  (∀ j t, parse span = Ok j → type_of j = Ok t → t = "execute" ∨ t = "explain") →
  smartQueryStreaming_classify text r = smartQuery_classify text r.
Proof.
  intros Hspan Hknown. unfold smartQueryStreaming_classify, smartQuery_classify.
  rewrite Hspan. cbn [default from_option]. unfold default. cbn [from_option id].
  now rewrite try_blocks_agree.
Qed.

(** A text without a span comes back from the streaming classifier as it
    went in: nothing is assigned. *)
Lemma smartQueryStreaming_classify_no_span (text : string) (r : SmartResponse.t) :
  json_span text = None → smartQueryStreaming_classify text r = r.
Proof.
  intros Hspan. unfold smartQueryStreaming_classify. now rewrite Hspan.
Qed.







End ClassifierFacts.

(** ** The streaming decoder *)

Section LineFacts.

Lemma find_from_succ (pat s : string) (i : nat) :
  Str.find_from pat s (S i) = S <$> Str.find_from pat s i.
Proof.
  revert i; induction s as [|c s IH]; intros i; simpl.
  - now destruct (Str.starts_with pat "").
  - destruct (Str.starts_with pat (String c s)); [reflexivity | apply IH].
Qed.

Lemma find_char_cons (c b : ascii) (s : string) :
  Str.find_char c (String b s)
  = if Ascii.eqb b c then Some 0%nat else S <$> Str.find_char c s.
Proof.
  unfold Str.find_char, Str.find, Str.of_char. cbn [Str.find_from Str.starts_with].
  rewrite Ascii.eqb_sym. destruct (Ascii.eqb b c); [reflexivity |].
  apply find_from_succ.
Qed.

Lemma find_nl_nil : Str.find GeminiClient.NL "" = None.
Proof. reflexivity. Qed.

Lemma find_nl_cons (c : ascii) (s : string) :
  Str.find GeminiClient.NL (String c s)
  = if Ascii.eqb c Str.nl then Some 0%nat else S <$> Str.find GeminiClient.NL s.
Proof. apply find_char_cons. Qed.

Lemma find_nl_none (s : string) :
  Str.find GeminiClient.NL s = None ↔ Str.mem Str.nl s = false.
Proof.
  induction s as [|c s IH]; [easy |].
  rewrite find_nl_cons. cbn [Str.mem].
  destruct (Ascii.eqb c Str.nl); cbn; [easy |].
  rewrite <- IH. destruct (Str.find GeminiClient.NL s); cbn; easy.
Qed.

Lemma find_nl_lt (s : string) (pos : nat) :
  Str.find GeminiClient.NL s = Some pos → (pos < String.length s)%nat.
Proof.
  revert pos; induction s as [|c s IH]; intros pos; [discriminate |].
  rewrite find_nl_cons. destruct (Ascii.eqb c Str.nl).
  - intros [= <-]. simpl. lia.
  - destruct (Str.find GeminiClient.NL s) as [n |]; [| discriminate].
    intros [= <-]. specialize (IH n eq_refl). simpl. lia.
Qed.

Lemma slength_drop (n : nat) (s : string) :
  String.length (Str.drop n s) = (String.length s - n)%nat.
Proof.
  revert s; induction n as [|n IH]; intros [|c s]; simpl; try reflexivity.
  apply IH.
Qed.

Lemma sconcat_app (l1 l2 : list string) :
  Str.concat (l1 ++ l2) = Str.concat l1 +:+ Str.concat l2.
Proof.
  induction l1 as [|x l1 IH]; [reflexivity |].
  cbn [app Str.concat]. now rewrite IH, sapp_assoc.
Qed.

Lemma smem_app (c : ascii) (s t : string) :
  Str.mem c (s +:+ t) = Str.mem c s || Str.mem c t.
Proof.
  induction s as [|b s IH]; [reflexivity |].
  rewrite sapp_cons. cbn [Str.mem]. now rewrite IH, orb_assoc.
Qed.

(** The first occurrence of a character splits the string around it. *)
Lemma find_char_split (c : ascii) (s : string) (n : nat) :
  Str.find_char c s = Some n →
  Str.drop n s = String c (Str.drop (S n) s) ∧ Str.mem c (Str.take n s) = false.
Proof.
  revert n; induction s as [|b s IH]; intros n; [discriminate |].
  rewrite find_char_cons. destruct (Ascii.eqb_spec b c) as [-> | Hbc].
  - intros [= <-]. split; reflexivity.
  - destruct (Str.find_char c s) as [m |]; [| discriminate].
    intros [= <-]. destruct (IH m eq_refl) as [Hdrop Hmem].
    split; [exact Hdrop |]. cbn [Str.take Str.mem]. rewrite Hmem.
    now apply Ascii.eqb_neq in Hbc as ->.
Qed.

Lemma rfind_char_none (c : ascii) (s : string) :
  Str.rfind_char c s = None → Str.mem c s = false.
Proof.
  induction s as [|b s IH]; [reflexivity |]. cbn [Str.rfind_char Str.mem].
  destruct (Str.rfind_char c s); [discriminate |].
  destruct (Ascii.eqb b c); [discriminate |]. intros _. now apply IH.
Qed.

(** The last occurrence of a character splits the string around it. *)
Lemma rfind_char_split (c : ascii) (s : string) (n : nat) :
  Str.rfind_char c s = Some n →
  Str.drop n s = String c (Str.drop (S n) s) ∧ Str.mem c (Str.drop (S n) s) = false.
Proof.
  revert n; induction s as [|b s IH]; intros n; [discriminate |].
  cbn [Str.rfind_char].
  destruct (Str.rfind_char c s) as [m |] eqn:Hlast.
  - intros [= <-]. destruct (IH m eq_refl) as [Hdrop Hmem]. split; assumption.
  - destruct (Ascii.eqb_spec b c) as [-> | Hbc]; [| discriminate].
    intros [= <-]. split; [reflexivity |]. cbn [Str.drop].
    now apply rfind_char_none.
Qed.

Lemma drop_drop (a b : nat) (s : string) :
  Str.drop a (Str.drop b s) = Str.drop (b + a) s.
Proof.
  revert s; induction b as [|b IH]; intros s; [reflexivity |].
  destruct s as [|c s]; [now destruct a |]. apply IH.
Qed.

Lemma back_take (k : nat) (s rest : string) (c : ascii) :
  Str.drop k s = String c rest → Str.back (Str.take (S k) s) = Some c.
Proof.
  revert s; induction k as [|k IH]; intros s Hdrop.
  - cbn [Str.drop] in Hdrop. rewrite Hdrop. reflexivity.
  - destruct s as [|b s]; [discriminate |]. cbn [Str.drop] in Hdrop.
    specialize (IH s Hdrop).
    destruct s as [|b' s]; [destruct k; discriminate |].
    exact IH.
Qed.

End LineFacts.

Section StreamFacts.
Import Json GeminiClient Spec.
Context `{JsonLib} `{FileSystem}.

(** The complete lines of a byte sequence, read off the first line feed. *)
Lemma chunks_of_find (s cur : string) :
  chunks_of s cur
  = match Str.find NL s with
    | Some pos =>
        option_list (decode_line (cur +:+ Str.take pos s))
        ++ chunks_of (Str.drop (S pos) s) ""
    | None => []
    end.
Proof.
  revert cur; induction s as [|c s IH]; intros cur; [reflexivity |].
  rewrite find_nl_cons. cbn [chunks_of].
  destruct (Ascii.eqb c Str.nl).
  - cbn [Str.take Str.drop]. now rewrite sapp_empty_r.
  - rewrite IH. destruct (Str.find NL s) as [pos |]; cbn; [| reflexivity].
    now rewrite sapp_assoc.
Qed.

Lemma pending_find (s cur : string) :
  pending s cur
  = match Str.find NL s with
    | Some pos => pending (Str.drop (S pos) s) ""
    | None => cur +:+ s
    end.
Proof.
  revert cur; induction s as [|c s IH]; intros cur.
  - cbn. now rewrite sapp_empty_r.
  - rewrite find_nl_cons. cbn [pending].
    destruct (Ascii.eqb c Str.nl); [reflexivity |].
    rewrite IH. destruct (Str.find NL s) as [pos |]; cbn; [reflexivity |].
    now rewrite sapp_assoc.
Qed.

(** Bytes delivered later extend the lines seen so far. *)
Lemma chunks_of_app (a b cur : string) :
  chunks_of (a +:+ b) cur = chunks_of a cur ++ chunks_of b (pending a cur).
Proof.
  revert cur; induction a as [|c a IH]; intros cur; [reflexivity |].
  rewrite sapp_cons. cbn [chunks_of pending].
  destruct (Ascii.eqb c Str.nl); rewrite IH; [| reflexivity].
  now rewrite <- List.app_assoc.
Qed.

Lemma pending_app (a b cur : string) :
  pending (a +:+ b) cur = pending b (pending a cur).
Proof.
  revert cur; induction a as [|c a IH]; intros cur; [reflexivity |].
  rewrite sapp_cons. cbn [pending].
  destruct (Ascii.eqb c Str.nl); apply IH.
Qed.

Lemma chunks_of_no_nl (p cur : string) :
  Str.mem Str.nl p = false → chunks_of p cur = [] ∧ pending p cur = cur +:+ p.
Proof.
  revert cur; induction p as [|c p IH]; intros cur Hno.
  - cbn. now rewrite sapp_empty_r.
  - cbn [Str.mem] in Hno. apply orb_false_iff in Hno as [Hc Hp].
    cbn [chunks_of pending]. rewrite Hc.
    destruct (IH (cur +:+ Str.of_char c) Hp) as [-> ->].
    now rewrite sapp_assoc.
Qed.

Lemma pending_no_nl (s cur : string) :
  Str.mem Str.nl cur = false → Str.mem Str.nl (pending s cur) = false.
Proof.
  revert cur; induction s as [|c s IH]; intros cur Hcur; [exact Hcur |].
  cbn [pending]. destruct (Ascii.eqb c Str.nl) eqn:Hc.
  - now apply IH.
  - apply IH. rewrite smem_app, Hcur. cbn. now rewrite Hc.
Qed.

(** The code for one line does what the specification says of a line. *)
Lemma handle_line_decode (line acc : string) (d : list string) (cb : bool) :
  handle_line line (acc, d) cb
  = (acc +:+ Str.concat (option_list (decode_line line)),
     d ++ (if cb then option_list (decode_line line) else [])).
Proof.
  unfold handle_line, decode_line, Str.substr_from.
  assert (Hstrip :
    (if negb (Str.is_empty line) && bool_decide (Str.back line = Some Str.cr)
     then Str.pop_back line else line)
    = match Str.back line with
      | Some c => if Ascii.eqb c Str.cr then Str.pop_back line else line
      | None => line
      end).
  { destruct (Str.back line) as [c |] eqn:Hback.
    - assert (Str.is_empty line = false) as -> by (destruct line; [discriminate | reflexivity]).
      cbn [negb andb]. destruct (Ascii.eqb_spec c Str.cr) as [-> | Hc].
      + now rewrite bool_decide_eq_true_2.
      + rewrite bool_decide_eq_false_2; [reflexivity | congruence].
    - rewrite bool_decide_eq_false_2 by discriminate. now rewrite andb_false_r. }
  rewrite Hstrip. clear Hstrip.
  destruct (Str.starts_with "data: " _).
  - destruct (reply_text _) as [[chunk |] | e];
      unfold option_list; cbn [option_rect Str.concat fst snd].
    + rewrite sapp_empty_r. destruct cb; [reflexivity | now rewrite app_nil_r].
    + rewrite sapp_empty_r. destruct cb; now rewrite app_nil_r.
    + rewrite sapp_empty_r. destruct cb; now rewrite app_nil_r.
  - unfold option_list; cbn [option_rect Str.concat].
    rewrite sapp_empty_r. destruct cb; now rewrite app_nil_r.
Qed.

(** The loop of the callback, with enough fuel for the buffer, reads all
    complete lines of the buffer and leaves the rest. *)
Lemma sse_loop_chunks (fuel : nat) (buf acc : string) (cb td : bool) (ty : string)
    (d : list string) :
  (String.length buf < fuel)%nat →
  sse_loop fuel (mkCtx buf acc cb td ty) d
  = (mkCtx (pending buf "") (acc +:+ Str.concat (chunks_of buf "")) cb td ty,
     d ++ (if cb then chunks_of buf "" else [])).
Proof.
  revert buf acc d; induction fuel as [|fuel IH]; intros buf acc d Hfuel; [lia |].
  cbn [sse_loop buffer accumulated callback type_determined ctx_type].
  rewrite chunks_of_find, pending_find.
  destruct (Str.find NL buf) as [pos |] eqn:Hfind.
  - pose proof (find_nl_lt _ _ Hfind) as Hpos.
    unfold Str.substr, Str.erase. cbn [Str.drop Str.take].
    rewrite sapp_nil_l, handle_line_decode.
    replace (pos + 1)%nat with (S pos) by lia.
    rewrite IH by (rewrite slength_drop; lia).
    rewrite sconcat_app, sapp_assoc. f_equal.
    rewrite <- List.app_assoc. f_equal.
    destruct cb; reflexivity.
  - cbn [Str.concat]. rewrite sapp_empty_r, sapp_nil_l.
    destruct cb; now rewrite app_nil_r.
Qed.

(** What one call of the callback does, in closed form. *)
Lemma curlWriteCallback_chunks (data : string) (ctx : CurlStreamContext)
    (d : list string) :
  curlWriteCallback data ctx d
  = (String.length data,
     (mkCtx (pending (buffer ctx +:+ data) "")
            (accumulated ctx +:+ Str.concat (chunks_of (buffer ctx +:+ data) ""))
            (callback ctx) (type_determined ctx) (ctx_type ctx),
      d ++ (if callback ctx then chunks_of (buffer ctx +:+ data) "" else []))).
Proof.
  unfold curlWriteCallback. cbn [buffer]. rewrite sse_loop_chunks by lia. reflexivity.
Qed.

(** C7.  Delivering a byte sequence in two consecutive writes [a] and [b]
    leaves the decoder in the state a single write of [a +:+ b] leaves it
    in: the same accumulated text, the same texts handed to the sink in the
    same order, the same bytes waiting for their line end.  The texts
    accumulated and handed to the sink are those of the complete lines of
    the bytes received, in the order of the lines; a line without the
    marker, or whose fragment does not parse or has no text, adds nothing.
    When the callback returns no complete line is left in the buffer. *)
Theorem curlWriteCallback_split (a b : string) (ctx : CurlStreamContext)
    (delivered : list string) :
  let whole := (curlWriteCallback (a +:+ b) ctx delivered).2 in
  let first := (curlWriteCallback a ctx delivered).2 in
  let second := (curlWriteCallback b first.1 first.2).2 in
  let bytes := buffer ctx +:+ a +:+ b in
  second = whole
  ∧ accumulated whole.1 = accumulated ctx +:+ Str.concat (chunks_of bytes "")
  ∧ whole.2 = delivered ++ (if callback ctx then chunks_of bytes "" else [])
  ∧ buffer whole.1 = pending bytes ""
  ∧ Str.find NL (buffer whole.1) = None
  ∧ (curlWriteCallback (a +:+ b) ctx delivered).1 = String.length (a +:+ b).
Proof.
  cbn zeta. rewrite !curlWriteCallback_chunks. cbn [fst snd buffer accumulated callback
    type_determined ctx_type].
  split; [| repeat split; apply find_nl_none, pending_no_nl; reflexivity].
  assert (Hrest : Str.mem Str.nl (pending (buffer ctx +:+ a) "") = false)
    by (apply pending_no_nl; reflexivity).
  rewrite <- sapp_assoc.
  rewrite (chunks_of_app (buffer ctx +:+ a) b ""), (pending_app (buffer ctx +:+ a) b "").
  rewrite (chunks_of_app (pending (buffer ctx +:+ a) "") b ""),
          (pending_app (pending (buffer ctx +:+ a) "") b "").
  destruct (chunks_of_no_nl _ "" Hrest) as [-> ->]. rewrite sapp_nil_l.
  cbn [app]. rewrite sconcat_app, sapp_assoc.
  f_equal. rewrite <- List.app_assoc. f_equal.
  destruct (callback ctx); reflexivity.
Qed.

End StreamFacts.

(** ** The code on concrete inputs *)

Section Evaluations.
Import Json GeminiClient Spec.
Local Existing Instance Samples.home_u.



(** C3 on two accumulated texts.  A reply in plain words has no span: the
    synchronous classifier explains with it, the streaming classifier
    assigns nothing and returns the result it started from, without
    [success] and without a type.  On a reply whose [type] is not
    recognised the synchronous classifier reports the error and the
    streaming classifier again assigns nothing.  The whole streaming call,
    fed the plain reply as one event, hands it to the sink and returns that
    unassigned result. *)
Theorem smartQueryStreaming_classify_diverges :
  (smartQuery_classify "hello" unset = explained "hello"
   ∧ smartQueryStreaming_classify "hello" unset = unset)
  ∧ (smartQuery_classify (Str.quoted "{'type':'other'}") unset
     = SmartResponse.mk (Some SmartResponse.ERROR) "" ""
         "Unknown response type: other" false
     ∧ smartQueryStreaming_classify (Str.quoted "{'type':'other'}") unset = unset)
  ∧ unset = SmartResponse.mk None "" "" "" false
  ∧ (smartQueryStreaming (Some (Samples.streams "hello")) "say hello" true
       Samples.ephemeral).1
    = (unset, ["hello"])
  ∧ (smartQuery (Samples.replies "hello") "say hello" Samples.ephemeral).1
    = explained "hello".
Proof. vm_compute. repeat split. Qed.

(** Where both classifiers see a recognised reply they agree. *)
Example classifiers_agree_on_execute :
  let text := Str.quoted "Sure: {'type':'execute','command':'ls -la'} done" in
  smartQuery_classify text unset
  = SmartResponse.mk (Some SmartResponse.EXECUTE) "ls -la" "" "" true
  ∧ smartQueryStreaming_classify text unset = smartQuery_classify text unset.
Proof. vm_compute. split; reflexivity. Qed.

Lemma session_bounded_after_append_witness :
  session_path (impl Samples.full_session) ≠ ""
  ∧ bounded_recent (history (impl Samples.full_session)) [turn "user" "next"]
      (history (impl (addToHistory "user" "next" Samples.full_session)))
  ∧ length (history (impl (addToHistory "user" "next" Samples.full_session))) = 19%nat.
Proof.
  assert (Hpath : session_path (impl Samples.full_session) ≠ "") by discriminate.
  split; [exact Hpath |].
  destruct (session_bounded_after_append Samples.full_session Hpath) as (_ & Hadd & _).
  split; [apply Hadd | vm_compute; reflexivity].
Defined.

Lemma loadSession_total_witness :
  loadSession ∅ Samples.session_file = Ok []
  ∧ loadSession {[Samples.session_file := ""]} Samples.session_file = Ok []
  ∧ loadSession {[Samples.session_file := Str.quoted "[{'role': 'user', 'par"]}
      Samples.session_file = Ok []
  ∧ loadSession {[Samples.session_file := Str.quoted "{'role': 'user'}"]}
      Samples.session_file = Ok []
  ∧ loadSession {[Samples.session_file := dump (Some 2%nat) (JArray [turn "user" "hi"])]}
      Samples.session_file = Ok [turn "user" "hi"].
Proof.
  split.
  { destruct (loadSession_total ∅ Samples.session_file) as (h & Hload & _ & Hmissing & _).
    rewrite Hload. f_equal. apply Hmissing. reflexivity. }
  split.
  { destruct (loadSession_total {[Samples.session_file := ""]} Samples.session_file)
      as (h & Hload & _ & _ & _ & Hempty & _).
    rewrite Hload. f_equal. eapply Hempty; vm_compute; reflexivity. }
  vm_compute. repeat split.
Defined.

(** C6, as stated, fails: a session file that is not well-formed is
    loaded with a history that is not empty.  The first file holds a saved
    session followed by bytes that make the text as a whole unparseable;
    the second holds an array whose elements are no turns. *)
Lemma loadSession_loads_malformed_store :
  (∃ e, parse (dump (Some 2%nat) (JArray [turn "user" "hi"]) +:+ "}}} garbage")
        = Throw e)
  ∧ loadSession
      {[Samples.session_file
        := dump (Some 2%nat) (JArray [turn "user" "hi"]) +:+ "}}} garbage"]}
      Samples.session_file
    = Ok [turn "user" "hi"]
  ∧ loadSession {[Samples.session_file := Str.quoted "[1,'x',null]"]}
      Samples.session_file
    = Ok [JInt 1; JString "x"; JNull].
Proof.
  split; [eexists; vm_compute; reflexivity |]. vm_compute. split; reflexivity.
Qed.

(** The stream reader takes one value from the front of the file: an array
    followed by other bytes is loaded, an array preceded by them is not. *)
Example loadSession_reads_leading_value :
  loadSession {[Samples.session_file := "[1, 2] and more"]} Samples.session_file
  = Ok [JInt 1; JInt 2]
  ∧ loadSession {[Samples.session_file := "and more [1, 2]"]} Samples.session_file
    = Ok [].
Proof. vm_compute. split; reflexivity. Qed.

Lemma countSessionTokens_contract_witness :
  (countSessionTokens (λ _, Response 200 (Str.quoted "{'totalTokens': 42}"))
     Samples.short_session).1 = 42
  ∧ countSessionTokens (λ _, Response 200 (Str.quoted "{'totalTokens': 42}"))
      Samples.ephemeral = (0, Samples.ephemeral)
  ∧ (countSessionTokens (λ _, Response 200 (Str.quoted "{'tokens': 42}"))
       Samples.short_session).1 = -1
  ∧ (countSessionTokens (λ _, NetError "Connection") Samples.short_session).1 = -1.
Proof.
  split.
  { destruct (countSessionTokens_contract
                (λ _, Response 200 (Str.quoted "{'totalTokens': 42}"))
                Samples.short_session) as (_ & _ & Hrun).
    destruct Hrun as (_ & _ & _ & _ & _ & _ & Hcount); [discriminate | discriminate |].
    destruct (Hcount (Str.quoted "{'totalTokens': 42}") [("totalTokens", JInt 42)] 42)
      as [_ Hvalue]; [reflexivity | vm_compute; reflexivity | reflexivity |].
    apply Hvalue. lia. }
  vm_compute. repeat split.
Defined.

Lemma simulate_never_downgrades_witness :
  Simulator.isDangerous "rm -rf build" = true
  ∧ Simulator.is_destructive
      (Simulator.simulate (Samples.replies "NIVEL_DESTRUTIVIDADE: BAIXO")
         "rm -rf build" Samples.ephemeral).1 = true
  ∧ Simulator.isDangerous "ls" = false
  ∧ Simulator.is_destructive
      (Simulator.simulate (Samples.replies "NIVEL_DESTRUTIVIDADE: ALTO")
         "ls" Samples.ephemeral).1 = true.
Proof.
  split; [reflexivity |]. split.
  { apply (simulate_never_downgrades (Samples.replies "NIVEL_DESTRUTIVIDADE: BAIXO")
             "rm -rf build" Samples.ephemeral). reflexivity. }
  vm_compute. split; reflexivity.
Defined.

(** The three ways a save ends, on one append each: in the session [proj]
    the turn is written; with an output cut inside a character the file is
    left empty and [dump]'s exception leaves the call; in the session [a/b]
    no file appears and the change of mode throws.  The turn is in the
    history each time. *)
Example addToHistory_samples :
  let stored := addToHistory "user" "hi" Samples.short_session in
  let cut := addToHistory "user" Samples.cut_output Samples.short_session in
  let nested := addToHistory "user" "hi" Samples.nested_session in
  (raised stored = None ∧ persisted stored
   ∧ length (history (impl stored)) = 3%nat)
  ∧ (raised cut = Some NlohmannModel.incomplete_utf8
     ∧ files cut !! Samples.session_file = Some ""
     ∧ length (history (impl cut)) = 3%nat)
  ∧ (raised nested = Some (missing "/home/u/.tt/a/b.json")
     ∧ files nested = ∅
     ∧ history (impl nested) = [turn "user" "hi"]).
Proof. vm_compute. repeat split. Qed.


(** The same call in a session whose file can be written succeeds and
    stores both turns; a request that fails leaves the session as it was. *)
Example sendRequest_samples :
  let ok := sendRequest (Samples.replies "hello") "hi" true Samples.short_session in
  let down := sendRequest (λ _, NetError "Connection") "hi" true Samples.short_session in
  ok.1 = GeminiResponse.mk "hello" true ""
  ∧ length (history (impl ok.2)) = 4%nat
  ∧ persisted ok.2
  ∧ GeminiResponse.success down.1 = false
  ∧ impl down.2 = impl Samples.short_session
  ∧ files down.2 = files Samples.short_session.
Proof. vm_compute. repeat split. Qed.

(** Sample event stream: the texts of the two complete fragments arrive in
    order, wherever the bytes are cut; the last fragment has no line end
    yet and stays in the buffer. *)
Example curlWriteCallback_sample :
  let one := perform [Samples.sse_bytes] (new_ctx true) [] in
  accumulated one.1 = "Hello" ∧ one.2 = ["Hel"; "lo"]
  ∧ buffer one.1 = "data: " +:+ Samples.reply_body "!"
  ∧ forallb
      (λ n,
         let two :=
           perform [Str.take n Samples.sse_bytes; Str.drop n Samples.sse_bytes]
             (new_ctx true) [] in
         String.eqb (accumulated two.1) "Hello"
         && bool_decide (two.2 = ["Hel"; "lo"])
         && String.eqb (buffer two.1) (buffer one.1))
      (seq 0 (String.length Samples.sse_bytes)) = true.
Proof. vm_compute. repeat split. Qed.

End Evaluations.

(** ** The span the classifiers parse *)

Section SpanFacts.
Import Json GeminiClient Spec.
Context `{JsonLib} `{FileSystem}.

(** The span of a reply starts at the first [{] of the reply and ends at
    its last [}]: no [{] stands before it, no [}] after it. *)
Lemma json_span_spec (content span : string) :
  json_span content = Some span →
  ∃ before after,
    content = before +:+ span +:+ after
    ∧ Str.mem "{" before = false
    ∧ Str.mem "}" after = false
    ∧ Str.starts_with "{" span = true
    ∧ Str.back span = Some "}"%char.
Proof.
  unfold json_span.
  destruct (Str.find_char "{" content) as [start |] eqn:Hfirst; [| discriminate].
  destruct (Str.rfind_char "}" content) as [end_ |] eqn:Hlast; [| discriminate].
  destruct (Nat.ltb_spec start end_) as [Hlt |]; [| discriminate].
  intros [= <-].
  destruct (find_char_split _ _ _ Hfirst) as [Hopen Hbefore].
  destruct (rfind_char_split _ _ _ Hlast) as [Hclose Hafter].
  exists (Str.take start content), (Str.drop (S end_) content).
  unfold Str.substr. replace (end_ - start + 1)%nat with (S (end_ - start)) by lia.
  repeat split; try assumption.
  - rewrite <- (stake_app_drop start content) at 1. f_equal.
    rewrite <- (stake_app_drop (S (end_ - start)) (Str.drop start content)) at 1.
    f_equal. rewrite drop_drop. f_equal. lia.
  - rewrite Hopen. reflexivity.
  - apply (back_take _ _ (Str.drop (S end_) content)).
    rewrite drop_drop. replace (start + (end_ - start))%nat with end_ by lia.
    exact Hclose.
Qed.

Example json_span_samples :
  json_span (Str.quoted "  blah ```json {'type':'execute','command':'ls -la'} ``` blah")
  = Some (Str.quoted "{'type':'execute','command':'ls -la'}")
  ∧ json_span "no braces at all" = None
  ∧ json_span "} reversed {" = None
  ∧ json_span "a {b} c {d} e" = Some "{b} c {d}".
Proof. vm_compute. repeat split. Qed.

End SpanFacts.

(** * Further properties of the code *)

(** ** More facts about byte strings *)

Section MoreStrFacts.

Lemma tolower_idem (c : ascii) : Str.tolower (Str.tolower c) = Str.tolower c.
Proof. destruct c as [[] [] [] [] [] [] [] []]; reflexivity. Qed.

Lemma map_tolower_idem (s : string) :
  Str.map Str.tolower (Str.map Str.tolower s) = Str.map Str.tolower s.
Proof.
  induction s as [|c s IH]; [reflexivity |].
  cbn [Str.map]. now rewrite tolower_idem, IH.
Qed.

Lemma smap_app (f : ascii → ascii) (a b : string) :
  Str.map f (a +:+ b) = Str.map f a +:+ Str.map f b.
Proof.
  induction a as [|c a IH]; [reflexivity |].
  rewrite sapp_cons. cbn [Str.map]. now rewrite IH, sapp_cons.
Qed.

Lemma starts_with_app (p t : string) : Str.starts_with p (p +:+ t) = true.
Proof.
  induction p as [|c p IH]; [reflexivity |].
  rewrite sapp_cons. cbn [Str.starts_with]. now rewrite Ascii.eqb_refl.
Qed.

Lemma find_from_ge (p s : string) (i n : nat) :
  Str.find_from p s i = Some n → (i ≤ n)%nat.
Proof.
  revert i; induction s as [|c s IH]; intros i; cbn [Str.find_from].
  - destruct (Str.starts_with p ""); [intros [= <-]; lia | discriminate].
  - destruct (Str.starts_with p (String c s)); [intros [= <-]; lia |].
    intros Hfind. apply IH in Hfind. lia.
Qed.

(** [s.find(p) == 0] says that [s] starts with [p]. *)
Lemma find_zero (p s : string) :
  Str.find p s = Some 0%nat ↔ Str.starts_with p s = true.
Proof.
  unfold Str.find. destruct s as [|c s]; cbn [Str.find_from].
  - destruct (Str.starts_with p ""); split; congruence.
  - destruct (Str.starts_with p (String c s)); split; try congruence.
    intros Hfind. apply find_from_ge in Hfind. lia.
Qed.

Lemma contains_app (p a b : string) : Str.contains p (a +:+ p +:+ b) = true.
Proof.
  unfold Str.contains, Str.find.
  assert (Hsome : ∀ i, ∃ n, Str.find_from p (a +:+ p +:+ b) i = Some n).
  { induction a as [|c a IH]; intros i.
    - rewrite sapp_nil_l. exists i.
      destruct (p +:+ b) as [|c r] eqn:Hpb; cbn [Str.find_from];
        rewrite <- Hpb, starts_with_app; reflexivity.
    - rewrite sapp_cons. cbn [Str.find_from].
      destruct (Str.starts_with p _); [eauto |]. apply IH. }
  destruct (Hsome 0%nat) as [n ->]. reflexivity.
Qed.

(** What occurs in a lower-cased string has no upper-case letter. *)
Lemma starts_with_lower (p s : string) :
  Str.starts_with p (Str.map Str.tolower s) = true → Props.lowercase p = true.
Proof.
  unfold Props.lowercase. rewrite String.eqb_eq.
  revert s; induction p as [|c p IH]; intros s; [reflexivity |].
  destruct s as [|b s]; [discriminate |]. cbn [Str.map Str.starts_with].
  destruct (Ascii.eqb_spec c (Str.tolower b)) as [-> | _]; [| discriminate].
  intros Hrest. now rewrite tolower_idem, (IH s Hrest).
Qed.

Lemma contains_lower (p s : string) :
  Str.contains p (Str.map Str.tolower s) = true → Props.lowercase p = true.
Proof.
  unfold Str.contains, Str.find. generalize 0%nat.
  induction s as [|c s IH]; intros i; cbn [Str.map Str.find_from].
  - destruct (Str.starts_with p "") eqn:Hstart; [| discriminate].
    intros _. apply (starts_with_lower p ""). exact Hstart.
  - destruct (Str.starts_with p (String _ _)) eqn:Hstart.
    + intros _. apply (starts_with_lower p (String c s)). exact Hstart.
    + apply IH.
Qed.

Lemma lowercase_app (a p : string) :
  Props.lowercase (a +:+ p) = true → Props.lowercase p = true.
Proof.
  unfold Props.lowercase. rewrite !String.eqb_eq, smap_app.
  induction a as [|c a IH]; [now rewrite !sapp_nil_l |].
  cbn [Str.map]. rewrite !sapp_cons. intros [= _ Hrest]. now apply IH.
Qed.

Lemma existsb_filter_dead {A : Type} (f live : A → bool) (l : list A) :
  (∀ x, live x = false → f x = false) →
  existsb f l = existsb f (List.filter live l).
Proof.
  intros Hdead. induction l as [|x l IH]; [reflexivity |].
  cbn [existsb List.filter]. destruct (live x) eqn:Hx; cbn [existsb].
  - now rewrite IH.
  - now rewrite (Hdead x Hx), IH.
Qed.

End MoreStrFacts.

(** ** More on the danger classifiers *)

Section MoreDangerFacts.
Import Props.

Lemma command_rule_dead (cmd dangerous : string) :
  lowercase dangerous = false →
  Danger.command_rule (Str.map Str.tolower cmd) dangerous = false.
Proof.
  intros Hupper. unfold Danger.command_rule.
  assert (Hno : ∀ pre, Str.contains (pre +:+ dangerous) (Str.map Str.tolower cmd) = false).
  { intros pre. destruct (Str.contains _ _) eqn:Hc; [| reflexivity].
    apply contains_lower, lowercase_app in Hc. congruence. }
  rewrite !Hno. rewrite bool_decide_eq_false_2; [reflexivity |].
  intros Hzero. apply find_zero, starts_with_lower in Hzero. congruence.
Qed.

(** X1.  The entries of [DANGEROUS_COMMANDS] spelled with an upper-case
    letter never fire, the command being lower-cased before it is compared:
    the verdict of [isDangerousCommand] is the verdict over the list without
    them, for every command.  They are [pacman -R], [chmod -R], [chown -R],
    [chgrp -R] and [iptables -F]. *)
Theorem isDangerousCommand_uppercase_entries_dead (cmd : string) :
  Danger.isDangerousCommand cmd
  = existsb (Danger.command_rule (Str.map Str.tolower cmd))
      (List.filter lowercase Danger.DANGEROUS_COMMANDS)
    || existsb (Danger.pattern_rule (Str.map Str.tolower cmd)) Danger.DANGEROUS_PATTERNS
  ∧ List.filter (λ d, negb (lowercase d)) Danger.DANGEROUS_COMMANDS
    = ["pacman -R"; "chmod -R"; "chown -R"; "chgrp -R"; "iptables -F"]
  ∧ List.filter (λ d, negb (lowercase d)) Danger.DANGEROUS_PATTERNS = [].
Proof.
  split; [| split; reflexivity].
  unfold Danger.isDangerousCommand. cbn zeta. f_equal.
  apply existsb_filter_dead. intros d. apply command_rule_dead.
Qed.

(** X2.  The same holds of [Simulator::isDangerous]: its patterns
    [chmod -R 777 /] and [chown -R] never occur in a lower-cased command, so
    the verdict is the verdict over the other patterns and the rule on
    [sudo]. *)
Theorem isDangerous_uppercase_patterns_dead (command : string) :
  Simulator.isDangerous command
  = existsb (λ pattern, Str.contains pattern (Str.map Str.tolower command))
      (List.filter lowercase Simulator.dangerous_patterns_)
    || Simulator.sudo_rule (Str.map Str.tolower command)
  ∧ List.filter (λ d, negb (lowercase d)) Simulator.dangerous_patterns_
    = ["chmod -R 777 /"; "chown -R"].
Proof.
  split; [| reflexivity].
  unfold Simulator.isDangerous, Simulator.pattern_rule. cbn zeta. f_equal.
  apply existsb_filter_dead. intros d Hupper.
  destruct (Str.contains d _) eqn:Hc; [| reflexivity].
  apply contains_lower in Hc. congruence.
Qed.

(** X3.  A command that begins, in any letter case, with an entry of
    [DANGEROUS_COMMANDS] that is written without upper-case letter is
    flagged whatever follows: the entry is compared with the start of the
    command and not with its first word.  For the five entries written with
    an upper-case letter this does not hold: [pacman -R foo] and
    [chown -R root /etc] begin with an entry and are not flagged. *)
Theorem isDangerousCommand_prefix (entry head rest : string) :
  entry ∈ Danger.DANGEROUS_COMMANDS →
  lowercase entry = true →
  Str.map Str.tolower head = Str.map Str.tolower entry →
  Danger.isDangerousCommand (head +:+ rest) = true.
Proof.
  intros Hin Hlower Hhead. unfold lowercase in Hlower.
  apply String.eqb_eq in Hlower. rewrite Hlower in Hhead.
  unfold Danger.isDangerousCommand. cbn zeta.
  apply orb_true_iff. left. apply existsb_exists. exists entry.
  split; [now apply list_elem_of_In |].
  unfold Danger.command_rule. rewrite smap_app, Hhead.
  rewrite bool_decide_eq_true_2; [reflexivity |].
  apply find_zero, starts_with_app.
Qed.

Lemma isDangerousCommand_prefix_witness :
  Danger.isDangerousCommand "Sudo apt update" = true
  ∧ Danger.isDangerousCommand "rmarkdown render.R" = true
  ∧ forallb
      (λ entry,
         lowercase entry
         || negb (Danger.isDangerousCommand (entry +:+ " x")))
      Danger.DANGEROUS_COMMANDS = true
  ∧ Danger.isDangerousCommand "pacman -R foo" = false
  ∧ Danger.isDangerousCommand "chown -R root /etc" = false.
Proof.
  split; [| split].
  - apply (isDangerousCommand_prefix "sudo" "Sudo" " apt update");
      [| reflexivity | reflexivity].
    apply list_elem_of_In. vm_compute. tauto.
  - apply (isDangerousCommand_prefix "rm" "rm" "arkdown render.R");
      [| reflexivity | reflexivity].
    apply list_elem_of_In. vm_compute. tauto.
  - vm_compute. repeat split.
Defined.

End MoreDangerFacts.

(** ** More on the command executor *)

Section MoreExecutorFacts.
Import Executor.

Lemma WEXITSTATUS_range (status : Z) : 0 ≤ WEXITSTATUS status ≤ 255.
Proof.
  unfold WEXITSTATUS. rewrite Z.shiftr_land.
  change (Z.shiftr 65280 8) with (Z.ones 8).
  rewrite Z.land_ones by lia.
  pose proof (Z.mod_pos_bound (Z.shiftr status 8) (2 ^ 8)). lia.
Qed.

Lemma length_take_le (n : nat) (s : string) : (String.length (Str.take n s) ≤ n)%nat.
Proof.
  revert s; induction n as [|n IH]; intros [|c s]; simpl; try lia.
  specialize (IH s). lia.
Qed.

(** X4.  Whatever the child does, the text [executeAndCapture] returns has
    at most 2000 + 23 bytes, the status it returns is [-1] or an exit code
    in [0 .. 255], and everything read from the pipe was printed, cut or
    not.  An output of at most 2000 bytes is returned as it is. *)
Theorem executeAndCapture_bounds (popen : string → option child) (command : string) :
  let r := executeAndCapture popen command in
  (String.length r.1.2 ≤ CEILING + String.length MARKER)%nat
  ∧ (r.1.1 = -1 ∨ 0 ≤ r.1.1 ≤ 255)
  ∧ (∀ pipe, popen (command +:+ " 2>&1") = Some pipe →
       r.2 = reads pipe
       ∧ ((String.length (Str.concat (reads pipe)) ≤ CEILING)%nat →
            r.1.2 = Str.concat (reads pipe))).
Proof.
  cbn zeta. unfold executeAndCapture.
  destruct (popen _) as [pipe |]; cbn [fst snd].
  - split; [| split].
    + destruct (Nat.ltb_spec CEILING (String.length (Str.concat (reads pipe)))).
      * rewrite slength_app. unfold Str.substr. cbn [Str.drop].
        pose proof (length_take_le CEILING (Str.concat (reads pipe))). lia.
      * lia.
    + destruct (WIFEXITED _); [right; apply WEXITSTATUS_range | left; reflexivity].
    + intros pipe' [= <-]. split; [reflexivity |]. intros Hshort.
      destruct (Nat.ltb_spec CEILING (String.length (Str.concat (reads pipe))));
        [lia | reflexivity].
  - split; [vm_compute; lia |]. split; [left; reflexivity | discriminate].
Qed.

End MoreExecutorFacts.

(** ** More on the streaming decoder *)

Section MoreStreamFacts.
Import Json GeminiClient Spec.
Context `{JsonLib} `{FileSystem}.

Lemma chunks_of_carry (buf w : string) :
  Str.mem Str.nl buf = false →
  chunks_of (buf +:+ w) "" = chunks_of w buf ∧ pending (buf +:+ w) "" = pending w buf.
Proof.
  intros Hbuf. rewrite chunks_of_app, pending_app.
  destruct (chunks_of_no_nl buf "" Hbuf) as [-> ->]. now rewrite sapp_nil_l.
Qed.

(** A transfer in closed form: what any number of writes leaves behind. *)
Lemma perform_chunks (writes : list string) (buf acc : string) (cb td : bool)
    (ty : string) (d : list string) :
  Str.mem Str.nl buf = false →
  perform writes (mkCtx buf acc cb td ty) d
  = (mkCtx (pending (Str.concat writes) buf)
           (acc +:+ Str.concat (chunks_of (Str.concat writes) buf)) cb td ty,
     d ++ (if cb then chunks_of (Str.concat writes) buf else [])).
Proof.
  unfold perform.
  revert buf acc d; induction writes as [|w writes IH]; intros buf acc d Hbuf.
  - cbn. rewrite sapp_empty_r. destruct cb; now rewrite app_nil_r.
  - cbn [fold_left]. rewrite curlWriteCallback_chunks.
    cbn [fst snd buffer accumulated callback type_determined ctx_type].
    destruct (chunks_of_carry buf w Hbuf) as [-> ->].
    rewrite IH by (now apply pending_no_nl).
    cbn [Str.concat]. rewrite chunks_of_app, pending_app, sconcat_app, sapp_assoc.
    f_equal. rewrite <- List.app_assoc. f_equal. destruct cb; reflexivity.
Qed.

(** X5.  A transfer depends on the bytes received and not on how they are
    cut into writes, for any number of writes: two sequences of writes with
    the same concatenation leave the same accumulated text, the same
    sequence of sink calls and the same unfinished line. *)
Theorem perform_chunking_irrelevant (writes1 writes2 : list string) (on_chunk : bool) :
  Str.concat writes1 = Str.concat writes2 →
  perform writes1 (new_ctx on_chunk) [] = perform writes2 (new_ctx on_chunk) [].
Proof.
  intros Hsame. unfold new_ctx.
  rewrite !perform_chunks by reflexivity. now rewrite Hsame.
Qed.

(** X6.  With a sink installed, the texts handed to the sink, put
    together in the order of the calls, are the accumulated text; without
    one nothing is handed over and the accumulated text is the same. *)
Theorem perform_sink_is_accumulated (writes : list string) :
  let with_sink := perform writes (new_ctx true) [] in
  let without := perform writes (new_ctx false) [] in
  Str.concat with_sink.2 = accumulated with_sink.1
  ∧ without.2 = []
  ∧ accumulated without.1 = accumulated with_sink.1.
Proof.
  cbn zeta. unfold new_ctx. rewrite !perform_chunks by reflexivity.
  cbn [fst snd accumulated app]. rewrite sapp_nil_l. repeat split.
Qed.


End MoreStreamFacts.

(** ** More on the session store *)

Section MoreSessionFacts.
Import Json GeminiClient Spec.
Context `{JsonLib} `{FileSystem}.


Lemma drop_app_short {A : Type} (n : nat) (l1 l2 : list A) :
  (n ≤ length l1)%nat → drop n (l1 ++ l2) = drop n l1 ++ l2.
Proof.
  revert l1; induction n as [|n IH]; intros [|x l1] Hn; cbn in *;
    try reflexivity; try lia.
  apply IH. lia.
Qed.

(** Trimming never reaches the turns just appended. *)
Lemma trim_keeps_new (old new : list json) :
  (length new ≤ 2 * MAX_HISTORY_TURNS - 1)%nat →
  ∃ kept, trim (old ++ new) = kept ++ new ∧ (length kept ≤ length old)%nat.
Proof.
  intros Hnew.
  destruct (trim_spec (old ++ new)) as (_ & [k Hk] & Hsame & Hmin).
  rewrite app_nil_r in Hk, Hsame, Hmin.
  destruct (Nat.le_gt_cases (length (old ++ new)) (2 * MAX_HISTORY_TURNS))
    as [Hshort | Hlong].
  - exists old. split; [now apply Hsame | lia].
  - specialize (Hmin Hlong). rewrite Hk, length_drop, length_app in Hmin.
    unfold MAX_HISTORY_TURNS in *.
    exists (drop (2 * k) old). rewrite Hk. split.
    + apply drop_app_short. lia.
    + rewrite length_drop. lia.
Qed.

(** X8.  An append never loses what it appends: in a persistent session
    the stored history ends with the turn given to [addToHistory], and
    after a successful [sendRequest] with the user turn and the model turn,
    however long the history was. *)
Theorem append_keeps_newest (st : State) :
  session_path (impl st) ≠ "" →
  (∀ role text,
     ∃ kept, history (impl (addToHistory role text st)) = kept ++ [turn role text])
  ∧ (∀ post prompt,
       let r := sendRequest post prompt true st in
       GeminiResponse.success r.1 = true →
       ∃ kept, history (impl r.2)
               = kept ++ [turn "user" prompt; turn "model" (GeminiResponse.content r.1)]).
Proof.
  intros Hpath. split.
  - intros role text.
    destruct (addToHistory_persistent role text st Hpath) as (-> & _).
    destruct (trim_keeps_new (history (impl st)) [turn role text]) as (kept & -> & _);
      [cbn; lia | eauto].
  - intros post prompt r Hok. subst r.
    pose proof (sendRequest_response_shape post prompt true st Hok) as Hshape.
    cbn zeta in Hshape.
    rewrite (sendRequest_success post prompt true st _ Hshape). cbn zeta.
    unfold active. rewrite (proj2 (is_empty_false _) Hpath). cbn [andb negb].
    match goal with |- context [saveSession ?s] =>
      destruct (saveSession_cases s) as (-> & _); [exact Hpath |]
    end.
    cbn [history set_history set_impl impl].
    match goal with |- context [trim (?h ++ ?new)] =>
      destruct (trim_keeps_new h new) as (kept & -> & _); [cbn; lia | eauto]
    end.
Qed.


(** X10.  An append writes the session file and no other: every other
    path of the file system keeps its content, and a client without session
    path writes nothing. *)
Theorem append_touches_one_file (st : State) (other : string) :
  other ≠ session_path (impl st) →
  (∀ role text, files (addToHistory role text st) !! other = files st !! other)
  ∧ (∀ post prompt use_history,
       files (sendRequest post prompt use_history st).2 !! other = files st !! other)
  ∧ (session_path (impl st) = "" →
       ∀ role text, files (addToHistory role text st) = files st).
Proof.
  intros Hother.
  assert (Hsave : ∀ s, session_path (impl s) = session_path (impl st) →
            files (saveSession s) !! other = files s !! other).
  { intros s Hs. unfold saveSession.
    destruct (Str.is_empty (session_path (impl s))); [reflexivity |].
    destruct (dump_error _); cbn [after files];
      destruct (opens _); try reflexivity;
      apply lookup_insert_ne; congruence. }
  split; [| split].
  - intros role text. unfold addToHistory.
    destruct (Str.is_empty (session_path (impl st))); [reflexivity |].
    now rewrite Hsave.
  - intros post prompt use_history. unfold sendRequest.
    destruct (post _) as [err | status body]; [reflexivity |].
    destruct (negb (status =? 200)); [reflexivity |].
    destruct (reply_text body) as [[text |] | e]; try reflexivity.
    destruct (active use_history (impl st)); [| reflexivity].
    destruct (raised _); cbn [snd]; now rewrite Hsave.
  - intros Hpath role text. now rewrite addToHistory_ephemeral.
Qed.

(** X11.  What the next process starts with.  After an [addToHistory] in
    a named session, a client constructed with the same parameters on the
    files left behind is the client that stored, history included, where
    the stream opened and [dump] returned (and the library reads back the
    array it wrote).  Where the stream opened and [dump] raised, the file
    is empty and the next client starts with an empty history; where the
    stream did not open, it starts as the first one did. *)
Theorem session_survives_restart key model_name lang name home fs client role text :
  name ≠ "" →
  new_Impl key model_name lang name (Some home) fs = Ok client →
  let st' := addToHistory role text (mkState client fs []) in
  let restarted := new_Impl key model_name lang name (Some home) (files st') in
  (opens (session_path client) = true →
   dump_error (JArray (history (impl st'))) = None →
   parse_stream (dump (Some 2%nat) (JArray (history (impl st'))))
   = Ok (JArray (history (impl st'))) →
   restarted = Ok (impl st'))
  ∧ (opens (session_path client) = true →
     is_Some (dump_error (JArray (history (impl st')))) →
     (∃ e, parse_stream "" = Throw e) →
     restarted = Ok (set_history [] client))
  ∧ (opens (session_path client) = false → restarted = Ok client).
Proof.
  intros Hname Hnew st' restarted.
  destruct (new_Impl_total key model_name lang name (Some home) fs)
    as (i & Hi & _ & _ & _ & Hpath).
  rewrite Hnew in Hi. injection Hi as <-.
  specialize (Hpath Hname ltac:(discriminate)).
  destruct (addToHistory_persistent role text (mkState client fs []) Hpath)
    as (Hh & Hsame & Hfile & _).
  fold st' in Hh, Hsame, Hfile. cbn [impl files] in Hh, Hsame, Hfile.
  assert (Hrestart : ∀ fs',
            new_Impl key model_name lang name (Some home) fs'
            = h ← loadSession fs' (session_path client);
              mret (set_history h client)).
  { intros fs'. clear -Hnew. unfold new_Impl in Hnew |- *.
    rewrite loadSession_cases in Hnew. cbn in Hnew. injection Hnew as <-.
    reflexivity. }
  assert (Hkeeps : api_key (impl st') = api_key client
                   ∧ model (impl st') = model client
                   ∧ language (impl st') = language client).
  { subst st'. unfold addToHistory. cbn [impl].
    rewrite (proj2 (is_empty_false _) Hpath).
    match goal with |- context [saveSession ?s] =>
      destruct (saveSession_cases s) as (-> & _); [exact Hpath |]
    end.
    repeat split. }
  subst restarted. rewrite Hrestart in Hnew |- *.
  rewrite loadSession_cases in Hnew |- *.
  rewrite (proj2 (is_empty_false _) Hpath) in Hnew |- *.
  unfold session_file_after in Hfile. rewrite Hsame in Hfile.
  rewrite Hfile. split; [| split].
  - intros -> -> ->. cbn. f_equal. unfold set_history.
    destruct Hkeeps as (Hk & Hm & Hl).
    destruct (impl st') as [k m l p h]. cbn in *. now subst.
  - intros -> [e ->] [e' ->]. reflexivity.
  - intros ->. exact Hnew.
Qed.

End MoreSessionFacts.

(** ** Streaming plain content *)

Section ContentStreamFacts.
Import Json GeminiClient Spec.
Context `{JsonLib} `{FileSystem}.



End ContentStreamFacts.

(** ** Deleting a session *)

Section DeleteFacts.
Import Json GeminiClient Spec Main.
Context `{JsonLib} `{FileSystem}.

(** X13.  [--session delete name] removes the very file a client of that
    name reads and writes, and nothing else: after it a client of that name
    starts with an empty history and every other file is as before.  When
    the file is not there, [main] returns 1 and the files are unchanged. *)
Theorem session_delete_forgets key model_name lang name home fs :
  name ≠ "" →
  (∀ client, new_Impl key model_name lang name (Some home) fs = Ok client →
     session_path client = deleted_path home name)
  ∧ (fs !! deleted_path home name = None → session_delete home name fs = (1, fs))
  ∧ (is_Some (fs !! deleted_path home name) →
       (session_delete home name fs).1 = 0
       ∧ (∀ other, other ≠ deleted_path home name →
            (session_delete home name fs).2 !! other = fs !! other)
       ∧ ∃ client,
           new_Impl key model_name lang name (Some home) (session_delete home name fs).2
           = Ok client
           ∧ session_path client = deleted_path home name
           ∧ history client = []).
Proof.
  intros Hname.
  assert (Hpath : ∀ fs', ∃ h,
            new_Impl key model_name lang name (Some home) fs'
            = Ok (mkImpl key
                    (if Str.is_empty model_name then DEFAULT_MODEL else model_name)
                    (if Str.is_empty lang then DEFAULT_LANGUAGE else lang)
                    (deleted_path home name) h)
            ∧ loadSession fs' (deleted_path home name) = Ok h).
  { intros fs'. unfold new_Impl, getSessionDir, deleted_path.
    rewrite (proj2 (is_empty_false _) Hname).
    assert (Str.is_empty (home +:+ "/.tt") = false) as ->
      by (destruct home; reflexivity).
    rewrite !sapp_assoc. change ("/.tt" +:+ "/" +:+ name +:+ ".json")
      with ("/.tt/" +:+ name +:+ ".json").
    rewrite loadSession_cases. eexists. split; reflexivity. }
  split; [| split].
  - intros client Hnew. destruct (Hpath fs) as (h & Hfs & _).
    rewrite Hnew in Hfs. injection Hfs as ->. reflexivity.
  - intros Hnone. unfold session_delete. now rewrite Hnone.
  - intros [text Hsome]. unfold session_delete. rewrite Hsome. cbn [fst snd].
    split; [reflexivity |]. split.
    + intros other Hother. now rewrite lookup_delete_ne.
    + destruct (Hpath (delete (deleted_path home name) fs)) as (h & Hnew & Hload).
      eexists. split; [exact Hnew |]. split; [reflexivity |]. cbn [history].
      rewrite loadSession_cases, lookup_delete_eq in Hload.
      destruct (Str.is_empty (deleted_path home name)); congruence.
Qed.

End DeleteFacts.

(** ** Commands for a task, and the paths that execute them *)

Section TaskFacts.
Import Json GeminiClient Spec Props.
Context `{JsonLib} `{FileSystem}.

(** Where the classifier finds a span, [getCommandForTask] parses the same
    span. *)
Lemma task_span_agrees (content span : string) :
  json_span content = Some span → GeminiTasks.task_span content = Some span.
Proof.
  unfold json_span, GeminiTasks.task_span.
  destruct (Str.find_char "{" content) as [start |]; [| discriminate].
  destruct (Str.rfind_char "}" content) as [end_ |]; [| discriminate].
  destruct (Nat.ltb_spec start end_) as [Hlt |]; [| discriminate].
  intros [= <-]. destruct (Nat.leb_spec start (end_ + 1)); [| lia].
  do 2 f_equal. lia.
Qed.

(** X14.  The outcomes of [getCommandForTask].  A failed request is
    handed on as it is.  After a successful one, a reply with both braces
    always gives [success] true: the content is the [command] of the object
    parsed, with its [explanation] in the [error] field, or, when the
    library raises anywhere on the way, the whole raw reply.  A reply that
    lacks a brace gives an empty content and a [success] that was never
    assigned; no outcome after a successful request has [success] false. *)
Theorem getCommandForTask_outcomes post task st :
  let sent_request := sendRequest post (GeminiTasks.task_prompt task) true st in
  let raw := GeminiResponse.content sent_request.1 in
  let r := GeminiTasks.getCommandForTask post task st in
  r.2 = sent_request.2
  ∧ (GeminiResponse.success sent_request.1 = false →
       r.1 = GeminiTasks.assigned sent_request.1)
  ∧ (GeminiResponse.success sent_request.1 = true →
       GeminiTasks.success r.1 ≠ Some false
       ∧ (GeminiTasks.task_span raw = None → r.1 = GeminiTasks.mkPartial "" None "")
       ∧ (∀ span, GeminiTasks.task_span raw = Some span →
            (∀ e, GeminiTasks.task_fields span = Throw e →
               r.1 = GeminiTasks.mkPartial raw (Some true) "")
            ∧ (∀ command explanation,
                 GeminiTasks.task_fields span = Ok (command, explanation) →
                 r.1 = GeminiTasks.mkPartial command (Some true) explanation))).
Proof.
  cbn zeta. unfold GeminiTasks.getCommandForTask.
  destruct (sendRequest post _ true st) as [response st']. cbn [fst snd].
  split; [now destruct (GeminiResponse.success response) |].
  split; [now intros -> |].
  intros ->. cbn [negb]. unfold GeminiTasks.task_result.
  destruct (GeminiTasks.task_span _) as [span |].
  - split; [now destruct (GeminiTasks.task_fields span) as [[? ?] | ?] |].
    split; [discriminate |]. intros span' [= <-]. cbn [fst].
    split; [intros e Hfields | intros command explanation Hfields];
      now rewrite Hfields.
  - split; [discriminate |]. split; [reflexivity | discriminate].
Qed.

Lemma execute_spawned popen session_name cmd asked t :
  Main.spawned (Main.execute popen session_name cmd asked t).2
  = Main.spawned t ++ [(cmd, asked)].
Proof.
  unfold Main.execute.
  now destruct (Executor.executeAndCapture popen cmd) as [[exit_code output] printed].
Qed.

Lemma execute_gated popen session_name cmd asked t :
  gated (cmd, asked) → Forall gated (Main.spawned t) →
  Forall gated (Main.spawned (Main.execute popen session_name cmd asked t).2).
Proof.
  intros Hcmd Hbefore. rewrite execute_spawned.
  apply Forall_app. split; [exact Hbefore |]. now constructor.
Qed.

Lemma confirmed_gated (cmd answer : string) :
  Danger.isDangerousCommand cmd = true →
  Main.askDangerousConfirmation answer = true →
  gated (cmd, Some answer).
Proof.
  intros Hdanger Hyes. unfold gated. cbn [fst snd]. rewrite Hdanger.
  apply String.eqb_eq in Hyes. now subst.
Qed.

Lemma harmless_gated (cmd : string) :
  Danger.isDangerousCommand cmd = false → gated (cmd, None).
Proof. intros Hsafe. unfold gated. cbn [fst snd]. now rewrite Hsafe. Qed.

(** X15.  The [--run] path never hands a command that
    [isDangerousCommand] flags to the shell unless the line read from the
    standard input is exactly [yes]; without that line [main] returns 0,
    nothing is executed and nothing is added to the session.  At most one
    command is executed. *)
Theorem run_task_is_gated post popen session_name unassigned stdin query st :
  let r := Main.run_task post popen session_name unassigned stdin query st in
  let asked_state := (GeminiTasks.getCommandForTask post query st).2 in
  Forall gated (Main.spawned r.2)
  ∧ (length (Main.spawned r.2) ≤ 1)%nat
  ∧ (Main.spawned r.2 = [] → Main.client r.2 = asked_state)
  ∧ (∀ cmd asked, (cmd, asked) ∈ Main.spawned r.2 →
       Danger.isDangerousCommand cmd = true → head stdin = Some "yes").
Proof.
  cbn zeta. unfold Main.run_task.
  destruct (GeminiTasks.getCommandForTask post query st) as [response st1].
  cbn [snd].
  destruct (negb (default unassigned (GeminiTasks.success response))).
  { cbn. repeat split; auto. intros cmd asked Hin. inversion Hin. }
  set (cmd := Main.trim Main.blanks _).
  assert (Hrun : ∀ asked, gated (cmd, asked) →
            let r := Main.execute popen session_name cmd asked (Main.mkTrace st1 []) in
            Forall gated (Main.spawned r.2)
            ∧ (length (Main.spawned r.2) ≤ 1)%nat
            ∧ (Main.spawned r.2 = [] → Main.client r.2 = st1)
            ∧ (∀ c a, (c, a) ∈ Main.spawned r.2 → c = cmd ∧ a = asked)).
  { intros asked Hgate. cbn zeta.
    split; [now apply execute_gated |]. rewrite execute_spawned.
    cbn. split; [lia |]. split; [discriminate |].
    intros c a Hin. apply list_elem_of_singleton in Hin. split; congruence. }
  destruct (Danger.isDangerousCommand cmd) eqn:Hdanger.
  - destruct (Main.askDangerousConfirmation (default "" (head stdin))) eqn:Hyes;
      cbn [negb].
    + destruct (Hrun (Some (default "" (head stdin)))) as (Hg & Hlen & Hnone & Hin);
        [now apply confirmed_gated |].
      repeat split; auto. intros c a Hca _.
      apply String.eqb_eq in Hyes. destruct stdin as [|line stdin]; [discriminate |].
      cbn in *. now subst.
    + cbn. repeat split; auto. intros c a Hin. inversion Hin.
  - destruct (Hrun None) as (Hg & Hlen & Hnone & Hin); [now apply harmless_gated |].
    repeat split; auto. intros c a Hca Hflag.
    destruct (Hin c a Hca) as [-> _]. congruence.
Qed.

Lemma carry_on_invariant (P : Main.trace → Prop) (r : Main.ending * Main.trace)
    (next : Main.trace → Main.trace) :
  P r.2 → (∀ t, t = r.2 → P (next t)) → P (Main.carry_on r next).
Proof.
  intros Hstop Hnext. unfold Main.carry_on.
  destruct r.1; [now apply Hnext | exact Hstop].
Qed.

(** X16.  The console never hands a flagged command to the shell either:
    over any sequence of input lines, every command executed was either not
    flagged or confirmed by a line [yes] right after it was proposed.  The
    commands executed earlier stay at the front of the record. *)
Theorem console_loop_is_gated post popen session_name stdin t :
  Forall gated (Main.spawned t) →
  Forall gated (Main.spawned (Main.console_loop post popen session_name stdin t))
  ∧ Main.spawned t `prefix_of`
      Main.spawned (Main.console_loop post popen session_name stdin t).
Proof.
  remember (length stdin) as n eqn:Hn.
  revert stdin t Hn; induction n as [n IH] using lt_wf_ind; intros stdin t Hn Hgated.
  destruct stdin as [|raw rest]; [split; [exact Hgated | reflexivity] |].
  cbn [length] in Hn. cbn [Main.console_loop].
  assert (Hrest : ∀ t', Forall gated (Main.spawned t') →
            Main.spawned t `prefix_of` Main.spawned t' →
            Forall gated (Main.spawned (Main.console_loop post popen session_name rest t'))
            ∧ Main.spawned t `prefix_of`
                Main.spawned (Main.console_loop post popen session_name rest t')).
  { intros t' Hg Hpre. destruct (IH (length rest) ltac:(lia) rest t' eq_refl Hg).
    split; [assumption | etrans; eassumption]. }
  assert (Hexec : ∀ cmd asked t',
            Main.spawned t' `prefix_of`
              Main.spawned (Main.execute popen session_name cmd asked t').2).
  { intros cmd asked t'. rewrite execute_spawned. now apply prefix_app_r. }
  destruct (Str.is_empty _); [now apply Hrest |].
  destruct (String.eqb _ "exit" || String.eqb _ "quit");
    [split; [exact Hgated | reflexivity] |].
  destruct (String.eqb _ "clear"); [now apply Hrest |].
  destruct (smartQuery post _ (Main.client t)) as [smart st1].
  destruct (negb (SmartResponse.success smart)); [now apply Hrest |].
  destruct (SmartResponse.type smart) as [[| |] |]; try (now apply Hrest).
  set (cmd := Main.trim Main.blanks _).
  destruct (Danger.isDangerousCommand cmd) eqn:Hdanger.
  - destruct rest as [|answer rest']; [split; [exact Hgated | reflexivity] |].
    assert (Hrest' : ∀ t', Forall gated (Main.spawned t') →
              Main.spawned t `prefix_of` Main.spawned t' →
              Forall gated
                (Main.spawned (Main.console_loop post popen session_name rest' t'))
              ∧ Main.spawned t `prefix_of`
                  Main.spawned (Main.console_loop post popen session_name rest' t')).
    { intros t' Hg Hpre.
      destruct (IH (length rest') ltac:(cbn in Hn; lia) rest' t' eq_refl Hg).
      split; [assumption | etrans; eassumption]. }
    destruct (Main.askDangerousConfirmation answer) eqn:Hyes; cbn [negb].
    + assert (Hdone : Forall gated
                (Main.spawned
                   (Main.execute popen session_name cmd (Some answer)
                      (Main.mkTrace st1 (Main.spawned t))).2)).
      { apply execute_gated; [now apply confirmed_gated | exact Hgated]. }
      apply (carry_on_invariant
               (λ t', Forall gated (Main.spawned t')
                      ∧ Main.spawned t `prefix_of` Main.spawned t')).
      * split; [exact Hdone | apply (Hexec cmd (Some answer) (Main.mkTrace st1 _))].
      * intros t' ->. apply Hrest'; [exact Hdone |].
        apply (Hexec cmd (Some answer) (Main.mkTrace st1 _)).
    + now apply Hrest'.
  - assert (Hdone : Forall gated
              (Main.spawned
                 (Main.execute popen session_name cmd None
                    (Main.mkTrace st1 (Main.spawned t))).2)).
    { apply execute_gated; [now apply harmless_gated | exact Hgated]. }
    apply (carry_on_invariant
             (λ t', Forall gated (Main.spawned t')
                    ∧ Main.spawned t `prefix_of` Main.spawned t')).
    + split; [exact Hdone | apply (Hexec cmd None (Main.mkTrace st1 _))].
    + intros t' ->. apply Hrest; [exact Hdone |].
      apply (Hexec cmd None (Main.mkTrace st1 _)).
Qed.

End TaskFacts.

(** ** Trimming, and the file names the simulator collects *)

Section TrimFacts.
Import Props.

Lemma find_last_none_first (set s : string) :
  Str.find_last_not_of set s = None → Str.find_first_not_of set s = None.
Proof.
  induction s as [|c s IH]; [reflexivity |]. cbn.
  destruct (Str.find_last_not_of set s); [discriminate |].
  destruct (Str.mem c set); [| discriminate].
  intros _. now rewrite IH.
Qed.

Lemma find_first_split (set s : string) (n : nat) :
  Str.find_first_not_of set s = Some n →
  Str.find_first_not_of set (Str.take n s) = None
  ∧ ∃ c r, Str.drop n s = String c r ∧ Str.mem c set = false.
Proof.
  revert n; induction s as [|c s IH]; intros n; [discriminate |]. cbn.
  destruct (Str.mem c set) eqn:Hmem.
  - destruct (Str.find_first_not_of set s) as [m |]; [| discriminate].
    intros [= <-]. destruct (IH m eq_refl) as [Hhead Htail].
    cbn. now rewrite Hmem, Hhead.
  - intros [= <-]. cbn. eauto.
Qed.

Lemma find_last_split (set s : string) (i : nat) :
  Str.find_last_not_of set s = Some i →
  Str.find_last_not_of set (Str.take (S i) s) = Some i
  ∧ String.length (Str.take (S i) s) = S i
  ∧ Str.find_first_not_of set (Str.drop (S i) s) = None.
Proof.
  revert i; induction s as [|c s IH]; intros i; [discriminate |].
  cbn [Str.find_last_not_of].
  destruct (Str.find_last_not_of set s) as [j |] eqn:Hlast.
  - intros [= <-]. destruct (IH j eq_refl) as (Hkeep & Hlen & Hrest).
    change (Str.take (S (S j)) (String c s)) with (String c (Str.take (S j) s)).
    change (Str.drop (S (S j)) (String c s)) with (Str.drop (S j) s).
    cbn [Str.find_last_not_of String.length].
    rewrite Hkeep, Hlen. auto.
  - destruct (Str.mem c set) eqn:Hmem; [discriminate |]. intros [= <-].
    change (Str.take 1 (String c s)) with (String c "").
    change (Str.drop 1 (String c s)) with s.
    cbn. rewrite Hmem. auto using find_last_none_first.
Qed.

Lemma find_last_head (set : string) (c : ascii) (r : string) :
  Str.mem c set = false → is_Some (Str.find_last_not_of set (String c r)).
Proof.
  intros Hmem. cbn. destruct (Str.find_last_not_of set r); [eauto |].
  rewrite Hmem. eauto.
Qed.

Lemma trim_head (set : string) (c : ascii) (r : string) :
  Str.mem c set = false →
  ∃ i, Str.find_last_not_of set (String c r) = Some i
       ∧ Main.trim set (String c r) = Str.take (S i) (String c r).
Proof.
  intros Hmem. destruct (find_last_head set c r Hmem) as [i Hlast].
  exists i. split; [exact Hlast |]. unfold Main.trim.
  cbn [Str.find_first_not_of]. rewrite Hmem. cbn [Str.drop].
  rewrite Hlast. now rewrite Nat.add_1_r.
Qed.

(** The input is the trimmed string between two strings of bytes of the
    set; what is kept begins at the first byte outside the set. *)
Lemma trim_parts (set s : string) :
  (∃ a b, s = a +:+ Main.trim set s +:+ b
          ∧ Str.find_first_not_of set a = None
          ∧ Str.find_first_not_of set b = None)
  ∧ (Main.trim set s = ""
     ∨ ∃ c r i, Str.mem c set = false
                ∧ Str.find_last_not_of set (String c r) = Some i
                ∧ Main.trim set s = Str.take (S i) (String c r)).
Proof.
  destruct (Str.find_first_not_of set s) as [n |] eqn:Hfirst.
  2:{ assert (Hall : Main.trim set s = "").
      { unfold Main.trim. now rewrite Hfirst. }
      rewrite Hall. split; [| now left].
      exists s, "". now rewrite sapp_nil_l, sapp_empty_r. }
  destruct (find_first_split set s n Hfirst) as (Ha & c & r & Hdrop & Hmem).
  destruct (trim_head set c r Hmem) as (i & Hlast & Htrim).
  assert (Hsame : Main.trim set s = Str.take (S i) (String c r)).
  { rewrite <- Htrim. unfold Main.trim at 1. rewrite Hfirst, Hdrop.
    unfold Main.trim. cbn [Str.find_first_not_of]. now rewrite Hmem. }
  destruct (find_last_split set (String c r) i Hlast) as (Hkeep & Hlen & Hb).
  rewrite Hsame. split; [| right; eauto 10].
  exists (Str.take n s), (Str.drop (S i) (String c r)).
  split; [| split; assumption].
  now rewrite stake_app_drop, <- Hdrop, stake_app_drop.
Qed.

Lemma take_take (n : nat) (s : string) :
  Str.take n (Str.take n s) = Str.take n s.
Proof.
  revert s; induction n as [|n IH]; intros [|c s]; cbn; try reflexivity.
  now rewrite IH.
Qed.

(** X17.  The two [erase] calls that trim a string ([main] on the command
    it is about to run, the simulator on a file name): the input is the
    result between two strings made of bytes of the set only; the result is
    empty, or neither begins nor ends with a byte of the set; trimming the
    result again changes nothing. *)
Theorem trim_decomposition (set s : string) :
  let t := Main.trim set s in
  (∃ a b, s = a +:+ t +:+ b
          ∧ Str.find_first_not_of set a = None
          ∧ Str.find_first_not_of set b = None)
  ∧ (t = ""
     ∨ (Str.find_first_not_of set t = Some 0%nat
        ∧ Str.find_last_not_of set t = Some (String.length t - 1)%nat))
  ∧ Main.trim set t = t.
Proof.
  cbn zeta. destruct (trim_parts set s) as [Hparts Hshape].
  split; [exact Hparts |].
  destruct Hshape as [-> | (c & r & i & Hmem & Hlast & ->)];
    [split; [now left | reflexivity] |].
  destruct (find_last_split set (String c r) i Hlast) as (Hkeep & Hlen & _).
  split.
  - right. rewrite Hlen, Hkeep. split; [| f_equal; lia].
    cbn. now rewrite Hmem.
  - change (Str.take (S i) (String c r)) with (String c (Str.take i r)) in *.
    destruct (trim_head set c (Str.take i r) Hmem) as (k & Hlast' & ->).
    rewrite Hkeep in Hlast'. injection Hlast' as <-.
    change (Str.take (S i) (String c (Str.take i r)))
      with (String c (Str.take i (Str.take i r))).
    now rewrite take_take.
Qed.

Lemma avoids_app (set s t : string) :
  avoids set (s +:+ t) = avoids set s && avoids set t.
Proof.
  induction s as [|c s IH]; [reflexivity |].
  rewrite sapp_cons. cbn. now rewrite IH, andb_assoc.
Qed.

Lemma avoids_rev_app (set s t : string) :
  avoids set (String.rev_app s t) = avoids set s && avoids set t.
Proof.
  revert t; induction s as [|c s IH]; intros t; [reflexivity |].
  cbn. rewrite IH. cbn. destruct (Str.mem c set), (avoids set s); reflexivity.
Qed.

(** No piece a [getline] loop reads holds the delimiter. *)
Lemma getlines_aux_avoid (delim : ascii) (s cur : string) :
  avoids (Str.of_char delim) cur = true →
  Forall (λ piece, avoids (Str.of_char delim) piece = true)
         (Str.getlines_aux delim s cur).
Proof.
  revert cur; induction s as [|c s IH]; intros cur Hcur; cbn.
  - destruct cur; constructor; [| constructor].
    unfold String.rev. now rewrite avoids_rev_app, Hcur.
  - destruct (Ascii.eqb c delim) eqn:Hc.
    + constructor; [| now apply IH].
      unfold String.rev. now rewrite avoids_rev_app, Hcur.
    + apply IH. cbn. now rewrite Ascii.eqb_sym, Hc, Hcur.
Qed.

Lemma trim_avoids (set other s : string) :
  avoids other s = true → avoids other (Main.trim set s) = true.
Proof.
  destruct (trim_parts set s) as [(a & b & Hs & _) _].
  intros Havoid. rewrite Hs, !avoids_app in Havoid.
  now destruct (avoids other a), (avoids other (Main.trim set s)).
Qed.

End TrimFacts.

Section MoreSimulatorFacts.
Import Simulator Props.
Context `{Json.JsonLib} `{GeminiClient.FileSystem}.

Lemma trim_blanks_is_trim (file : string) :
  trim_blanks file = Main.trim (String " " (Str.of_char Str.tab)) file.
Proof. reflexivity. Qed.

Lemma scan_lines_files (lines : list string) (r : SimulationResult) :
  files_affected (fold_left scan_line lines r)
  = files_affected r ++ List.concat (List.map files_of_line lines).
Proof.
  revert r; induction lines as [|line lines IH]; intros r; cbn.
  - now rewrite app_nil_r.
  - rewrite IH. cbn. now rewrite List.app_assoc.
Qed.

Lemma scan_lines_output (lines : list string) (r : SimulationResult) :
  predicted_output (fold_left scan_line lines r) = predicted_output r.
Proof.
  revert r; induction lines as [|line lines IH]; intros r; cbn;
    [reflexivity | now rewrite IH].
Qed.

(** What the simulator keeps of one file name. *)
Lemma files_of_line_clean (line : string) :
  Forall (λ file,
            Str.is_empty file = false
            ∧ avoids "," file = true
            ∧ Str.find_first_not_of (String " " (Str.of_char Str.tab)) file = Some 0%nat
            ∧ Str.find_last_not_of (String " " (Str.of_char Str.tab)) file
              = Some (String.length file - 1)%nat)
         (files_of_line line).
Proof.
  unfold files_of_line. destruct (Str.contains _ line); [| constructor].
  destruct (Str.find ":" line) as [pos |]; [| constructor].
  apply Forall_forall. intros file [Hfull Hin]%list_elem_of_filter.
  apply list_elem_of_In, in_map_iff in Hin. destruct Hin as (piece & <- & Hpiece).
  rewrite trim_blanks_is_trim in *.
  split; [exact Hfull |]. split.
  - apply trim_avoids.
    pose proof (getlines_aux_avoid "," (Str.substr_from (pos + 1) line) "" eq_refl)
      as Hall.
    rewrite Forall_forall in Hall. apply Hall. now apply list_elem_of_In.
  - destruct (trim_parts (String " " (Str.of_char Str.tab)) piece)
      as [_ [Hnil | (c & r & i & Hmem & Hlast & Htrim)]].
    + now rewrite Hnil in Hfull.
    + rewrite Htrim.
      destruct (find_last_split _ _ _ Hlast) as (Hkeep & Hlen & _).
      rewrite Hkeep, Hlen. split; [| f_equal; lia].
      change (Str.take (S i) (String c r)) with (String c (Str.take i r)).
      cbn [Str.find_first_not_of]. now rewrite Hmem.
Qed.

(** X18.  Every entry of [files_affected] that [simulate] returns is a
    trimmed, non-empty piece of a reply line: it is not empty, holds no
    comma, and neither begins nor ends with a blank or a tab.  A failed
    request gives no entry at all. *)
Theorem simulate_files_are_trimmed_names post command st :
  let response := (GeminiClient.generateContent post (simulate_prompt command) st).1 in
  let result := (simulate post command st).1 in
  Forall (λ file,
            Str.is_empty file = false
            ∧ avoids "," file = true
            ∧ Str.find_first_not_of (String " " (Str.of_char Str.tab)) file = Some 0%nat
            ∧ Str.find_last_not_of (String " " (Str.of_char Str.tab)) file
              = Some (String.length file - 1)%nat)
         (files_affected result)
  ∧ (GeminiResponse.success response = false → files_affected result = []).
Proof.
  cbn zeta. unfold simulate.
  destruct (GeminiClient.generateContent post (simulate_prompt command) st)
    as [response st'].
  cbn [fst]. unfold absorb.
  destruct (GeminiResponse.success response); cbn [files_affected];
    [| split; [constructor | reflexivity]].
  split; [| discriminate].
  rewrite scan_lines_files. cbn [files_affected app].
  induction (Str.getlines Str.nl (GeminiResponse.content response))
    as [|line lines IH]; [constructor |].
  cbn. apply Forall_app. split; [apply files_of_line_clean | exact IH].
Qed.

(** X19.  The reply of the remote end never adds, removes or changes a
    warning of [simulate]: the warnings are those computed from the command
    before the request, at most four.  The predicted output is the reply
    itself after a successful request and the error behind a fixed prefix
    otherwise. *)
Theorem simulate_warnings_are_local post command st :
  let response := (GeminiClient.generateContent post (simulate_prompt command) st).1 in
  let result := (simulate post command st).1 in
  warnings result = immediate_warnings command (isDangerous command)
  ∧ (length (warnings result) ≤ 4)%nat
  ∧ predicted_output result
    = (if GeminiResponse.success response then GeminiResponse.content response
       else "Erro ao simular comando: " +:+ GeminiResponse.error response).
Proof.
  cbn zeta. unfold simulate.
  destruct (GeminiClient.generateContent post (simulate_prompt command) st)
    as [response st'].
  cbn [fst].
  assert (Hwarn : warnings (absorb response
                    (mkResult "" [] (immediate_warnings command (isDangerous command))
                              (isDangerous command)))
                  = immediate_warnings command (isDangerous command)).
  { unfold absorb. destruct (GeminiResponse.success response); cbn [warnings];
      [now rewrite scan_lines_warnings | reflexivity]. }
  rewrite Hwarn. split; [reflexivity |]. split.
  - unfold immediate_warnings.
    destruct (isDangerous command), (Str.contains "rm" command),
      (Str.contains "-rf" command || Str.contains "-r" command),
      (Str.contains "*" command),
      (Str.contains "chmod" command && Str.contains "777" command); cbn; lia.
  - unfold absorb. destruct (GeminiResponse.success response);
      [now rewrite scan_lines_output | reflexivity].
Qed.

End MoreSimulatorFacts.

(** ** The command parser *)

Section ParserFacts.
Import CommandParser.

Lemma tokenize_word_tokens (b : bool) (q token : string) (acc : list string) :
  let t' := tokenize_word (mkTokenizer b q []) token in
  tokenize_word (mkTokenizer b q acc) token
  = mkTokenizer (in_quotes t') (quoted_token t') (acc ++ tokens t').
Proof.
  cbn zeta. unfold tokenize_word. cbn [in_quotes quoted_token tokens].
  destruct (front_is is_quote token); [now rewrite app_nil_r |].
  destruct b; [destruct (back_is is_quote token) |];
    cbn [in_quotes quoted_token tokens app]; now rewrite ?app_nil_r.
Qed.

(** The tokens pushed before a word is read stay where they are. *)
Lemma fold_tokens_acc (words : list string) (b : bool) (q : string) (acc : list string) :
  tokens (fold_left tokenize_word words (mkTokenizer b q acc))
  = acc ++ tokens (fold_left tokenize_word words (mkTokenizer b q [])).
Proof.
  revert b q acc; induction words as [|w words IH]; intros b q acc; cbn [fold_left].
  - cbn. now rewrite app_nil_r.
  - rewrite (tokenize_word_tokens b q w acc).
    destruct (tokenize_word (mkTokenizer b q []) w) as [b' q' new].
    cbn [in_quotes quoted_token tokens].
    rewrite (IH b' q' (acc ++ new)), (IH b' q' new). now rewrite List.app_assoc.
Qed.

(** Outside quotes the text kept of an earlier quoted phrase is not read. *)
Lemma fold_closed_irrelevant (words : list string) (q q' : string) (acc : list string) :
  tokens (fold_left tokenize_word words (mkTokenizer false q acc))
  = tokens (fold_left tokenize_word words (mkTokenizer false q' acc)).
Proof.
  revert q q' acc; induction words as [|w words IH]; intros q q' acc;
    cbn [fold_left]; [reflexivity |].
  unfold tokenize_word at 2 4. cbn [in_quotes quoted_token tokens].
  destruct (front_is is_quote w); [reflexivity | apply IH].
Qed.

Lemma fold_plain (words : list string) (q : string) (acc : list string) :
  Forall (λ w, front_is is_quote w = false) words →
  fold_left tokenize_word words (mkTokenizer false q acc)
  = mkTokenizer false q (acc ++ words).
Proof.
  intros Hplain; revert acc; induction Hplain as [|w words Hw _ IH]; intros acc;
    cbn [fold_left]; [now rewrite app_nil_r |].
  unfold tokenize_word at 2. cbn [in_quotes quoted_token tokens]. rewrite Hw.
  rewrite IH. now rewrite <- List.app_assoc.
Qed.

Lemma fold_swallow (words : list string) (q : string) (acc : list string) :
  Forall (λ w, front_is is_quote w || negb (back_is is_quote w) = true) words →
  tokens (fold_left tokenize_word words (mkTokenizer true q acc)) = acc.
Proof.
  intros Hopen; revert q; induction Hopen as [|w words Hw _ IH]; intros q;
    cbn [fold_left]; [reflexivity |].
  unfold tokenize_word at 2. cbn [in_quotes quoted_token tokens].
  destruct (front_is is_quote w); [apply IH |].
  cbn in Hw. destruct (back_is is_quote w); [discriminate | apply IH].
Qed.

Lemma fold_inside (mids : list string) (q : string) (acc : list string) :
  Forall (λ w, front_is is_quote w = false ∧ back_is is_quote w = false) mids →
  fold_left tokenize_word mids (mkTokenizer true q acc)
  = mkTokenizer true (fold_left (λ phrase w, phrase +:+ " " +:+ w) mids q) acc.
Proof.
  intros Hin; revert q; induction Hin as [|w mids [Hfront Hback] _ IH]; intros q;
    cbn [fold_left]; [reflexivity |].
  unfold tokenize_word at 2. cbn [in_quotes quoted_token tokens].
  rewrite Hfront, Hback. apply IH.
Qed.

(** X20.  An input none of whose words begins with a quote is tokenized
    into its words, in order. *)
Theorem tokenize_unquoted (input : string) :
  Forall (λ w, front_is is_quote w = false) (String.words input) →
  tokenize input = String.words input.
Proof.
  intros Hplain. unfold tokenize, tokenize_words. now rewrite fold_plain.
Qed.

(** X21.  A word that begins with a quote is never pushed, also when the
    same word ends with the quote; the words after it are dropped for as
    long as none of them ends with a quote without also beginning with one.
    So [grep 'foo' file.txt] has the single token [grep]. *)
Theorem tokenize_quote_swallows (input opener : string) (pre post : list string) :
  String.words input = pre ++ opener :: post →
  Forall (λ w, front_is is_quote w = false) pre →
  front_is is_quote opener = true →
  Forall (λ w, front_is is_quote w || negb (back_is is_quote w) = true) post →
  tokenize input = pre.
Proof.
  intros Hwords Hpre Hopener Hpost. unfold tokenize, tokenize_words.
  rewrite Hwords, fold_left_app, fold_plain by exact Hpre.
  cbn [fold_left app]. unfold tokenize_word at 2.
  cbn [tokens]. rewrite Hopener. now apply fold_swallow.
Qed.

(** X22.  A quoted phrase of at least two words becomes one token: the
    opening word without its first byte, the words in between and the
    closing word without its last byte, joined by single blanks whatever the
    white space in the input was.  The words after the phrase are tokenized
    as an input of their own. *)
Theorem tokenize_quoted_phrase (input : string) (c : ascii) (body closer : string)
    (pre mids post : list string) :
  String.words input = pre ++ String c body :: mids ++ closer :: post →
  Forall (λ w, front_is is_quote w = false) pre →
  is_quote c = true →
  Forall (λ w, front_is is_quote w = false ∧ back_is is_quote w = false) mids →
  front_is is_quote closer = false →
  back_is is_quote closer = true →
  tokenize input
  = pre
    ++ [fold_left (λ phrase w, phrase +:+ " " +:+ w)
          (mids ++ [Str.pop_back closer]) body]
    ++ tokenize_words post.
Proof.
  intros Hwords Hpre Hc Hmids Hfront Hback. unfold tokenize, tokenize_words.
  rewrite Hwords, fold_left_app, fold_plain by exact Hpre.
  cbn [fold_left app]. unfold tokenize_word at 2.
  cbn [tokens front_is in_quotes quoted_token]. rewrite Hc.
  rewrite fold_left_app, fold_inside by exact Hmids.
  cbn [fold_left]. unfold tokenize_word at 2.
  cbn [tokens in_quotes quoted_token]. rewrite Hfront, Hback.
  rewrite fold_tokens_acc, <- List.app_assoc. f_equal. cbn [app]. f_equal.
  - rewrite fold_left_app. cbn [fold_left].
    unfold Str.substr_from, Str.substr, Str.pop_back.
    change (Str.drop 1 (String c body)) with body.
    now replace (Str.drop 0 closer) with closer by now destruct closer.
  - apply fold_closed_irrelevant.
Qed.

(** X23.  [isQuestion] matches by substring, not by word, and without
    regard to case: a question mark anywhere, a pattern of the list at the
    very start, or a pattern right after a blank makes the input a question,
    whatever follows the pattern. *)
Theorem isQuestion_by_substring (pattern word pre rest : string) :
  pattern ∈ question_patterns →
  Str.map Str.tolower word = pattern →
  isQuestion (pre +:+ "?" +:+ rest) = true
  ∧ isQuestion (word +:+ rest) = true
  ∧ isQuestion (pre +:+ " " +:+ word +:+ rest) = true.
Proof.
  intros Hin Hword.
  assert (Hex : ∀ lower,
            (bool_decide (Str.find pattern lower = Some 0%nat)
             || Str.contains (" " +:+ pattern) lower) = true →
            existsb
              (λ pattern,
                 bool_decide (Str.find pattern lower = Some 0%nat)
                 || Str.contains (" " +:+ pattern) lower)
              question_patterns = true).
  { intros lower Hhit. apply existsb_exists. exists pattern.
    split; [now apply list_elem_of_In | exact Hhit]. }
  unfold isQuestion. split; [| split].
  - rewrite !smap_app.
    change (Str.map Str.tolower "?") with "?". now rewrite contains_app.
  - rewrite Hex; [apply orb_true_r |].
    rewrite smap_app, Hword. apply orb_true_iff. left.
    apply bool_decide_eq_true, find_zero, starts_with_app.
  - rewrite Hex; [apply orb_true_r |].
    rewrite !smap_app, Hword. apply orb_true_iff. right.
    change (Str.map Str.tolower " ") with " ".
    rewrite <- (sapp_assoc " " pattern). apply contains_app.
Qed.

(** X24.  [parse] keeps the input, never fills a field for a question,
    and otherwise takes the first token as the executable and divides the
    others: every flag begins with a dash, no argument does, and together
    they are the other tokens. *)
Theorem parse_partition (input : string) :
  let p := parse input in
  raw_input p = input
  ∧ is_question p = isQuestion input
  ∧ Forall (λ token, front_is is_dash token = true) (flags p)
  ∧ Forall (λ token, front_is is_dash token = false) (args p)
  ∧ (isQuestion input = true → executable p = "" ∧ args p = [] ∧ flags p = [])
  ∧ (isQuestion input = false →
       executable p = default "" (head (tokenize input))
       ∧ flags p ++ args p ≡ₚ tail (tokenize input)
       ∧ (length (flags p) + length (args p) = length (tokenize input) - 1)%nat).
Proof.
  cbn zeta. unfold parse. destruct (isQuestion input).
  { cbn. repeat split; auto; discriminate. }
  destruct (tokenize input) as [|exe rest]; cbn [raw_input is_question flags args
    executable head tail default from_option id length].
  { cbn. repeat split; auto; discriminate. }
  assert (Hperm : filter (λ token, front_is is_dash token = true) rest
                  ++ filter (λ token, front_is is_dash token = false) rest ≡ₚ rest).
  { clear. induction rest as [|token rest IH]; [reflexivity |].
    rewrite !filter_cons. destruct (front_is is_dash token) eqn:Hdash.
    - rewrite decide_True by reflexivity. rewrite decide_False by discriminate.
      cbn. now rewrite IH.
    - rewrite decide_False by discriminate. rewrite decide_True by reflexivity.
      rewrite <- Permutation_middle. now rewrite IH. }
  split; [reflexivity |]. split; [reflexivity |].
  split; [apply Forall_forall; now intros token [? _]%list_elem_of_filter |].
  split; [apply Forall_forall; now intros token [? _]%list_elem_of_filter |].
  split; [discriminate |]. intros _.
  split; [reflexivity |]. split; [exact Hperm |].
  rewrite <- length_app, Hperm. lia.
Qed.

End ParserFacts.

Section IntentFacts.
Import CommandParser.

Lemma pop_back_snoc (s : string) (c : ascii) :
  Str.back s = Some c →
  s = Str.pop_back s +:+ Str.of_char c
  ∧ S (String.length (Str.pop_back s)) = String.length s.
Proof.
  unfold Str.pop_back. induction s as [|a s IH]; [discriminate |].
  destruct s as [|b s].
  - intros [= <-]. split; reflexivity.
  - intros Hback. change (Str.back (String a (String b s))) with (Str.back (String b s)) in Hback.
    destruct (IH Hback) as [Hs Hlen].
    replace (String.length (String a (String b s)) - 1)%nat
      with (S (String.length (String b s) - 1)) by (cbn [String.length]; lia).
    change (Str.take (S (String.length (String b s) - 1)) (String a (String b s)))
      with (String a (Str.take (String.length (String b s) - 1) (String b s))).
    rewrite sapp_cons, <- Hs. split; [reflexivity |].
    cbn [String.length] in *. now rewrite Hlen.
Qed.

Lemma find_first_not_of_app (set a b : string) :
  Str.find_first_not_of set a = None →
  Str.find_first_not_of set b = None →
  Str.find_first_not_of set (a +:+ b) = None.
Proof.
  intros Ha Hb. induction a as [|c a IH]; [exact Hb |].
  rewrite sapp_cons. cbn in *. destruct (Str.mem c set); [| discriminate].
  destruct (Str.find_first_not_of set a); [discriminate |]. now rewrite IH.
Qed.

(** The loop that removes trailing punctuation ends within as many rounds
    as the string has bytes, with what it removed made of [?] and [.] only
    and nothing of the kind left at the end. *)
Lemma strip_loop_spec (fuel : nat) (s : string) :
  (String.length s ≤ fuel)%nat →
  ∃ punct, s = strip_loop fuel s +:+ punct
           ∧ Str.find_first_not_of "?." punct = None
           ∧ back_is is_punct (strip_loop fuel s) = false.
Proof.
  revert s; induction fuel as [|fuel IH]; intros s Hlen.
  - destruct s; [| now inversion Hlen]. exists "". repeat split.
  - cbn [strip_loop].
    destruct s as [|a s]; [exists ""; repeat split |].
    cbn [Str.is_empty negb andb].
    destruct (back_is is_punct (String a s)) eqn:Hend0.
    2:{ exists "". rewrite sapp_empty_r. repeat split. exact Hend0. }
    unfold back_is in Hend0.
    destruct (Str.back (String a s)) as [c |] eqn:Hback; [| discriminate].
    rename Hend0 into Hc.
    destruct (pop_back_snoc _ _ Hback) as [Hs Hshort].
    destruct (IH (Str.pop_back (String a s)) ltac:(lia)) as (punct & Hrest & Hpunct & Hend).
    exists (punct +:+ Str.of_char c). split; [| split; [| exact Hend]].
    + now rewrite <- sapp_assoc, <- Hrest.
    + apply find_first_not_of_app; [exact Hpunct |].
      unfold is_punct in Hc. cbn.
      destruct (Ascii.eqb_spec c "?") as [-> |]; [reflexivity |].
      destruct (Ascii.eqb_spec c ".") as [-> |]; [reflexivity | discriminate].
Qed.

Lemma back_drop (n : nat) (s : string) :
  Str.drop n s ≠ "" → Str.back (Str.drop n s) = Str.back s.
Proof.
  revert s; induction n as [|n IH]; intros s; [now destruct s |].
  destruct s as [|c s]; [reflexivity |].
  change (Str.drop (S n) (String c s)) with (Str.drop n s).
  intros Hrest. rewrite (IH s Hrest).
  destruct s; [now destruct n |]. reflexivity.
Qed.

Lemma starts_with_take (p s : string) :
  Str.starts_with p s = true → Str.take (String.length p) s = p.
Proof.
  revert s; induction p as [|c p IH]; intros s; [now destruct s |].
  destruct s as [|b s]; [discriminate |]. cbn [Str.starts_with String.length].
  destruct (Ascii.eqb_spec c b) as [<- | _]; [| discriminate].
  intros Hrest. change (Str.take (S (String.length p)) (String c s))
    with (String c (Str.take (String.length p) s)).
  now rewrite IH.
Qed.

Lemma smap_take (f : ascii → ascii) (n : nat) (s : string) :
  Str.map f (Str.take n s) = Str.take n (Str.map f s).
Proof.
  revert s; induction n as [|n IH]; intros [|c s]; try reflexivity.
  cbn. now rewrite IH.
Qed.

(** X25.  [extractIntent] returns a piece of the question: what it cuts
    off at the end is made of question marks and full stops only, what it
    cuts off at the start is nothing or, up to case, one prefix of its list;
    the result never ends with a question mark or a full stop. *)
Theorem extractIntent_shape (question : string) :
  ∃ pre punct,
    question = pre +:+ extractIntent question +:+ punct
    ∧ Str.find_first_not_of "?." punct = None
    ∧ (pre = "" ∨ Str.map Str.tolower pre ∈ prefixes)
    ∧ back_is is_punct (extractIntent question) = false.
Proof.
  unfold extractIntent.
  destruct (strip_loop_spec (String.length question) question (le_n _))
    as (punct & Hq & Hpunct & Hend).
  set (intent := strip_loop (String.length question) question) in *.
  destruct (List.find _ prefixes) as [prefix |] eqn:Hfind.
  2:{ exists "", punct. rewrite sapp_nil_l. auto. }
  apply find_some in Hfind. destruct Hfind as [Hin Hstart].
  apply bool_decide_eq_true, find_zero, starts_with_take in Hstart.
  exists (Str.take (String.length prefix) intent), punct.
  unfold Str.substr_from. split; [| split; [exact Hpunct | split]].
  - now rewrite <- sapp_assoc, stake_app_drop.
  - right. rewrite smap_take, Hstart. now apply list_elem_of_In.
  - unfold back_is in *.
    destruct (Str.drop (String.length prefix) intent) as [|c r] eqn:Hdrop;
      [reflexivity |].
    rewrite <- Hdrop, back_drop; [exact Hend | now rewrite Hdrop].
Qed.

End IntentFacts.

(** ** Validation and the explanation engine *)

Section ExplainerFacts.
Import Json GeminiClient Spec.
Context `{JsonLib} `{FileSystem}.

(** A call that does not succeed has a message. *)
Lemma sendRequest_error_message post prompt use_history st :
  GeminiResponse.success (sendRequest post prompt use_history st).1 = false →
  GeminiResponse.error (sendRequest post prompt use_history st).1 ≠ "".
Proof.
  unfold sendRequest.
  destruct (post _) as [err | status body]; [intros _; discriminate |].
  destruct (negb (status =? 200)); [intros _; apply api_error_nonempty |].
  destruct (reply_text body) as [[text |] | e]; try (intros _; discriminate).
  destruct (active use_history (impl st)); [| discriminate].
  destruct (raised _); [intros _ |]; discriminate.
Qed.

(** A request that got no reply text stores nothing. *)
Lemma sendRequest_unanswered post prompt use_history st :
  failed (post (build_request (impl st) prompt use_history)) = true →
  impl (sendRequest post prompt use_history st).2 = impl st
  ∧ files (sendRequest post prompt use_history st).2 = files st.
Proof.
  unfold sendRequest, failed.
  destruct (post _) as [err | status body]; [now split |].
  destruct (negb (status =? 200)); [now split |]. cbn [orb].
  destruct (reply_text body) as [[text |] | e]; [discriminate | now split..].
Qed.

(** A request outside the session stores nothing either way. *)
Lemma sendRequest_without_history post prompt st :
  impl (sendRequest post prompt false st).2 = impl st
  ∧ files (sendRequest post prompt false st).2 = files st.
Proof.
  unfold sendRequest, active. cbn [andb].
  destruct (post _) as [err | status body]; [split; reflexivity |].
  destruct (negb (status =? 200)); [split; reflexivity |].
  destruct (reply_text body) as [[text |] | e]; split; reflexivity.
Qed.

(** X26.  [validate] works outside the session: its one request carries
    the fixed prompt alone, whatever the history is, and neither the history
    nor any file changes, also when the key is accepted.  It answers true
    exactly when the request succeeds; the caller's message is left as it
    was then, and replaced by a non-empty one otherwise. *)
Theorem validate_is_sessionless post error_message st :
  let probe :=
    mkRequest (buildEndpoint (impl st))
      (dump None
         (object [("contents", JArray [turn "user" "Respond with only the word OK"])])) in
  let r := validate post error_message st in
  impl r.2 = impl st
  ∧ files r.2 = files st
  ∧ sent r.2 = sent st ++ [probe]
  ∧ r.1.1 = negb (failed (post probe))
  ∧ (if r.1.1 then r.1.2 = error_message else r.1.2 ≠ "").
Proof.
  cbn zeta. unfold validate.
  pose proof (sendRequest_without_history post "Respond with only the word OK" st)
    as [Himpl Hfiles].
  pose proof (sendRequest_sent post "Respond with only the word OK" false st) as Hsent.
  pose proof (sendRequest_success_iff post "Respond with only the word OK" false st
                eq_refl) as Hiff.
  pose proof (sendRequest_error_message post "Respond with only the word OK" false st)
    as Hfail.
  unfold build_request, active in Hsent, Hiff. cbn [andb app] in Hsent, Hiff.
  destruct (sendRequest post _ false st) as [response st']. cbn [fst snd] in *.
  rewrite <- Hiff.
  destruct (GeminiResponse.success response); cbn [negb fst snd];
    repeat split; auto.
Qed.

Lemma contains_skip (p a s : string) :
  Str.contains p s = true → Str.contains p (a +:+ s) = true.
Proof.
  unfold Str.contains, Str.find. intros Hs.
  induction a as [|c a IH]; [exact Hs |].
  rewrite sapp_cons. cbn [Str.find_from].
  destruct (Str.starts_with p (String c (a +:+ s))); [reflexivity |].
  rewrite find_from_succ. now destruct (Str.find_from p (a +:+ s) 0).
Qed.

Lemma contains_of_starts (p s : string) :
  Str.starts_with p s = true → Str.contains p s = true.
Proof.
  intros Hstart. apply find_zero in Hstart. unfold Str.contains. now rewrite Hstart.
Qed.

Lemma starts_with_app_both (x p s : string) :
  Str.starts_with p s = true → Str.starts_with (x +:+ p) (x +:+ s) = true.
Proof.
  intros Hstart. induction x as [|c x IH]; [exact Hstart |].
  rewrite !sapp_cons. cbn [Str.starts_with]. now rewrite Ascii.eqb_refl.
Qed.

Ltac locate :=
  first [ solve [ apply contains_of_starts;
                  repeat (apply starts_with_app_both);
                  apply starts_with_app ]
        | apply contains_skip; locate ].

Lemma answer_cases (failure : string) (response : GeminiResponse.t) :
  ExplainerEngine.answer failure response
  = if GeminiResponse.success response then GeminiResponse.content response
    else failure +:+ GeminiResponse.error response.
Proof. unfold ExplainerEngine.answer. now destruct (GeminiResponse.success response). Qed.

(** X27.  The three entry points of the explanation engine hand on the
    reply of a call that reports success as it is, and after any other call
    return the client's message, which is never empty, behind their own
    prefix.  When the request itself got no reply text (no answer, a status
    other than 200, a body without the text), the session is as it was.
    The prompt of [explain] holds the command as it was given, in every
    mode, and the prompt of [suggestFix] the failed command and the error
    message. *)
Theorem explainer_answers post command mode failed_command error_msg question st :
  let outcome (r : string * State) (prefix prompt : string) :=
    let response := (sendRequest post prompt true st).1 in
    (if GeminiResponse.success response
     then r.1 = GeminiResponse.content response
     else r.1 = prefix +:+ GeminiResponse.error response
          ∧ GeminiResponse.error response ≠ "")
    ∧ (failed (post (build_request (impl st) prompt true)) = true →
       GeminiResponse.success response = false
       ∧ impl r.2 = impl st ∧ files r.2 = files st) in
  (Str.contains ("Comando: " +:+ command +:+ NL)
     (ExplainerEngine.buildExplainPrompt command mode) = true
   ∧ outcome (ExplainerEngine.explain post command mode st)
       "Erro ao gerar explicacao: "
       (ExplainerEngine.buildExplainPrompt command mode))
  ∧ (Str.contains ("Comando que falhou: " +:+ failed_command +:+ NL
                    +:+ "Mensagem de erro: " +:+ error_msg +:+ NL)
       (ExplainerEngine.buildFixPrompt failed_command error_msg) = true
     ∧ outcome (ExplainerEngine.suggestFix post failed_command error_msg st)
         "Erro ao gerar sugestao: "
         (ExplainerEngine.buildFixPrompt failed_command error_msg))
  ∧ ∃ prompt,
      GeminiTasks.suggestCommand post question st = sendRequest post prompt true st
      ∧ outcome (ExplainerEngine.translateQuestion post question st)
          "Erro ao processar pergunta: " prompt.
Proof.
  cbn zeta.
  assert (Hout : ∀ prompt prefix,
            let sent_request := sendRequest post prompt true st in
            (if GeminiResponse.success sent_request.1
             then ExplainerEngine.answer prefix sent_request.1
                  = GeminiResponse.content sent_request.1
             else ExplainerEngine.answer prefix sent_request.1
                  = prefix +:+ GeminiResponse.error sent_request.1
                  ∧ GeminiResponse.error sent_request.1 ≠ "")
            ∧ (failed (post (build_request (impl st) prompt true)) = true →
               GeminiResponse.success sent_request.1 = false
               ∧ impl sent_request.2 = impl st ∧ files sent_request.2 = files st)).
  { intros prompt prefix. cbn zeta. rewrite answer_cases.
    pose proof (sendRequest_error_message post prompt true st) as Hmsg.
    pose proof (sendRequest_unanswered post prompt true st) as Hsame.
    pose proof (sendRequest_success_replied post prompt true st) as Hreplied.
    split.
    - destruct (GeminiResponse.success _); [reflexivity |].
      split; [reflexivity | now apply Hmsg].
    - intros Hfailed. split; [| now apply Hsame].
      destruct (GeminiResponse.success _); [| reflexivity].
      specialize (Hreplied eq_refl). congruence. }
  split; [split | split; [split |]].
  - destruct mode; unfold ExplainerEngine.buildExplainPrompt; locate.
  - unfold ExplainerEngine.explain, generateContent.
    specialize (Hout (ExplainerEngine.buildExplainPrompt command mode)
                     "Erro ao gerar explicacao: ").
    cbn zeta in Hout. now destruct (sendRequest post _ true st).
  - unfold ExplainerEngine.buildFixPrompt. locate.
  - unfold ExplainerEngine.suggestFix, generateContent.
    specialize (Hout (ExplainerEngine.buildFixPrompt failed_command error_msg)
                     "Erro ao gerar sugestao: ").
    cbn zeta in Hout. now destruct (sendRequest post _ true st).
  - unfold ExplainerEngine.translateQuestion, GeminiTasks.suggestCommand.
    eexists. split; [reflexivity |].
    match goal with
    | |- context [let '(_, _) := sendRequest post ?p true st in _] =>
        specialize (Hout p "Erro ao processar pergunta: ")
    end.
    cbn zeta in Hout. now destruct (sendRequest post _ true st).
Qed.

End ExplainerFacts.

(** ** The further properties on concrete inputs *)

Section MoreEvaluations.
Import Json GeminiClient Spec Props.
Local Existing Instance Samples.home_u.

Lemma perform_chunking_irrelevant_witness :
  Str.concat [Samples.sse_bytes]
  = Str.concat [Str.take 7 Samples.sse_bytes; Str.drop 7 Samples.sse_bytes]
  ∧ perform [Samples.sse_bytes] (new_ctx true) []
    = perform [Str.take 7 Samples.sse_bytes; Str.drop 7 Samples.sse_bytes]
        (new_ctx true) [].
Proof.
  assert (Hsame : Str.concat [Samples.sse_bytes]
                  = Str.concat [Str.take 7 Samples.sse_bytes; Str.drop 7 Samples.sse_bytes])
    by (vm_compute; reflexivity).
  split; [exact Hsame |].
  exact (perform_chunking_irrelevant _ _ true Hsame).
Defined.

Lemma append_keeps_newest_witness :
  session_path (impl Samples.full_session) ≠ ""
  ∧ ∃ kept, history (impl (addToHistory "user" "next" Samples.full_session))
            = kept ++ [turn "user" "next"].
Proof.
  assert (Hpath : session_path (impl Samples.full_session) ≠ "") by discriminate.
  split; [exact Hpath |].
  destruct (append_keeps_newest Samples.full_session Hpath) as [Hadd _].
  apply Hadd.
Defined.

Lemma append_touches_one_file_witness :
  "/etc/hostname" ≠ session_path (impl Inputs.new_session)
  ∧ files (addToHistory "user" "hi" Inputs.new_session) !! "/etc/hostname"
    = files Inputs.new_session !! "/etc/hostname".
Proof.
  assert (Hother : "/etc/hostname" ≠ session_path (impl Inputs.new_session))
    by discriminate.
  split; [exact Hother |].
  destruct (append_touches_one_file Inputs.new_session "/etc/hostname" Hother)
    as [Hadd _].
  apply Hadd.
Defined.

Lemma session_survives_restart_witness :
  "proj" ≠ ""
  ∧ new_Impl "key" "" "" "proj" (Some "/home/u") Inputs.other_files
    = Ok (Samples.persistent_impl [])
  ∧ new_Impl "key" "" "" "proj" (Some "/home/u")
      (files (addToHistory "user" "hi" Inputs.new_session))
    = Ok (Samples.persistent_impl [turn "user" "hi"])
  ∧ new_Impl "key" "" "" "proj" (Some "/home/u")
      (files (addToHistory "user" Samples.cut_output Inputs.new_session))
    = Ok (Samples.persistent_impl [])
  ∧ files (addToHistory "user" Samples.cut_output Inputs.new_session)
    !! Samples.session_file = Some "".
Proof.
  assert (Hname : "proj" ≠ "") by discriminate.
  assert (Hnew : new_Impl "key" "" "" "proj" (Some "/home/u") Inputs.other_files
                 = Ok (Samples.persistent_impl [])) by (vm_compute; reflexivity).
  split; [exact Hname |]. split; [exact Hnew |].
  split; [| split; [| vm_compute; reflexivity]].
  - destruct (session_survives_restart "key" "" "" "proj" "/home/u" Inputs.other_files
                (Samples.persistent_impl []) "user" "hi" Hname Hnew) as (Hwritten & _).
    unfold Inputs.new_session. rewrite Hwritten; vm_compute; reflexivity.
  - destruct (session_survives_restart "key" "" "" "proj" "/home/u" Inputs.other_files
                (Samples.persistent_impl []) "user" Samples.cut_output Hname Hnew)
      as (_ & Hemptied & _).
    unfold Inputs.new_session. rewrite Hemptied; [reflexivity | reflexivity | |].
    + vm_compute. eauto.
    + eexists. vm_compute. reflexivity.
Defined.


Lemma session_delete_forgets_witness :
  "proj" ≠ ""
  ∧ is_Some (({[Samples.session_file := "[]"]} : gmap string string)
               !! Main.deleted_path "/home/u" "proj")
  ∧ (Main.session_delete "/home/u" "proj" {[Samples.session_file := "[]"]}).1 = 0.
Proof.
  assert (Hname : "proj" ≠ "") by discriminate.
  assert (Hthere : is_Some (({[Samples.session_file := "[]"]} : gmap string string)
                              !! Main.deleted_path "/home/u" "proj"))
    by (exists "[]"; vm_compute; reflexivity).
  split; [exact Hname |]. split; [exact Hthere |].
  destruct (session_delete_forgets "key" "" "" "proj" "/home/u"
              {[Samples.session_file := "[]"]} Hname) as (_ & _ & Hdelete).
  destruct (Hdelete Hthere) as [Hzero _]. exact Hzero.
Defined.

Lemma console_loop_is_gated_witness :
  Forall gated (Main.spawned (Main.mkTrace Samples.short_session []))
  ∧ Forall gated
      (Main.spawned
         (Main.console_loop (Samples.replies Inputs.removal_reply) Inputs.shell "proj"
            Inputs.typed (Main.mkTrace Samples.short_session [])))
  ∧ Main.spawned
      (Main.console_loop (Samples.replies Inputs.removal_reply) Inputs.shell "proj"
         Inputs.typed (Main.mkTrace Samples.short_session []))
    = [("rm -rf /tmp/x", Some "yes")].
Proof.
  assert (Hnone : Forall gated (Main.spawned (Main.mkTrace Samples.short_session [])))
    by constructor.
  split; [exact Hnone |]. split; [| vm_compute; reflexivity].
  destruct (console_loop_is_gated (Samples.replies Inputs.removal_reply) Inputs.shell
              "proj" Inputs.typed (Main.mkTrace Samples.short_session []) Hnone)
    as [Hgated _].
  exact Hgated.
Defined.

Lemma tokenize_unquoted_witness :
  Forall (λ w, CommandParser.front_is CommandParser.is_quote w = false)
         (String.words "ls -la /home")
  ∧ CommandParser.tokenize "ls -la /home" = ["ls"; "-la"; "/home"].
Proof.
  assert (Hplain : Forall (λ w, CommandParser.front_is CommandParser.is_quote w = false)
                          (String.words "ls -la /home"))
    by (repeat constructor).
  split; [exact Hplain |].
  rewrite (tokenize_unquoted "ls -la /home" Hplain). reflexivity.
Defined.

Lemma tokenize_quote_swallows_witness :
  String.words "grep 'foo' file.txt" = ["grep"] ++ "'foo'" :: ["file.txt"]
  ∧ CommandParser.tokenize "grep 'foo' file.txt" = ["grep"].
Proof.
  assert (Hwords : String.words "grep 'foo' file.txt"
                   = ["grep"] ++ "'foo'" :: ["file.txt"]) by reflexivity.
  split; [exact Hwords |].
  apply (tokenize_quote_swallows _ _ _ _ Hwords);
    [repeat constructor | reflexivity | repeat constructor].
Defined.

Lemma tokenize_quoted_phrase_witness :
  String.words "echo 'hello   big world' done"
  = ["echo"] ++ String "'" "hello" :: ["big"] ++ "world'" :: ["done"]
  ∧ CommandParser.tokenize "echo 'hello   big world' done"
    = ["echo"; "hello big world"; "done"].
Proof.
  assert (Hwords : String.words "echo 'hello   big world' done"
                   = ["echo"] ++ String "'" "hello" :: ["big"] ++ "world'" :: ["done"])
    by reflexivity.
  split; [exact Hwords |].
  rewrite (tokenize_quoted_phrase _ _ _ _ _ _ _ Hwords);
    [reflexivity | repeat constructor | reflexivity | repeat constructor
     | reflexivity | reflexivity].
Defined.

Lemma isQuestion_by_substring_witness :
  "how" ∈ CommandParser.question_patterns
  ∧ CommandParser.isQuestion "ls file?.txt" = true
  ∧ CommandParser.isQuestion "However it ends" = true
  ∧ CommandParser.isQuestion "echo showcase" = false
  ∧ CommandParser.isQuestion "echo Howard" = true.
Proof.
  assert (Hin : "how" ∈ CommandParser.question_patterns)
    by (apply list_elem_of_In; vm_compute; tauto).
  split; [exact Hin |].
  destruct (isQuestion_by_substring "how" "How" "ls file" ".txt" Hin eq_refl)
    as (Hmark & _ & _).
  destruct (isQuestion_by_substring "how" "How" "echo" "ever it ends" Hin eq_refl)
    as (_ & Hstart & _).
  destruct (isQuestion_by_substring "how" "How" "echo" "ard" Hin eq_refl)
    as (_ & _ & Hblank).
  split; [exact Hmark |]. split; [exact Hstart |].
  split; [reflexivity | exact Hblank].
Defined.

End MoreEvaluations.
